(** * aiworkflow: the workflow engine, its retry policy and its circuit breaker

    A shallow embedding of [src/aiworkflow/core/engine.py].  Finite Python
    [float] quantities (delays, time stamps, time-outs) are idealised as
    exact rationals: rounding is left out, while the places where float
    arithmetic raises, and the infinities and nans that [float()] reads, are
    modelled.  Python [dict]s are finite maps where only lookups matter and
    association lists where the code walks them in insertion order.  A
    [string] is a sequence of code points below 256. *)

From Stdlib Require Import QArith Qminmax Qpower Qabs Lqa Ascii String.
From stdpp Require Import gmap strings list fin_maps.

Set Warnings "-register-all".
Local Open Scope Z_scope.

(** ** Numbers *)

Module Num.

(** [a < b] on floats, as a boolean. *)
Definition ltb (a b : Q) : bool := negb (Qle_bool b a).

(** [a >= b] on floats. *)
Definition geb (a b : Q) : bool := Qle_bool b a.

(** Python's two-argument [min(a, b)]: [a] is kept unless [b < a]. *)
Definition pymin (a b : Q) : Q := if ltb b a then b else a.

(** [random.uniform(a, b)] is [a + (b - a) * random()]; the draw [u] of
    [random()] is supplied by the caller. *)
Definition uniform (a b u : Q) : Q := (a + (b - a) * u)%Q.

End Num.

(** ** Floats beyond the finite ones *)

(** A [float] as [float(s)] can return it: finite, an infinity or a nan. *)
Inductive pyfloat :=
| Finite (x : Q)
| PosInf
| NegInf
| NaN.

Module Float.

(** The least magnitude that rounds beyond the largest finite double:
    [2**1024 - 2**970]. *)
Definition limit : Q := inject_Z (2 ^ 1024 - 2 ^ 970).

(** The exact value [x] is too large for a finite double. *)
Definition overflows (x : Q) : bool := Qle_bool limit (Qabs x).

(** [x ** n] for a float [x] and an int [n]: the message of the exception
    it raises, if it raises.  The int is converted to a float first
    ([OverflowError]); zero to a negative power is a [ZeroDivisionError];
    a result out of range is the [OverflowError] of the C library's
    [pow].  A result too small for a double is 0.0 and raises nothing. *)
Definition pow_raises (x : Q) (n : Z) : option string :=
  if overflows (inject_Z n) then
    Some "int too large to convert to float"%string
  else if Qeq_bool x 0 && (n <? 0) then
    Some "0.0 cannot be raised to a negative power"%string
  else if overflows (x ^ n) then
    Some "(34, 'Numerical result out of range')"%string
  else None.

(** [a < b]: false as soon as one side is a nan. *)
Definition ltb (a b : pyfloat) : bool :=
  match a, b with
  | NaN, _ | _, NaN => false
  | Finite x, Finite y => Num.ltb x y
  | NegInf, NegInf => false
  | NegInf, _ => true
  | _, NegInf => false
  | PosInf, _ => false
  | Finite _, PosInf => true
  end.

End Float.

(** ** RetryPolicy *)

Record RetryPolicy := mkRetryPolicy {
  max_retries : Z;
  base_delay : Q;
  max_delay : Q;
  exponential_base : Q;
  jitter : Q
}.

(** [RetryPolicy()] with the constructor's default arguments. *)
Definition RetryPolicy_default : RetryPolicy :=
  {| max_retries := 3;
     base_delay := 1;
     max_delay := 60;
     exponential_base := 2;
     jitter := (1 # 10) |}.

(** [RetryPolicy.get_delay(attempt)] raises what its power
    [exponential_base ** (attempt - 1)] raises; the fields of a policy are
    floats, as annotated. *)
Definition get_delay_raises (self : RetryPolicy) (attempt : Z) : option string :=
  Float.pow_raises (exponential_base self) (attempt - 1).

(** [RetryPolicy.get_delay(attempt)], the value it returns when it does not
    raise; [u] is the value [random.random()] returns if the jitter branch
    asks for it. *)
Definition get_delay (self : RetryPolicy) (attempt : Z) (u : Q) : Q :=
  let delay := (base_delay self * (exponential_base self ^ (attempt - 1)))%Q in
  let delay :=
    if Num.ltb 0 (jitter self) then
      let jitter_range := (delay * jitter self)%Q in
      (delay + Num.uniform (- jitter_range) jitter_range u)%Q
    else delay in
  Num.pymin delay (max_delay self).

(** [RetryPolicy.get_delay(attempt)] as a call: [inl] with the message of
    the exception when it raises. *)
Definition get_delay_call (self : RetryPolicy) (attempt : Z) (u : Q) : string + Q :=
  match get_delay_raises self attempt with
  | Some e => inl e
  | None => inr (get_delay self attempt u)
  end.

(** ** CircuitBreaker *)

Inductive CircuitState := CLOSED | OPEN | HALF_OPEN.

#[global] Instance CircuitState_eq_dec : EqDecision CircuitState.
Proof. solve_decision. Defined.

Record CircuitBreaker := mkCircuitBreaker {
  failure_threshold : Z;
  recovery_timeout : Q;
  half_open_max_calls : Z;
  _state : CircuitState;
  _failure_count : Z;
  _last_failure_time : option Q;
  _half_open_calls : Z
}.

Module CB.

(** [CircuitBreaker.__init__] *)
Definition init (threshold : Z) (timeout : Q) (max_calls : Z) : CircuitBreaker :=
  {| failure_threshold := threshold;
     recovery_timeout := timeout;
     half_open_max_calls := max_calls;
     _state := CLOSED;
     _failure_count := 0;
     _last_failure_time := None;
     _half_open_calls := 0 |}.

(** The [state] property, read at wall-clock time [now]: the value it
    returns and the breaker it leaves behind (the lazy OPEN -> HALF_OPEN
    move is a write). *)
Definition state (self : CircuitBreaker) (now : Q) : CircuitState * CircuitBreaker :=
  match _state self with
  | OPEN =>
      match _last_failure_time self with
      | Some t =>
          let elapsed := (now - t)%Q in
          if Num.geb elapsed (recovery_timeout self) then
            (HALF_OPEN,
             {| failure_threshold := failure_threshold self;
                recovery_timeout := recovery_timeout self;
                half_open_max_calls := half_open_max_calls self;
                _state := HALF_OPEN;
                _failure_count := _failure_count self;
                _last_failure_time := _last_failure_time self;
                _half_open_calls := 0 |})
          else (OPEN, self)
      | None => (OPEN, self)
      end
  | s => (s, self)
  end.

(** [can_execute()] *)
Definition can_execute (self : CircuitBreaker) (now : Q) : bool * CircuitBreaker :=
  let '(st, self') := state self now in
  match st with
  | CLOSED => (true, self')
  | HALF_OPEN => (_half_open_calls self' <? half_open_max_calls self', self')
  | OPEN => (false, self')
  end.

(** [record_success()] *)
Definition record_success (self : CircuitBreaker) : CircuitBreaker :=
  match _state self with
  | HALF_OPEN =>
      let calls := _half_open_calls self + 1 in
      if calls >=? half_open_max_calls self then
        {| failure_threshold := failure_threshold self;
           recovery_timeout := recovery_timeout self;
           half_open_max_calls := half_open_max_calls self;
           _state := CLOSED;
           _failure_count := 0;
           _last_failure_time := _last_failure_time self;
           _half_open_calls := calls |}
      else
        {| failure_threshold := failure_threshold self;
           recovery_timeout := recovery_timeout self;
           half_open_max_calls := half_open_max_calls self;
           _state := HALF_OPEN;
           _failure_count := _failure_count self;
           _last_failure_time := _last_failure_time self;
           _half_open_calls := calls |}
  | CLOSED =>
      {| failure_threshold := failure_threshold self;
         recovery_timeout := recovery_timeout self;
         half_open_max_calls := half_open_max_calls self;
         _state := CLOSED;
         _failure_count := 0;
         _last_failure_time := _last_failure_time self;
         _half_open_calls := _half_open_calls self |}
  | OPEN => self
  end.

(** [record_failure()], called at wall-clock time [now]. *)
Definition record_failure (self : CircuitBreaker) (now : Q) : CircuitBreaker :=
  let count := _failure_count self + 1 in
  let st :=
    match _state self with
    | HALF_OPEN => OPEN
    | s => if count >=? failure_threshold self then OPEN else s
    end in
  {| failure_threshold := failure_threshold self;
     recovery_timeout := recovery_timeout self;
     half_open_max_calls := half_open_max_calls self;
     _state := st;
     _failure_count := count;
     _last_failure_time := Some now;
     _half_open_calls := _half_open_calls self |}.

(** [reset()] *)
Definition reset (self : CircuitBreaker) : CircuitBreaker :=
  {| failure_threshold := failure_threshold self;
     recovery_timeout := recovery_timeout self;
     half_open_max_calls := half_open_max_calls self;
     _state := CLOSED;
     _failure_count := 0;
     _last_failure_time := None;
     _half_open_calls := 0 |}.

(** The calls a client can make on a breaker. *)
Inductive call :=
| RecordFailure (now : Q)
| RecordSuccess
| Reset
| ReadState (now : Q)
| CanExecute (now : Q).

Definition step (self : CircuitBreaker) (c : call) : CircuitBreaker :=
  match c with
  | RecordFailure now => record_failure self now
  | RecordSuccess => record_success self
  | Reset => reset self
  | ReadState now => snd (state self now)
  | CanExecute now => snd (can_execute self now)
  end.

Definition run (self : CircuitBreaker) (cs : list call) : CircuitBreaker :=
  foldl step self cs.

End CB.

(** ** Python values and strings *)

(** A value of type [Any]: what a step takes, produces and binds. *)
Inductive value :=
| VNone
| VBool (b : bool)
| VInt (z : Z)
| VFloat (q : Q)
| VStr (s : string)
| VList (l : list value)
| VDict (d : list (string * value)).

(** A [dict[str, Any]] walked in insertion order. *)
Abbreviation pydict := (list (string * value)).

(** The message of a raised exception, [str(e)]. *)
Abbreviation exn := string.

Module Py.

(** Truth value of an object, as [if x:] tests it. *)
Definition truthy (v : value) : bool :=
  match v with
  | VNone => false
  | VBool b => b
  | VInt z => negb (z =? 0)
  | VFloat q => negb (Qeq_bool q 0)
  | VStr s => negb (String.eqb s "")
  | VList l => match l with [] => false | _ => true end
  | VDict d => match d with [] => false | _ => true end
  end.

(** [d.get(k)] *)
Fixpoint dict_get (d : pydict) (k : string) : option value :=
  match d with
  | [] => None
  | (k', v) :: d' => if String.eqb k' k then Some v else dict_get d' k
  end.

(** [d[k] = v]: an existing key keeps its place, a new one goes last. *)
Fixpoint dict_set (d : pydict) (k : string) (v : value) : pydict :=
  match d with
  | [] => [(k, v)]
  | (k', v') :: d' =>
      if String.eqb k' k then (k', v) :: d' else (k', v') :: dict_set d' k v
  end.

(** [{**a, **b}] *)
Definition dict_merge (a b : pydict) : pydict :=
  foldl (fun acc kv => dict_set acc kv.1 kv.2) a b.

(** [s.startswith(p)] *)
Definition startswith (s p : string) : bool := String.prefix p s.

Fixpoint drop (n : nat) (s : string) : string :=
  match n, s with
  | S n', String _ s' => drop n' s'
  | _, _ => s
  end.

(** [s.split(sep, 1)] when [sep] occurs in [s]: the text before the first
    occurrence and the text after it; [None] when [sep not in s]. *)
Fixpoint split_once (sep s : string) : option (string * string) :=
  if String.prefix sep s then Some (EmptyString, drop (String.length sep) s)
  else match s with
       | EmptyString => None
       | String c s' =>
           match split_once sep s' with
           | Some (l, r) => Some (String c l, r)
           | None => None
           end
       end.

(** [sep in s] *)
Definition contains (sep s : string) : bool :=
  match split_once sep s with Some _ => true | None => false end.

(** White space that [str.strip()] removes: the code points below 256
    for which [str.isspace()] holds. *)
Definition is_space (c : ascii) : bool :=
  let n := nat_of_ascii c in
  ((9 <=? n)%nat && (n <=? 13)%nat) || ((28 <=? n)%nat && (n <=? 32)%nat)
  || (n =? 133)%nat || (n =? 160)%nat.

Fixpoint lstrip (s : string) : string :=
  match s with
  | String c s' => if is_space c then lstrip s' else s
  | EmptyString => EmptyString
  end.

Fixpoint rstrip (s : string) : string :=
  match s with
  | EmptyString => EmptyString
  | String c s' =>
      match rstrip s' with
      | EmptyString => if is_space c then EmptyString else String c EmptyString
      | r => String c r
      end
  end.

(** [s.strip()] *)
Definition strip (s : string) : string := rstrip (lstrip s).

(** [c.lower()] for a code point below 256: the upper-case letters are
    A-Z and, in the upper half, 192-214 and 216-222. *)
Definition lower_char (c : ascii) : ascii :=
  let n := nat_of_ascii c in
  if ((65 <=? n)%nat && (n <=? 90)%nat)
     || ((192 <=? n)%nat && (n <=? 214)%nat)
     || ((216 <=? n)%nat && (n <=? 222)%nat)
  then ascii_of_nat (n + 32) else c.

(** [s.lower()] *)

Fixpoint lower (s : string) : string :=
  match s with
  | EmptyString => EmptyString
  | String c s' => String (lower_char c) (lower s')
  end.

(** [sep.join(l)] *)
Fixpoint join (sep : string) (l : list string) : string :=
  match l with
  | [] => EmptyString
  | [x] => x
  | x :: l' => x +:+ sep +:+ join sep l'
  end.

Definition digit (n : Z) : ascii := ascii_of_nat (48 + Z.to_nat n).

(** The [n] low decimal digits of [z], most significant first: what
    [%02d] prints for [0 <= z < 10^n]. *)
Fixpoint digits (n : nat) (z : Z) : string :=
  match n with
  | O => EmptyString
  | S n' => digits n' (z / 10) +:+ String (digit (z mod 10)) EmptyString
  end.

Fixpoint decimal_fuel (fuel : nat) (z : Z) : string :=
  match fuel with
  | O => EmptyString
  | S f =>
      if z <? 10 then String (digit z) EmptyString
      else decimal_fuel f (z / 10) +:+ String (digit (z mod 10)) EmptyString
  end.

(** [str(z)] for [0 <= z]: no padding. *)
Definition decimal (z : Z) : string := decimal_fuel (S (Z.to_nat z)) z.

Definition hex_digit (n : Z) : ascii :=
  if n <? 10 then ascii_of_nat (48 + Z.to_nat n)
  else ascii_of_nat (87 + Z.to_nat n).

(** The [n] low hexadecimal digits of [z], lower case, most significant
    first. *)
Fixpoint hex (n : nat) (z : Z) : string :=
  match n with
  | O => EmptyString
  | S n' => hex n' (z / 16) +:+ String (hex_digit (z mod 16)) EmptyString
  end.

(** [s[:n]] *)
Fixpoint take (n : nat) (s : string) : string :=
  match n, s with
  | S n', String c s' => String c (take n' s')
  | _, _ => EmptyString
  end.

Definition is_digit (c : ascii) : bool :=
  let n := nat_of_ascii c in (48 <=? n)%nat && (n <=? 57)%nat.

Definition is_hex_digit (c : ascii) : bool :=
  let n := nat_of_ascii c in
  is_digit c || ((97 <=? n)%nat && (n <=? 102)%nat).

Fixpoint all_chars (p : ascii -> bool) (s : string) : bool :=
  match s with
  | EmptyString => true
  | String c s' => p c && all_chars p s'
  end.

End Py.

(** ** Dates *)

(** A [datetime]: its calendar fields, which [strftime] prints, and its
    POSIX time stamp in seconds, which subtraction uses. *)
Record datetime := mkDatetime {
  year : Z;
  month : Z;
  day : Z;
  hour : Z;
  minute : Z;
  second : Z;
  timestamp : Q
}.

(** [(b - a).total_seconds()] *)
Definition total_seconds (b a : datetime) : Q := (timestamp b - timestamp a)%Q.

(** [t.strftime("%Y%m%d-%H%M%S")] *)
Definition strftime_run (t : datetime) : string :=
  Py.decimal (year t) +:+ Py.digits 2 (month t) +:+ Py.digits 2 (day t)
  +:+ "-" +:+ Py.digits 2 (hour t) +:+ Py.digits 2 (minute t)
  +:+ Py.digits 2 (second t).

(** ** The data model of [aiworkflow.core.models] and [aiworkflow.core.state]

    Both modules are imported by the engine; the records below carry the
    fields the engine reads and writes. *)

(** [workflow.metadata.error_handling], an enumeration whose [value] is one
    of ["continue"], ["stop"], ["rollback"]. *)
Module ErrorHandling.
Inductive t := CONTINUE | STOP | ROLLBACK.
Definition value (e : t) : string :=
  match e with
  | CONTINUE => "continue"
  | STOP => "stop"
  | ROLLBACK => "rollback"
  end.
End ErrorHandling.

Module WorkflowStep.
Record t := mk {
  id : string;
  name : string;
  action : string;
  inputs : pydict;
  output_variable : option string;
  conditions : list string;
  (** [step.error_handling.max_retries] *)
  max_retries : Z;
  (** per-agent hints, by agent name *)
  hints : list (string * pydict)
}.

(** Modelled from the spec: [get_hints_for_agent] of the step class, which
    [models.py] defines; the step carries "an optional map of per-agent
    hints", and an agent without an entry has none. *)
Fixpoint lookup_hints (h : list (string * pydict)) (agent : string) : pydict :=
  match h with
  | [] => []
  | (a, d) :: h' => if String.eqb a agent then d else lookup_hints h' agent
  end.

Definition get_hints_for_agent (self : t) (agent_name : string) : pydict :=
  lookup_hints (hints self) agent_name.

(** Modelled from the spec: [get_tool_name] and [get_operation] of the step
    class, which [models.py] defines; an action that is not an agent task
    reads [<tool>.<operation>], split at its first dot. *)
Definition get_tool_name (self : t) : string :=
  match Py.split_once "." (action self) with
  | Some (tool, _) => tool
  | None => action self
  end.

Definition get_operation (self : t) : string :=
  match Py.split_once "." (action self) with
  | Some (_, op) => op
  | None => EmptyString
  end.
End WorkflowStep.

Module InputParam.
Record t := mk {
  name : string;
  required : bool;
  (** [None] is [VNone] *)
  default : value
}.
End InputParam.

Module Workflow.
Record t := mk {
  (** [metadata.id] *)
  id : string;
  (** [metadata.name] *)
  name : string;
  (** [metadata.error_handling] *)
  error_handling : ErrorHandling.t;
  steps : list WorkflowStep.t;
  inputs : list InputParam.t;
  (** what [get_required_tools()] returns *)
  required_tools : list string;
  (** [is_compatible_with] *)
  is_compatible_with : string -> bool;
  (** the [source_path] attribute, when the object has one *)
  source_path : option string
}.
End Workflow.

Module AgentCapabilities.
Record t := mk {
  name : string;
  version : string;
  provider : string;
  tool_calling : string;
  reasoning : string
}.
End AgentCapabilities.

Module ExecutionContext.
Record t := mk {
  run_id : string;
  workflow : Workflow.t;
  agent_name : string;
  agent_capabilities : AgentCapabilities.t;
  inputs : gmap string value;
  variables : gmap string value;
  current_step_index : Z;
  started_at : datetime
}.

(** [context.set_variable(name, value)] *)
Definition set_variable (self : t) (k : string) (v : value) : t :=
  mk (run_id self) (workflow self) (agent_name self) (agent_capabilities self)
     (inputs self) (<[k := v]> (variables self)) (current_step_index self)
     (started_at self).

(** [context.current_step_index = i] *)
Definition set_current_step_index (self : t) (i : Z) : t :=
  mk (run_id self) (workflow self) (agent_name self) (agent_capabilities self)
     (inputs self) (variables self) i (started_at self).
End ExecutionContext.

Module StepStatus.
Inductive t := COMPLETED | FAILED | SKIPPED.
End StepStatus.

Module StepResult.
Record t := mk {
  step_id : string;
  status : StepStatus.t;
  (** [None] is [VNone] *)
  output : value;
  error : option string;
  started_at : option datetime;
  completed_at : option datetime;
  retries : Z
}.

(** Modelled from the spec: the [success] property of the result class,
    which [models.py] defines; a step result succeeded when its status is
    [completed]. *)
Definition success (self : t) : bool :=
  match status self with StepStatus.COMPLETED => true | _ => false end.
End StepResult.

Module WorkflowStatus.
Inductive t := COMPLETED | FAILED.
End WorkflowStatus.

Module WorkflowResult.
Record t := mk {
  run_id : string;
  workflow_id : string;
  agent_name : string;
  status : WorkflowStatus.t;
  step_results : list StepResult.t;
  (** absent on the early returns *)
  final_output : option (gmap string value);
  error : option string;
  started_at : datetime;
  completed_at : datetime
}.
End WorkflowResult.

Module ExecutionStatus.
Inductive t := RUNNING | COMPLETED | FAILED.
End ExecutionStatus.

Module ExecutionRecord.
Record t := mk {
  run_id : string;
  workflow_id : string;
  workflow_path : string;
  status : ExecutionStatus.t;
  started_at : datetime;
  completed_at : option datetime;
  total_steps : Z;
  agent : string;
  inputs : option (gmap string value);
  outputs : option (gmap string value);
  error : option string
}.
End ExecutionRecord.

Module StepCheckpoint.
Record t := mk {
  run_id : string;
  step_index : Z;
  step_name : string;
  status : ExecutionStatus.t;
  started_at : datetime;
  completed_at : option datetime;
  (** [{"output": v}] as [Some v] *)
  outputs : option value;
  error : option string;
  retry_count : Z
}.
End StepCheckpoint.

(** ** The state store and the execution logger *)

Module StateStore.
(** Modelled from the spec: the state store of [aiworkflow.core.state]:
    execution records keyed by [run_id], step checkpoints keyed by
    [(run_id, step_index)]. *)
Record t := mk {
  executions : gmap string ExecutionRecord.t;
  checkpoints : gmap (string * Z) StepCheckpoint.t
}.

Definition empty : t := mk ∅ ∅.

(** Modelled from the spec: [create_execution] fails if the [run_id]
    already exists. *)
Definition create_execution (self : t) (r : ExecutionRecord.t) : exn + t :=
  match executions self !! ExecutionRecord.run_id r with
  | Some _ => inl "execution already exists"%string
  | None =>
      inr (mk (<[ExecutionRecord.run_id r := r]> (executions self))
              (checkpoints self))
  end.

(** Modelled from the spec: [get_execution] returns the record or nothing. *)
Definition get_execution (self : t) (run_id : string) : option ExecutionRecord.t :=
  executions self !! run_id.

(** Modelled from the spec: [update_execution] replaces the stored record
    of an existing run. *)
Definition update_execution (self : t) (r : ExecutionRecord.t) : t :=
  match executions self !! ExecutionRecord.run_id r with
  | Some _ =>
      mk (<[ExecutionRecord.run_id r := r]> (executions self)) (checkpoints self)
  | None => self
  end.

(** Modelled from the spec: [save_checkpoint] is an upsert keyed by
    [(run_id, step_index)]. *)
Definition save_checkpoint (self : t) (c : StepCheckpoint.t) : t :=
  mk (executions self)
     (<[(StepCheckpoint.run_id c, StepCheckpoint.step_index c) := c]>
        (checkpoints self)).

Definition completed_at_index (self : t) (run_id : string) (i : Z) : bool :=
  match checkpoints self !! (run_id, i) with
  | Some c =>
      match StepCheckpoint.status c with
      | ExecutionStatus.COMPLETED => true
      | _ => false
      end
  | None => false
  end.

Fixpoint first_incomplete (self : t) (run_id : string) (fuel : nat) (i : Z) : Z :=
  match fuel with
  | O => i
  | S f =>
      if completed_at_index self run_id i
      then first_incomplete self run_id f (i + 1)
      else i
  end.

(** Modelled from the spec: the resume point is the smallest step index
    for which no checkpoint with status [completed] exists, 0 when the run
    has no completed checkpoint. *)
Definition get_resume_point (self : t) (run_id : string) : Z :=
  first_incomplete self run_id (size (checkpoints self)) 0.
End StateStore.

Module LogEntry.
(** Modelled from the spec: the entries of an execution log, by event kind
    with the payload the engine passes. *)
Inductive t :=
| run_started (workflow_id workflow_name agent : string)
| step_started (step_name : string) (step_index : Z)
| step_completed (step_name : string) (step_index : Z) (duration : Q) (output : value)
| step_failed (step_name : string) (step_index : Z) (error : string) (duration : Q)
| step_retrying (step_name : string) (step_index : Z) (attempt max_attempts : Z) (delay : Q)
| run_completed
| run_failed (error : option string).
End LogEntry.

Module ExecutionLogger.
(** Modelled from the spec: the logger of [aiworkflow.core.logging]; one
    append-only sequence of entries per [run_id]. *)
Record t := mk { logs : gmap string (list LogEntry.t) }.

Definition empty : t := mk ∅.

(** [start_log]: opens the log of the run with its [run_started] entry. *)
Definition start_log (self : t) (run_id workflow_id workflow_name agent : string) : t :=
  mk (<[run_id := [LogEntry.run_started workflow_id workflow_name agent]]> (logs self)).

(** A method of the [ExecutionLog] handle of [run_id]: appends [e]. *)
Definition append (self : t) (run_id : string) (e : LogEntry.t) : t :=
  mk (<[run_id := default [] (logs self !! run_id) ++ [e]]> (logs self)).

(** [finish_log] *)
Definition finish_log (self : t) (run_id : string) (success : bool)
    (error : option string) : t :=
  append self run_id
    (if success then LogEntry.run_completed else LogEntry.run_failed error).
End ExecutionLogger.

(** ** Collaborators and the host *)

(** What awaiting an external call gives back: its result or the exception
    it raised, and whether another task called [engine.cancel()] while the
    engine was suspended on it. *)
Record Outcome := mkOutcome {
  result : exn + value;
  cancel_called : bool
}.

Module AgentAdapter.
Record t (W : Type) := mk {
  execute_step : WorkflowStep.t -> ExecutionContext.t -> W -> Outcome * W
}.
Arguments mk {W} _.
Arguments execute_step {W} _ _ _ _.
End AgentAdapter.

Module Tool.
Record t (W : Type) := mk {
  execute : string -> pydict -> W -> Outcome * W
}.
Arguments mk {W} _.
Arguments execute {W} _ _ _ _.
End Tool.

Module ToolRegistry.
Record t (W : Type) := mk {
  has_tool : string -> string -> bool;
  get_tool : string -> string -> option (Tool.t W)
}.
Arguments mk {W} _ _.
Arguments has_tool {W} _ _ _.
Arguments get_tool {W} _ _ _.
End ToolRegistry.

(** The Python run time and the event loop, over a world state [W]. *)
Class Host (W : Type) := {
  (** [datetime.now()] *)
  datetime_now : W -> datetime * W;
  (** [random.random()] *)
  random_random : W -> Q * W;
  (** [uuid.uuid4()], as an integer *)
  uuid4 : W -> Z * W;
  (** [await asyncio.sleep(delay)]; the flag tells whether another task
      called [engine.cancel()] meanwhile *)
  asyncio_sleep : Q -> W -> bool * W;
  (** [float(s)]; [None] when it raises [ValueError] *)
  float : string -> option pyfloat;
  (** [context.resolve_template(s)], a method of the context class of
      [models.py]; [inl] when it raises *)
  resolve_template : ExecutionContext.t -> string -> exn + string
}.

(** ** WorkflowEngine *)

Record WorkflowEngine (W : Type) := mkEngine {
  agent_adapter : option (AgentAdapter.t W);
  tool_registry : option (ToolRegistry.t W);
  (** [config["agent"]["primary"]], the one key the engine reads *)
  config_agent_primary : option string;
  state_store : option StateStore.t;
  execution_logger : option ExecutionLogger.t;
  retry_policy : RetryPolicy;
  circuit_breaker : option CircuitBreaker;
  _running : bool
}.
Arguments mkEngine {W} _ _ _ _ _ _ _ _.
Arguments agent_adapter {W} _.
Arguments tool_registry {W} _.
Arguments config_agent_primary {W} _.
Arguments state_store {W} _.
Arguments execution_logger {W} _.
Arguments retry_policy {W} _.
Arguments circuit_breaker {W} _.
Arguments _running {W} _.

(** [WorkflowEngine.__init__]: the policy defaults to [RetryPolicy()], and
    the engine starts out not running. *)
Definition WorkflowEngine_init {W : Type}
    (adapter : option (AgentAdapter.t W)) (registry : option (ToolRegistry.t W))
    (primary : option string) (store : option StateStore.t)
    (logger : option ExecutionLogger.t) (policy : option RetryPolicy)
    (breaker : option CircuitBreaker) : WorkflowEngine W :=
  mkEngine adapter registry primary store logger
    (default RetryPolicy_default policy) breaker false.

(** What the engine asked of its collaborators, in order; [step_index] is
    the index of the step on whose behalf it asked. *)
Inductive Event :=
| EvAgentCall (step_index : Z) (step : WorkflowStep.t) (context : ExecutionContext.t)
| EvToolCall (step_index : Z) (tool_name operation : string) (inputs : pydict)
| EvSleep (step_index : Z) (delay : Q).

(** The engine object, the world around it and the calls made so far. *)
Record Machine (W : Type) := mkMachine {
  engine : WorkflowEngine W;
  world : W;
  trace : list Event
}.
Arguments mkMachine {W} _ _ _.
Arguments engine {W} _.
Arguments world {W} _.
Arguments trace {W} _.

Section Engine.

Context {W : Type} `{Host W}.

(** Engine code runs against the machine: a state monad. *)
Definition M (A : Type) : Type := Machine W -> A * Machine W.

#[local] Instance M_ret : MRet M := fun A x m => (x, m).
#[local] Instance M_bind : MBind M :=
  fun A B f c m => let '(a, m') := c m in f a m'.

Definition get_engine : M (WorkflowEngine W) := fun m => (engine m, m).

Definition put_engine (e : WorkflowEngine W) : M unit :=
  fun m => (tt, mkMachine e (world m) (trace m)).

(** Run a host or collaborator call on the world. *)
Definition call_world {A : Type} (f : W -> A * W) : M A :=
  fun m => let '(a, w) := f (world m) in (a, mkMachine (engine m) w (trace m)).

Definition emit (e : Event) : M unit :=
  fun m => (tt, mkMachine (engine m) (world m) (trace m ++ [e])).

Definition now : M datetime := call_world datetime_now.

Definition set_state_store (s : StateStore.t) : M unit :=
  e ← get_engine;
  put_engine (mkEngine (agent_adapter e) (tool_registry e) (config_agent_primary e)
                (Some s) (execution_logger e) (retry_policy e)
                (circuit_breaker e) (_running e)).

Definition set_execution_logger (l : ExecutionLogger.t) : M unit :=
  e ← get_engine;
  put_engine (mkEngine (agent_adapter e) (tool_registry e) (config_agent_primary e)
                (state_store e) (Some l) (retry_policy e)
                (circuit_breaker e) (_running e)).

Definition set_circuit_breaker (b : CircuitBreaker) : M unit :=
  e ← get_engine;
  put_engine (mkEngine (agent_adapter e) (tool_registry e) (config_agent_primary e)
                (state_store e) (execution_logger e) (retry_policy e)
                (Some b) (_running e)).

(** [self._running = b] *)
Definition set_running (b : bool) : M unit :=
  e ← get_engine;
  put_engine (mkEngine (agent_adapter e) (tool_registry e) (config_agent_primary e)
                (state_store e) (execution_logger e) (retry_policy e)
                (circuit_breaker e) b).

(** [WorkflowEngine.cancel] *)
Definition cancel : M unit := set_running false.

(** Another task's [engine.cancel()], run while the engine was suspended. *)
Definition deliver_cancel (called : bool) : M unit :=
  if called then cancel else mret tt.

(** A method call on the [ExecutionLog] handle, when there is one. *)
Definition log_append (exec_log : option string) (e : LogEntry.t) : M unit :=
  match exec_log with
  | Some run_id =>
      eng ← get_engine;
      match execution_logger eng with
      | Some lg => set_execution_logger (ExecutionLogger.append lg run_id e)
      | None => mret tt
      end
  | None => mret tt
  end.

(** [circuit_breaker.can_execute()]; the clock is read only where the
    [state] property reads it. *)
Definition breaker_can_execute (cb : CircuitBreaker) : M bool :=
  match _state cb, _last_failure_time cb with
  | OPEN, Some _ =>
      t ← now;
      let '(ok, cb') := CB.can_execute cb (timestamp t) in
      set_circuit_breaker cb';; mret ok
  | _, _ =>
      let '(ok, cb') := CB.can_execute cb 0%Q in
      set_circuit_breaker cb';; mret ok
  end.

(** [retry_policy.get_delay(attempt)]; [inl] when it raises, which it
    does before anything else; [random] is drawn from only in the jitter
    branch. *)
Definition policy_get_delay (p : RetryPolicy) (attempt : Z) : M (exn + Q) :=
  match get_delay_raises p attempt with
  | Some e => mret (inl e)
  | None =>
      if Num.ltb 0 (jitter p) then
        u ← call_world random_random; mret (inr (get_delay p attempt u))
      else mret (inr (get_delay p attempt 0%Q))
  end.

(** [_generate_run_id] *)
Definition _generate_run_id (workflow_id : string) : M string :=
  t ← now;
  let timestamp := strftime_run t in
  u ← call_world uuid4;
  let short_uuid := Py.take 8 (Py.hex 32 u) in
  mret (workflow_id +:+ "-" +:+ timestamp +:+ "-" +:+ short_uuid).

(** [_create_context] *)
Definition _create_context (workflow : Workflow.t) (run_id : string)
    (inputs : gmap string value) : M ExecutionContext.t :=
  eng ← get_engine;
  let agent_name := default "opencode"%string (config_agent_primary eng) in
  let capabilities :=
    AgentCapabilities.mk agent_name "1.0.0" "unknown" "supported" "basic" in
  t ← now;
  mret (ExecutionContext.mk run_id workflow agent_name capabilities inputs
          ∅ 0 t).

(** The body of [_validate_execution], over what it reads:
    [self.tool_registry], [context.agent_name] and [context.inputs]. *)
Definition validation_errors (registry : option (ToolRegistry.t W))
    (workflow : Workflow.t) (agent_name : string) (inputs : gmap string value)
    : list string :=
  let tool_errors :=
    match registry with
    | Some reg =>
        omap (fun tool_name =>
                if ToolRegistry.has_tool reg tool_name agent_name
                then None
                else Some ("Required tool not available: " +:+ tool_name))
             (Workflow.required_tools workflow)
    | None => []
    end in
  let input_errors :=
    omap (fun param =>
            if InputParam.required param
               && bool_decide (inputs !! InputParam.name param = None)
            then match InputParam.default param with
                 | VNone =>
                     Some ("Required input not provided: "
                           +:+ InputParam.name param)
                 | _ => None
                 end
            else None)
         (Workflow.inputs workflow) in
  let agent_errors :=
    if Workflow.is_compatible_with workflow agent_name
    then []
    else ["Workflow not compatible with agent: " +:+ agent_name] in
  tool_errors ++ input_errors ++ agent_errors.

(** [_validate_execution] *)
Definition _validate_execution (eng : WorkflowEngine W) (workflow : Workflow.t)
    (context : ExecutionContext.t) : list string :=
  validation_errors (tool_registry eng) workflow
    (ExecutionContext.agent_name context) (ExecutionContext.inputs context).

(** One condition of [_evaluate_conditions]: [false] is the [return
    False] of the loop body, [true] lets the loop go on. *)
Definition condition_holds (context : ExecutionContext.t) (condition : string) : bool :=
  match resolve_template context condition with
  | inl _ => false
  | inr resolved =>
      if Py.contains "==" resolved then
        match Py.split_once "==" resolved with
        | Some (left_, right_) => String.eqb (Py.strip left_) (Py.strip right_)
        | None => true
        end
      else if Py.contains ">=" resolved then
        match Py.split_once ">=" resolved with
        | Some (left_, right_) =>
            match float (Py.strip left_) with
            | None => false
            | Some a =>
                match float (Py.strip right_) with
                | None => false
                | Some b => negb (Float.ltb a b)
                end
            end
        | None => true
        end
      else true
  end.

(** [_evaluate_conditions] *)
Fixpoint _evaluate_conditions (conditions : list string)
    (context : ExecutionContext.t) : bool :=
  match conditions with
  | [] => true
  | condition :: rest =>
      if condition_holds context condition
      then _evaluate_conditions rest context
      else false
  end.

(** An element of a list value in [_resolve_inputs]. *)
Definition resolve_element (context : ExecutionContext.t) (v : value) : exn + value :=
  match v with
  | VStr s =>
      match resolve_template context s with
      | inl e => inl e
      | inr r => inr (VStr r)
      end
  | _ => inr v
  end.

Fixpoint resolve_elements (context : ExecutionContext.t) (l : list value)
    : exn + list value :=
  match l with
  | [] => inr []
  | v :: l' =>
      match resolve_element context v with
      | inl e => inl e
      | inr r =>
          match resolve_elements context l' with
          | inl e => inl e
          | inr rs => inr (r :: rs)
          end
      end
  end.

(** The value stored under one key by [_resolve_inputs]; the [VDict] case
    is the recursive call. *)
Fixpoint resolve_value (context : ExecutionContext.t) (v : value) {struct v}
    : exn + value :=
  match v with
  | VStr s =>
      match resolve_template context s with
      | inl e => inl e
      | inr r => inr (VStr r)
      end
  | VDict d =>
      let go :=
        fix go (d : pydict) (resolved : pydict) {struct d} : exn + pydict :=
          match d with
          | [] => inr resolved
          | (key, v') :: d' =>
              match resolve_value context v' with
              | inl e => inl e
              | inr r => go d' (Py.dict_set resolved key r)
              end
          end in
      match go d [] with
      | inl e => inl e
      | inr r => inr (VDict r)
      end
  | VList l =>
      match resolve_elements context l with
      | inl e => inl e
      | inr rs => inr (VList rs)
      end
  | _ => inr v
  end.

Fixpoint resolve_items (context : ExecutionContext.t) (items resolved : pydict)
    : exn + pydict :=
  match items with
  | [] => inr resolved
  | (key, v) :: items' =>
      match resolve_value context v with
      | inl e => inl e
      | inr r => resolve_items context items' (Py.dict_set resolved key r)
      end
  end.

(** [_resolve_inputs]; [inl] when a template fails to resolve. *)
Definition _resolve_inputs (inputs : pydict) (context : ExecutionContext.t)
    : exn + pydict :=
  resolve_items context inputs [].

(** [_execute_agent_task] *)
Definition _execute_agent_task (step : WorkflowStep.t) (inputs : pydict)
    (context : ExecutionContext.t) : M (exn + value) :=
  eng ← get_engine;
  match agent_adapter eng with
  | None => mret (inl "No agent adapter configured"%string)
  | Some adapter =>
      let hints :=
        WorkflowStep.get_hints_for_agent step (ExecutionContext.agent_name context) in
      let task_inputs := Py.dict_merge inputs hints in
      emit (EvAgentCall (ExecutionContext.current_step_index context) step context);;
      o ← call_world (AgentAdapter.execute_step adapter step context);
      deliver_cancel (cancel_called o);;
      mret (result o)
  end.

(** [_execute_tool_call] *)
Definition _execute_tool_call (step : WorkflowStep.t) (inputs : pydict)
    (context : ExecutionContext.t) : M (exn + value) :=
  let tool_name := WorkflowStep.get_tool_name step in
  let operation := WorkflowStep.get_operation step in
  eng ← get_engine;
  match tool_registry eng with
  | None => mret (inl "No tool registry configured"%string)
  | Some registry =>
      match ToolRegistry.get_tool registry tool_name
              (ExecutionContext.agent_name context) with
      | None => mret (inl ("Tool not found: " +:+ tool_name))
      | Some tool =>
          emit (EvToolCall (ExecutionContext.current_step_index context)
                  tool_name operation inputs);;
          o ← call_world (Tool.execute tool operation inputs);
          deliver_cancel (cancel_called o);;
          mret (result o)
      end
  end.

(** The body of the [try] in [_execute_step_with_retry]: one attempt. *)
Definition attempt_step (step : WorkflowStep.t) (context : ExecutionContext.t)
    : M (exn + value) :=
  match _resolve_inputs (WorkflowStep.inputs step) context with
  | inl e => mret (inl e)
  | inr resolved_inputs =>
      if Py.startswith (WorkflowStep.action step) "agent."
      then _execute_agent_task step resolved_inputs context
      else _execute_tool_call step resolved_inputs context
  end.

(** [_execute_step_with_retry], lines 460-472: the wait before the next
    attempt; [Some e] when [get_delay] raises [e], in which case nothing
    is logged and nothing is slept. *)
Definition wait_before_retry (step : WorkflowStep.t)
    (context : ExecutionContext.t) (exec_log : option string)
    (max_retries attempt : Z) : M (option exn) :=
  eng ← get_engine;
  d ← policy_get_delay (retry_policy eng) (attempt + 1);
  match d with
  | inl e => mret (Some e)
  | inr delay =>
      log_append exec_log
        (LogEntry.step_retrying (WorkflowStep.name step)
           (ExecutionContext.current_step_index context)
           (attempt + 1) max_retries delay);;
      emit (EvSleep (ExecutionContext.current_step_index context) delay);;
      c ← call_world (asyncio_sleep delay);
      deliver_cancel c;;
      mret None
  end.

(** The [for attempt in range(max_retries + 1)] loop of
    [_execute_step_with_retry], with [n] iterations left; [inl] when the
    [except] handler raises, which ends the loop and the call. *)
Fixpoint retry_loop (step : WorkflowStep.t) (context : ExecutionContext.t)
    (exec_log : option string) (started_at : datetime) (max_retries : Z)
    (n : nat) (attempt : Z) (last_error : option string)
    : M (exn + StepResult.t) :=
  match n with
  | O =>
      t ← now;
      mret (inr (StepResult.mk (WorkflowStep.id step) StepStatus.FAILED VNone
                   last_error (Some started_at) (Some t) max_retries))
  | S n' =>
      r ← attempt_step step context;
      match r with
      | inr v =>
          t ← now;
          mret (inr (StepResult.mk (WorkflowStep.id step) StepStatus.COMPLETED
                       v None (Some started_at) (Some t) attempt))
      | inl e =>
          raised ← (if attempt <? max_retries
                    then wait_before_retry step context exec_log max_retries
                           attempt
                    else mret None);
          match raised with
          | Some e' => mret (inl e')
          | None =>
              retry_loop step context exec_log started_at max_retries n'
                (attempt + 1) (Some e)
          end
      end
  end.

(** [_execute_step_with_retry]; [inl] when it raises. *)
Definition _execute_step_with_retry (step : WorkflowStep.t)
    (context : ExecutionContext.t) (exec_log : option string)
    : M (exn + StepResult.t) :=
  started_at ← now;
  eng ← get_engine;
  let max_retries :=
    Z.min (WorkflowStep.max_retries step) (max_retries (retry_policy eng)) in
  retry_loop step context exec_log started_at max_retries
    (Z.to_nat (max_retries + 1)) 0 None.

(** [_finalize_execution] *)
Definition _finalize_execution (run_id : string) (success : bool)
    (error : option string) (exec_log : option string)
    (outputs : option (gmap string value)) : M unit :=
  eng ← get_engine;
  match state_store eng with
  | Some store =>
      match StateStore.get_execution store run_id with
      | Some r =>
          t ← now;
          set_state_store
            (StateStore.update_execution store
               (ExecutionRecord.mk (ExecutionRecord.run_id r)
                  (ExecutionRecord.workflow_id r)
                  (ExecutionRecord.workflow_path r)
                  (if success then ExecutionStatus.COMPLETED
                   else ExecutionStatus.FAILED)
                  (ExecutionRecord.started_at r) (Some t)
                  (ExecutionRecord.total_steps r) (ExecutionRecord.agent r)
                  (ExecutionRecord.inputs r) outputs error))
      | None => mret tt
      end
  | None => mret tt
  end;;
  eng ← get_engine;
  match execution_logger eng, exec_log with
  | Some lg, Some _ =>
      set_execution_logger (ExecutionLogger.finish_log lg run_id success error)
  | _, _ => mret tt
  end.

(** [_execute_step], deprecated: [_execute_step_with_retry] without a log. *)
Definition _execute_step (step : WorkflowStep.t) (context : ExecutionContext.t)
    : M (exn + StepResult.t) :=
  _execute_step_with_retry step context None.

(** [_rollback]: a placeholder that does nothing. *)
Definition _rollback (step_results : list StepResult.t)
    (context : ExecutionContext.t) : M unit := mret tt.

(** How the step loop of [execute] ends. *)
Record LoopExit := mkLoopExit {
  exit_context : ExecutionContext.t;
  exit_step_results : list StepResult.t;
  exit_final_status : WorkflowStatus.t;
  exit_error_message : option string
}.

(** [str(x)] of an optional string inside an f-string. *)
Definition str_opt (x : option string) : string := default "None"%string x.

(** How one iteration of the step loop ends: with [break] and the outcome
    of the run, by going on to the next step, or with an exception, which
    leaves the context and the results as they were when it was raised. *)
Inductive LoopControl :=
| Break (x : LoopExit)
| Next (context : ExecutionContext.t) (step_results : list StepResult.t)
| Raise (e : exn) (context : ExecutionContext.t)
    (step_results : list StepResult.t).

(** [execute], lines 345-360: the checkpoint of a step is saved. *)
Definition save_step_checkpoint (run_id : string) (i : Z) (step : WorkflowStep.t)
    (step_result : StepResult.t) : M unit :=
  eng ← get_engine;
  match state_store eng with
  | Some store =>
      started ← match StepResult.started_at step_result with
                | Some t => mret t
                | None => now
                end;
      set_state_store
        (StateStore.save_checkpoint store
           (StepCheckpoint.mk run_id i (WorkflowStep.name step)
              (if StepResult.success step_result
               then ExecutionStatus.COMPLETED
               else ExecutionStatus.FAILED)
              started (StepResult.completed_at step_result)
              (if Py.truthy (StepResult.output step_result)
               then Some (StepResult.output step_result) else None)
              (StepResult.error step_result)
              (StepResult.retries step_result)))
  | None => mret tt
  end.

(** [execute], lines 362-364: the output variable of a step is stored. *)
Definition store_output (step : WorkflowStep.t) (step_result : StepResult.t)
    (context : ExecutionContext.t) : ExecutionContext.t :=
  match WorkflowStep.output_variable step, StepResult.output step_result with
  | None, _ => context
  | Some _, VNone => context
  | Some name, v =>
      if String.eqb name "" then context
      else ExecutionContext.set_variable context name v
  end.

(** [execute], lines 366-374: the completion of a step is logged. *)
Definition log_step_completion (exec_log : option string) (i : Z)
    (step : WorkflowStep.t) (step_result : StepResult.t) : M unit :=
  match exec_log, StepResult.started_at step_result,
        StepResult.completed_at step_result with
  | Some _, Some t0, Some t1 =>
      let duration := total_seconds t1 t0 in
      if StepResult.success step_result then
        log_append exec_log
          (LogEntry.step_completed (WorkflowStep.name step) i duration
             (StepResult.output step_result))
      else
        log_append exec_log
          (LogEntry.step_failed (WorkflowStep.name step) i
             (default "Unknown error"%string
                (match StepResult.error step_result with
                 | Some "" => None
                 | e => e
                 end))
             duration)
  | _, _, _ => mret tt
  end.

(** The body of the [for i, step in enumerate(workflow.steps)] loop of
    [execute], lines 323-387, for a step at or after the start point. *)
Definition loop_body (workflow : Workflow.t) (run_id : string)
    (exec_log : option string) (i : Z) (step : WorkflowStep.t)
    (context : ExecutionContext.t) (step_results : list StepResult.t)
    : M LoopControl :=
  let context := ExecutionContext.set_current_step_index context i in
  log_append exec_log (LogEntry.step_started (WorkflowStep.name step) i);;
  if negb (_evaluate_conditions (WorkflowStep.conditions step) context) then
    t1 ← now;
    t2 ← now;
    mret (Next context
            (step_results ++
               [StepResult.mk (WorkflowStep.id step) StepStatus.SKIPPED VNone
                  None (Some t1) (Some t2) 0]))
  else
    r ← _execute_step_with_retry step context exec_log;
    match r with
    | inl e => mret (Raise e context step_results)
    | inr step_result =>
        let step_results := step_results ++ [step_result] in
        save_step_checkpoint run_id i step step_result;;
        let context := store_output step step_result context in
        log_step_completion exec_log i step step_result;;
        if negb (StepResult.success step_result) then
          if String.eqb (ErrorHandling.value (Workflow.error_handling workflow))
               "stop"
          then
            mret (Break
                    (mkLoopExit context step_results WorkflowStatus.FAILED
                       (Some ("Step '" +:+ WorkflowStep.id step +:+ "' failed: "
                              +:+ str_opt (StepResult.error step_result)))))
          else if String.eqb
                    (ErrorHandling.value (Workflow.error_handling workflow))
                    "rollback"
          then
            _rollback step_results context;;
            mret (Break
                    (mkLoopExit context step_results WorkflowStatus.FAILED
                       (Some ("Step '" +:+ WorkflowStep.id step
                              +:+ "' failed, rollback triggered"))))
          else mret (Next context step_results)
        else mret (Next context step_results)
    end.

(** The [try] statement of [execute], lines 317-391: the
    [for i, step in enumerate(workflow.steps)] loop, from index [i] with
    [steps] left, and the [except Exception] arm, which turns an exception
    of the loop body into a failed run with the results so far. *)
Fixpoint step_loop (workflow : Workflow.t) (run_id : string) (start_step : Z)
    (exec_log : option string) (i : Z) (steps : list WorkflowStep.t)
    (context : ExecutionContext.t) (step_results : list StepResult.t)
    : M LoopExit :=
  match steps with
  | [] => mret (mkLoopExit context step_results WorkflowStatus.COMPLETED None)
  | step :: rest =>
      if i <? start_step then
        step_loop workflow run_id start_step exec_log (i + 1) rest context
          step_results
      else
        c ← loop_body workflow run_id exec_log i step context step_results;
        match c with
        | Break x => mret x
        | Next context step_results =>
            step_loop workflow run_id start_step exec_log (i + 1) rest context
              step_results
        | Raise e context step_results =>
            mret (mkLoopExit context step_results WorkflowStatus.FAILED
                    (Some ("Unexpected error: " +:+ e)))
        end
  end.

(** A string used as a condition: [None] and [""] are false. *)
Definition nonempty (s : option string) : option string :=
  match s with
  | Some "" => None
  | _ => s
  end.

(** The error of the refusal when the circuit is open. *)
Definition circuit_open_error : string :=
  "Circuit breaker is open - too many recent failures".

(** [execute], lines 246-247: the circuit breaker's gate. *)
Definition gate : M bool :=
  eng ← get_engine;
  match circuit_breaker eng with
  | Some cb => breaker_can_execute cb
  | None => mret true
  end.

(** [execute], lines 248-256: the refusal returned when the gate is shut. *)
Definition refuse (workflow : Workflow.t) (agent_name resume_from : option string)
    : M WorkflowResult.t :=
  run_id ← match nonempty resume_from with
           | Some r => mret r
           | None => _generate_run_id (Workflow.id workflow)
           end;
  t0 ← now;
  t1 ← now;
  mret (WorkflowResult.mk run_id (Workflow.id workflow)
          (default "unknown"%string (nonempty agent_name))
          WorkflowStatus.FAILED [] None (Some circuit_open_error) t0 t1).

(** [execute], lines 258-264: the run id and the start point. *)
Definition determine_run (workflow : Workflow.t) (resume_from : option string)
    : M (string * Z) :=
  eng ← get_engine;
  match nonempty resume_from, state_store eng with
  | Some r, Some store => mret (r, StateStore.get_resume_point store r)
  | _, _ =>
      run_id ← _generate_run_id (Workflow.id workflow);
      mret (run_id, 0)
  end.

(** [execute], lines 271-280: the execution log is started. *)
Definition start_logging (workflow : Workflow.t) (run_id : string)
    (context : ExecutionContext.t) : M (option string) :=
  eng ← get_engine;
  match execution_logger eng with
  | Some lg =>
      set_execution_logger
        (ExecutionLogger.start_log lg run_id (Workflow.id workflow)
           (Workflow.name workflow) (ExecutionContext.agent_name context));;
      mret (Some run_id)
  | None => mret None
  end.

(** [execute], lines 282-294: the execution record is created, unless the
    run resumes; [Some e] when [create_execution] raises [e]. *)
Definition create_record (workflow : Workflow.t) (run_id : string)
    (started_at : datetime) (context : ExecutionContext.t)
    (inputs : option (gmap string value)) (resume_from : option string)
    : M (option exn) :=
  eng ← get_engine;
  match state_store eng, nonempty resume_from with
  | Some store, None =>
      match StateStore.create_execution store
              (ExecutionRecord.mk run_id (Workflow.id workflow)
                 (default ""%string (Workflow.source_path workflow))
                 ExecutionStatus.RUNNING started_at None
                 (Z.of_nat (length (Workflow.steps workflow)))
                 (ExecutionContext.agent_name context) inputs None None) with
      | inl e => mret (Some e)
      | inr store' => set_state_store store';; mret None
      end
  | _, _ => mret None
  end.

(** [execute], lines 299-309: the run fails validation. *)
Definition fail_validation (workflow : Workflow.t) (run_id : string)
    (started_at : datetime) (context : ExecutionContext.t)
    (exec_log : option string) (validation_errors : list string)
    : M WorkflowResult.t :=
  let error_msg := "Validation failed: " +:+ Py.join "; " validation_errors in
  _finalize_execution run_id false (Some error_msg) exec_log None;;
  t ← now;
  mret (WorkflowResult.mk run_id (Workflow.id workflow)
          (ExecutionContext.agent_name context) WorkflowStatus.FAILED [] None
          (Some error_msg) started_at t).

(** [execute], lines 311-423: the steps are run, the breaker is told, the
    run is finalized.  The [except Exception] arm is the [Raise] case of
    [step_loop]; the [finally] arm is the [set_running false]. *)
Definition run_steps (workflow : Workflow.t) (run_id : string) (start_step : Z)
    (started_at : datetime) (context : ExecutionContext.t)
    (exec_log : option string) : M WorkflowResult.t :=
  set_running true;;
  x ← step_loop workflow run_id start_step exec_log 0
         (Workflow.steps workflow) context [];
  set_running false;;
  let final_status := exit_final_status x in
  let error_message := exit_error_message x in
  let context := exit_context x in
  eng ← get_engine;
  match circuit_breaker eng with
  | Some cb =>
      match final_status with
      | WorkflowStatus.COMPLETED => set_circuit_breaker (CB.record_success cb)
      | WorkflowStatus.FAILED =>
          t ← now;
          set_circuit_breaker (CB.record_failure cb (timestamp t))
      end
  | None => mret tt
  end;;
  let success :=
    match final_status with
    | WorkflowStatus.COMPLETED => true
    | WorkflowStatus.FAILED => false
    end in
  _finalize_execution run_id success error_message exec_log
    (if success then Some (ExecutionContext.variables context) else None);;
  t ← now;
  mret (WorkflowResult.mk run_id (Workflow.id workflow)
          (ExecutionContext.agent_name context) final_status
          (exit_step_results x) (Some (ExecutionContext.variables context))
          error_message started_at t).

(** [WorkflowEngine.execute]; [inl] when it raises. *)
Definition execute (workflow : Workflow.t) (inputs : option (gmap string value))
    (agent_name : option string) (resume_from : option string)
    : M (exn + WorkflowResult.t) :=
  allowed ← gate;
  if negb allowed then
    r ← refuse workflow agent_name resume_from; mret (inr r)
  else
    '(run_id, start_step) ← determine_run workflow resume_from;
    started_at ← now;
    context ← _create_context workflow run_id (default ∅ inputs);
    exec_log ← start_logging workflow run_id context;
    created ← create_record workflow run_id started_at context inputs resume_from;
    match created with
    | Some e => mret (inl e)
    | None =>
        eng ← get_engine;
        let validation_errors := _validate_execution eng workflow context in
        match validation_errors with
        | _ :: _ =>
            r ← fail_validation workflow run_id started_at context exec_log
                  validation_errors;
            mret (inr r)
        | [] =>
            r ← run_steps workflow run_id start_step started_at context exec_log;
            mret (inr r)
        end
    end.

End Engine.

(** ** A concrete host and concrete collaborators, for running the engine *)

Module Demo.

(** A run of digits in which single underscores stand between digits:
    its value, its number of digits and the text after it. *)
Fixpoint digit_run (s : string) (acc : Z) (count : nat) : Z * nat * string :=
  match s with
  | String c s' =>
      if Py.is_digit c then
        digit_run s' (acc * 10 + (Z.of_nat (nat_of_ascii c) - 48)) (S count)
      else if Ascii.eqb c "_" && (0 <? count)%nat then
        match s' with
        | String d _ =>
            if Py.is_digit d then digit_run s' acc count else (acc, count, s)
        | EmptyString => (acc, count, s)
        end
      else (acc, count, s)
  | EmptyString => (acc, count, s)
  end.

(** An optional exponent, [e] or [E], an optional sign and digits: its
    value and the text after it. *)
Definition exponent (s : string) : option (Z * string) :=
  match s with
  | String c s' =>
      if Ascii.eqb c "e" || Ascii.eqb c "E" then
        let '(negative, s'') :=
          match s' with
          | String "-" t => (true, t)
          | String "+" t => (false, t)
          | _ => (false, s')
          end in
        let '(v, n, rest) := digit_run s'' 0 0 in
        if (0 <? n)%nat then Some (if negative then - v else v, rest) else None
      else Some (0, s)
  | EmptyString => Some (0, s)
  end.

(** Digits with an optional fraction and an optional exponent; at least
    one digit before the exponent. *)
Definition unsigned_number (s : string) : option Q :=
  let '(i, ni, rest) := digit_run s 0 0 in
  let '(f, nf, rest) :=
    match rest with
    | String "." rest' => digit_run rest' 0 0
    | _ => (0, 0%nat, rest)
    end in
  if (0 <? ni + nf)%nat then
    match exponent rest with
    | Some (e, EmptyString) =>
        Some ((inject_Z i + inject_Z f / inject_Z (10 ^ Z.of_nat nf))
              * inject_Z 10 ^ e)%Q
    | _ => None
    end
  else None.

(** White space that [float()] skips around a number: for code points
    below 256, that of [strip()] without the separators 28-31. *)
Definition is_float_space (c : ascii) : bool :=
  let n := nat_of_ascii c in
  Py.is_space c && negb ((28 <=? n)%nat && (n <=? 31)%nat).

Fixpoint skip_left (s : string) : string :=
  match s with
  | String c s' => if is_float_space c then skip_left s' else s
  | EmptyString => EmptyString
  end.

Fixpoint skip_right (s : string) : string :=
  match s with
  | EmptyString => EmptyString
  | String c s' =>
      match skip_right s' with
      | EmptyString => if is_float_space c then EmptyString else String c EmptyString
      | r => String c r
      end
  end.

(** [float(s)] for a string of code points below 256: white space around
    an optional sign and then [inf], [infinity] or [nan] in any case, or a
    decimal number, which is an infinity when it is out of range.  Every
    other string raises [ValueError]. *)
Definition float_of_string (s : string) : option pyfloat :=
  let s := skip_right (skip_left s) in
  let '(negative, body) :=
    match s with
    | String "-" t => (true, t)
    | String "+" t => (false, t)
    | _ => (false, s)
    end in
  let word := Py.lower body in
  if String.eqb word "inf" || String.eqb word "infinity" then
    Some (if negative then NegInf else PosInf)
  else if String.eqb word "nan" then Some NaN
  else
    match unsigned_number body with
    | Some q =>
        if Float.overflows q then Some (if negative then NegInf else PosInf)
        else Some (Finite (if negative then - q else q)%Q)
    | None => None
    end.

Definition clock : datetime := mkDatetime 2024 3 9 14 5 7 1710000000.

(** A world that only counts the collaborator calls made so far.  The
    clock stands still, [random()] draws 0, nobody cancels during a sleep,
    and templates without placeholders resolve to themselves. *)
#[global] Instance host : Host nat := {|
  datetime_now w := (clock, w);
  random_random w := (0%Q, w);
  uuid4 w := (0x1234abcd5678ef00112233445566778, w);
  asyncio_sleep _ w := (false, w);
  float := float_of_string;
  resolve_template _ s := inr s
|}.

(** A tool that returns [v]. *)
Definition constant_tool (v : value) : Tool.t nat :=
  Tool.mk (fun _ _ w => (mkOutcome (inr v) false, S w)).

(** A tool that returns [v] while another task calls [engine.cancel()]. *)
Definition cancelling_tool (v : value) : Tool.t nat :=
  Tool.mk (fun _ _ w => (mkOutcome (inr v) true, S w)).

(** A tool that fails on its first [k] calls and returns [v] afterwards. *)
Definition flaky_tool (k : nat) (v : value) : Tool.t nat :=
  Tool.mk (fun _ _ w =>
             if (w <? k)%nat
             then (mkOutcome (inl "boom"%string) false, S w)
             else (mkOutcome (inr v) false, S w)).

(** A registry with the tools of [tools], for every agent. *)
Fixpoint find_tool (tools : list (string * Tool.t nat)) (name : string)
    : option (Tool.t nat) :=
  match tools with
  | [] => None
  | (n, t) :: tools' => if String.eqb n name then Some t else find_tool tools' name
  end.

Definition registry (tools : list (string * Tool.t nat)) : ToolRegistry.t nat :=
  ToolRegistry.mk
    (fun name _ => match find_tool tools name with Some _ => true | None => false end)
    (fun name _ => find_tool tools name).

(** An adapter that returns [v]. *)
Definition constant_adapter (v : value) : AgentAdapter.t nat :=
  AgentAdapter.mk (fun _ _ w => (mkOutcome (inr v) false, S w)).

Definition step (id action : string) (inputs : pydict)
    (output_variable : option string) (conditions : list string)
    (max_retries : Z) : WorkflowStep.t :=
  WorkflowStep.mk id id action inputs output_variable conditions max_retries [].

Definition workflow (steps : list WorkflowStep.t) : Workflow.t :=
  Workflow.mk "wf" "demo" ErrorHandling.STOP steps [] [] (fun _ => true) None.

(** An engine with a tool registry, a state store and a logger. *)
Definition engine_with (tools : list (string * Tool.t nat))
    (policy : RetryPolicy) (breaker : option CircuitBreaker) : WorkflowEngine nat :=
  mkEngine None (Some (registry tools)) None (Some StateStore.empty)
    (Some ExecutionLogger.empty) policy breaker false.

Definition boot (e : WorkflowEngine nat) : Machine nat := mkMachine e O [].

End Demo.

(** ** Vocabulary of the properties *)

(** What holds of a breaker that was built by the constructor and then only
    used through its methods. *)
Definition breaker_inv (cb : CircuitBreaker) : Prop :=
  0 <= _failure_count cb
  /\ (_state cb = CLOSED ->
      _failure_count cb = 0 \/ _failure_count cb < failure_threshold cb).

(** A run id of the form [<workflow_id>-<YYYYMMDD>-<HHMMSS>-<8 hex chars>]. *)
Definition run_id_form (workflow_id s : string) : Prop :=
  exists date time short_uuid,
    s = workflow_id +:+ "-" +:+ date +:+ "-" +:+ time +:+ "-" +:+ short_uuid
    /\ String.length date = 8%nat
    /\ Py.all_chars Py.is_digit date = true
    /\ String.length time = 6%nat
    /\ Py.all_chars Py.is_digit time = true
    /\ String.length short_uuid = 8%nat
    /\ Py.all_chars Py.is_hex_digit short_uuid = true.


(** The policy [p] computes the delay of each of the first [n] waits of a
    step: [get_delay(k)] does not raise for [k = 1 .. n]. *)
Definition delays_defined (p : RetryPolicy) (n : Z) : Prop :=
  forall k, 1 <= k <= n -> get_delay_raises p k = None.

Section Observations.

Context {W : Type} `{Host W}.

#[local] Existing Instance M_ret.
#[local] Existing Instance M_bind.

(** Running [c] leaves the observation [f] of the machine as it was. *)
Definition preserves {A X : Type} (c : M (W := W) A) (f : Machine W -> X) : Prop :=
  forall m, f (snd (c m)) = f m.

(** The observations used below. *)
Definition the_breaker (m : Machine W) := circuit_breaker (engine m).
Definition the_store (m : Machine W) := state_store (engine m).
Definition the_logger (m : Machine W) := execution_logger (engine m).
Definition the_running (m : Machine W) := _running (engine m).
(** What no engine code writes: collaborators, configuration, policy. *)
Definition the_setup (m : Machine W) :=
  (agent_adapter (engine m), tool_registry (engine m),
   config_agent_primary (engine m), retry_policy (engine m)).

(** The index of the step on whose behalf an event was emitted. *)
Definition event_index (e : Event) : Z :=
  match e with
  | EvAgentCall i _ _ => i
  | EvToolCall i _ _ _ => i
  | EvSleep i _ => i
  end.

(** A call to the agent adapter or to a tool. *)
Definition is_dispatch (e : Event) : bool :=
  match e with
  | EvSleep _ _ => false
  | _ => true
  end.

Definition sleep_of (e : Event) : option Q :=
  match e with
  | EvSleep _ d => Some d
  | _ => None
  end.

(** The delays slept, in order. *)
Definition sleeps (evs : list Event) : list Q := omap sleep_of evs.

(** The number of calls to the agent adapter and to tools. *)
Definition dispatches (evs : list Event) : nat :=
  length (List.filter is_dispatch evs).

Definition retrying_delay (e : LogEntry.t) : option Q :=
  match e with
  | LogEntry.step_retrying _ _ _ _ d => Some d
  | _ => None
  end.

(** The delays of the [step_retrying] entries of the log of [run_id]. *)
Definition retrying_delays (m : Machine W) (run_id : string) : list Q :=
  match the_logger m with
  | Some lg => omap retrying_delay (default [] (ExecutionLogger.logs lg !! run_id))
  | None => []
  end.

(** Running [c] adds to the trace only events that satisfy [P]. *)
Definition emits {A : Type} (c : M (W := W) A) (P : Event -> Prop) : Prop :=
  forall m, exists evs, trace (snd (c m)) = trace m ++ evs /\ Forall P evs.

(** The run id that [execute] settles on is not yet the key of a record
    it is about to create. *)
Definition fresh_run (wf : Workflow.t) (resume : option string) (m : Machine W)
    : Prop :=
  match the_store m, nonempty resume with
  | Some store, None =>
      StateStore.get_execution store (fst (fst (determine_run wf resume m))) = None
  | _, _ => True
  end.


(** The machine a crash leaves behind, and the id of the crashed run:
    [execute] as far as the end of the step at index [k], without what
    follows the loop.  Neither the breaker nor validation stops the run. *)
Definition interrupted (workflow : Workflow.t)
    (inputs : option (gmap string value)) (k : nat) : M (W := W) string :=
  gate;;
  '(run_id, start_step) ← determine_run workflow None;
  started_at ← now;
  context ← _create_context workflow run_id (default ∅ inputs);
  exec_log ← start_logging workflow run_id context;
  create_record workflow run_id started_at context inputs None;;
  set_running true;;
  step_loop workflow run_id start_step exec_log 0
    (take (S k) (Workflow.steps workflow)) context [];;
  mret run_id.

(** An attempt at [step] gets as far as its collaborator: the inputs
    resolve, and the agent adapter, or the tool of the step, is there. *)
Definition reaches_collaborator (step : WorkflowStep.t)
    (context : ExecutionContext.t) (m : Machine W) : Prop :=
  (exists resolved,
     _resolve_inputs (WorkflowStep.inputs step) context = inr resolved)
  /\ if Py.startswith (WorkflowStep.action step) "agent."
     then is_Some (agent_adapter (engine m))
     else exists registry,
            tool_registry (engine m) = Some registry
            /\ is_Some (ToolRegistry.get_tool registry
                          (WorkflowStep.get_tool_name step)
                          (ExecutionContext.agent_name context)).

(** What running [c] adds to the trace: no sleep and at most one
    dispatch, exactly one when [reached] holds of the machine; the setup
    stays. *)
Definition dispatches_once {A : Type} (reached : Machine W -> Prop)
    (c : M (W := W) A) : Prop :=
  forall m, exists evs,
    trace (snd (c m)) = trace m ++ evs
    /\ sleeps evs = []
    /\ (dispatches evs <= 1)%nat
    /\ (reached m -> dispatches evs = 1%nat)
    /\ the_setup (snd (c m)) = the_setup m.


(** A name bound in [c] was bound in [c0] or is the output variable of
    [step]. *)
Definition bound_by (step : WorkflowStep.t) (c0 c : ExecutionContext.t) : Prop :=
  forall name,
    is_Some (ExecutionContext.variables c !! name) ->
    is_Some (ExecutionContext.variables c0 !! name)
    \/ WorkflowStep.output_variable step = Some name.

(** The result appended for a skipped step. *)
Definition skipped (step : WorkflowStep.t) (t1 t2 : datetime) : StepResult.t :=
  StepResult.mk (WorkflowStep.id step) StepStatus.SKIPPED VNone None
    (Some t1) (Some t2) 0.

End Observations.

(** ** Scenarios *)

Module Scenario.

(** A policy without jitter: base 1.0, exponential base 2.0. *)
Definition steady_policy : RetryPolicy := mkRetryPolicy 3 1 60 2 0.

(** A breaker with threshold 2 after two failures, five and ten seconds
    before [Demo.clock]: Open. *)
Definition tripped_breaker : CircuitBreaker :=
  CB.run (CB.init 2 30 3)
    [CB.RecordFailure 1709999990; CB.RecordFailure 1709999995].

(** The same two failures, a day before [Demo.clock]: Open, and due for
    the move to HalfOpen. *)
Definition recovering_breaker : CircuitBreaker :=
  CB.run (CB.init 2 30 3)
    [CB.RecordFailure 1709913600; CB.RecordFailure 1709913605].

Definition tripped : Machine nat :=
  Demo.boot (Demo.engine_with [] steady_policy (Some tripped_breaker)).

Definition recovering : Machine nat :=
  Demo.boot (Demo.engine_with [] steady_policy (Some recovering_breaker)).

(** A workflow with no step and one required input, [x], without default. *)
Definition needs_x : Workflow.t :=
  Workflow.mk "wf" "demo" ErrorHandling.STOP []
    [InputParam.mk "x" true VNone] [] (fun _ => true) None.

(** An engine with one tool, [t], that returns ["x"]; no breaker. *)
Definition plain : Machine nat :=
  Demo.boot (Demo.engine_with [("t"%string, Demo.constant_tool (VStr "x"))]
               steady_policy None).

(** One step whose only condition has neither [==] nor [>=]. *)
Definition guarded_by_word : Workflow.t :=
  Demo.workflow [Demo.step "s0" "t.a" [] (Some "a"%string) ["ready"%string] 3].

(** A step whose condition compares two different texts. *)
Definition never_step : WorkflowStep.t :=
  Demo.step "s0" "t.a" [] (Some "a"%string) ["1 == 2"%string] 3.

Definition blank_context : ExecutionContext.t :=
  ExecutionContext.mk "r" (Demo.workflow [never_step]) "opencode"
    (AgentCapabilities.mk "opencode" "1.0.0" "unknown" "supported" "basic")
    ∅ ∅ 0 Demo.clock.

(** One step, [t.a], with [max_retries = 3]. *)
Definition one_step : Workflow.t :=
  Demo.workflow [Demo.step "s0" "t.a" [] (Some "a"%string) [] 3].

(** An engine whose tool [t] fails twice and then returns ["x"]; its
    policy has jitter 0, base 1.0 and exponential base 2.0. *)
Definition flaky : Machine nat :=
  Demo.boot (Demo.engine_with [("t"%string, Demo.flaky_tool 2 (VStr "x"))]
               steady_policy None).


(** Two tools: [t] returns ["x"], [u] returns ["y"]. *)
Definition xy : Machine nat :=
  Demo.boot (Demo.engine_with
               [("t"%string, Demo.constant_tool (VStr "x"));
                ("u"%string, Demo.constant_tool (VStr "y"))]
               steady_policy None).

(** Step 0 binds [a] to the output of [t.a], step 1 binds [b] to the
    output of [u.b]. *)
Definition two_steps : Workflow.t :=
  Demo.workflow [Demo.step "s0" "t.a" [] (Some "a"%string) [] 3;
                 Demo.step "s1" "u.b" [] (Some "b"%string) [] 3].

(** The run of [two_steps] that crashes after step 0. *)
Definition crashed_id : string := fst (interrupted two_steps None 0 xy).
Definition crashed : Machine nat := snd (interrupted two_steps None 0 xy).

(** A tool [t] during whose call another task calls [engine.cancel()]. *)
Definition cancelled_during_t : Machine nat :=
  Demo.boot (Demo.engine_with
               [("t"%string, Demo.cancelling_tool (VStr "x"));
                ("u"%string, Demo.constant_tool (VStr "y"))]
               steady_policy None).

(** An agent step with an input and a hint for the same key. *)
Definition hinted_step : WorkflowStep.t :=
  WorkflowStep.mk "s0" "s0" "agent.summarise" [("tone"%string, VStr "formal")]
    (Some "summary"%string) [] 3
    [("opencode"%string, [("tone"%string, VStr "casual")])].

Definition hinted : Workflow.t := Demo.workflow [hinted_step].

(** An engine with an agent adapter that returns ["done"]. *)
Definition with_agent : Machine nat :=
  Demo.boot (mkEngine (Some (Demo.constant_adapter (VStr "done"))) None None
               (Some StateStore.empty) (Some ExecutionLogger.empty)
               steady_policy None false).

End Scenario.

(** ** Vocabulary of the further properties *)

(** [record_failure] at each of the times [ts], in order. *)
Definition failures (ts : list Q) : list CB.call := map CB.RecordFailure ts.

(** [n] calls of [record_success]. *)
Definition successes (n : nat) : list CB.call := repeat CB.RecordSuccess n.

(** A call that records the outcome of an execution. *)
Definition is_record (c : CB.call) : bool :=
  match c with
  | CB.RecordFailure _ | CB.RecordSuccess => true
  | _ => false
  end.

(** A breaker that is not Closed knows when it last failed. *)
Definition timed (cb : CircuitBreaker) : Prop :=
  _state cb = CLOSED \/ is_Some (_last_failure_time cb).

Section FurtherObservations.

Context {W : Type} `{Host W}.

#[local] Existing Instance M_ret.
#[local] Existing Instance M_bind.

(** The value under each key resolves. *)
Definition resolves (context : ExecutionContext.t) (kv : string * value) : Prop :=
  exists r, resolve_value context kv.2 = inr r.

(** The resolved item of an input item: the same key, the resolved value. *)
Definition resolved_item (context : ExecutionContext.t)
    (kv kv' : string * value) : Prop :=
  kv'.1 = kv.1 /\ resolve_value context kv.2 = inr kv'.2.

(** An element of a list value after resolution: a string is resolved,
    everything else is kept. *)
Definition resolved_element (context : ExecutionContext.t) (v v' : value) : Prop :=
  match v with
  | VStr s => exists r, resolve_template context s = inr r /\ v' = VStr r
  | _ => v' = v
  end.

(** What the engine never writes once the gate is passed and before the
    run is over: collaborators, configuration, policy and breaker. *)
Definition the_core (m : Machine W) := (the_setup m, the_breaker m).

(** [execute], lines 258-294: the part between the gate and validation.
    It returns the run id, the start point, the start time, the context,
    the log handle and what [create_execution] raised. *)
Definition prepare (workflow : Workflow.t) (inputs : option (gmap string value))
    (resume_from : option string)
    : M (W := W) (string * Z * datetime * ExecutionContext.t
                  * option string * option exn) :=
  '(run_id, start_step) ← determine_run workflow resume_from;
  started_at ← now;
  context ← _create_context workflow run_id (default ∅ inputs);
  exec_log ← start_logging workflow run_id context;
  created ← create_record workflow run_id started_at context inputs resume_from;
  mret (run_id, start_step, started_at, context, exec_log, created).

(** The index at which [execute] starts the step loop. *)
Definition start_point (workflow : Workflow.t) (resume_from : option string)
    (m : Machine W) : Z :=
  snd (fst (determine_run workflow resume_from (snd (gate m)))).

(** The steps at or after the index [start], for a loop that stands at
    index [i] with [steps] left. *)
Definition pending (start i : Z) (steps : list WorkflowStep.t)
    : list WorkflowStep.t :=
  drop (Z.to_nat (start - i)) steps.

(** The run passes validation: [_validate_execution] has nothing to
    report for the context that [execute] creates. *)
Definition valid_run (workflow : Workflow.t) (inputs : option (gmap string value))
    (m : Machine W) : Prop :=
  validation_errors (tool_registry (engine m)) workflow
    (default "opencode"%string (config_agent_primary (engine m)))
    (default ∅ inputs) = [].

(** A result of [_execute_step_with_retry] for [step]: it carries the id
    of the step and both time stamps, and it is completed without an
    error or failed without an output. *)
Definition attempted (step : WorkflowStep.t) (r : StepResult.t) : Prop :=
  StepResult.step_id r = WorkflowStep.id step
  /\ is_Some (StepResult.started_at r)
  /\ is_Some (StepResult.completed_at r)
  /\ ((StepResult.status r = StepStatus.COMPLETED /\ StepResult.error r = None)
      \/ (StepResult.status r = StepStatus.FAILED /\ StepResult.output r = VNone)).

Definition failed (r : StepResult.t) : Prop :=
  StepResult.status r = StepStatus.FAILED.

(** What raises out of [_execute_step_with_retry] for [step] under the
    policy [p]: the exception of [get_delay(k)] for a retry [k] within
    the budget of the step. *)
Definition delay_error (p : RetryPolicy) (step : WorkflowStep.t) (e : exn)
    : Prop :=
  exists k,
    1 <= k <= Z.min (WorkflowStep.max_retries step) (max_retries p)
    /\ get_delay_raises p k = Some e.

(** The error message of a run that a failed step ends, by the error
    handling of the workflow. *)
Definition failure_message (eh : ErrorHandling.t) (r : StepResult.t) : string :=
  match eh with
  | ErrorHandling.ROLLBACK =>
      "Step '" +:+ StepResult.step_id r +:+ "' failed, rollback triggered"
  | _ =>
      "Step '" +:+ StepResult.step_id r +:+ "' failed: "
      +:+ str_opt (StepResult.error r)
  end.

(** How the results [new] that a run appends, its final status and its
    error message relate to the steps it had to run: one result per step,
    in order, as far as the run got.  A completed run got through every
    step, and none failed unless failures are to be continued over.  A
    failed run ends with the first failed result, which can only be when
    failures are not continued over; or it ends where the retries of the
    next step raised, under the policy [p], with the results of the steps
    before it and an "Unexpected error". *)
Definition run_outcome (p : RetryPolicy) (eh : ErrorHandling.t)
    (steps : list WorkflowStep.t) (new : list StepResult.t)
    (status : WorkflowStatus.t) (error : option string) : Prop :=
  map StepResult.step_id new = map WorkflowStep.id (take (length new) steps)
  /\ match status with
     | WorkflowStatus.COMPLETED =>
         length new = length steps
         /\ error = None
         /\ (eh <> ErrorHandling.CONTINUE -> Forall (fun r => ~ failed r) new)
     | WorkflowStatus.FAILED =>
         (eh <> ErrorHandling.CONTINUE
          /\ exists before r,
               new = before ++ [r]
               /\ failed r
               /\ Forall (fun r => ~ failed r) before
               /\ error = Some (failure_message eh r))
         \/ (exists step e,
               steps !! length new = Some step
               /\ delay_error p step e
               /\ error = Some ("Unexpected error: " +:+ e)
               /\ (eh <> ErrorHandling.CONTINUE ->
                   Forall (fun r => ~ failed r) new))
     end.

(** The policy computes the delays of all retries of each of the steps. *)
Definition delays_defined_for (p : RetryPolicy) (steps : list WorkflowStep.t)
    : Prop :=
  Forall (fun step =>
            delays_defined p
              (Z.min (WorkflowStep.max_retries step) (max_retries p)))
    steps.

(** The error that every attempt at [step] raises before it reaches a
    collaborator, when the engine lacks what the step needs. *)
Definition configuration_error (step : WorkflowStep.t)
    (context : ExecutionContext.t) (m : Machine W) : option string :=
  if Py.startswith (WorkflowStep.action step) "agent." then
    match agent_adapter (engine m) with
    | None => Some "No agent adapter configured"%string
    | Some _ => None
    end
  else
    match tool_registry (engine m) with
    | None => Some "No tool registry configured"%string
    | Some registry =>
        match ToolRegistry.get_tool registry (WorkflowStep.get_tool_name step)
                (ExecutionContext.agent_name context) with
        | None => Some ("Tool not found: " +:+ WorkflowStep.get_tool_name step)
        | Some _ => None
        end
    end.

(** The context and the results that one iteration of the step loop
    hands on. *)
Definition control_context (c : LoopControl) : ExecutionContext.t :=
  match c with
  | Break x => exit_context x
  | Next context _ => context
  | Raise _ context _ => context
  end.

Definition control_results (c : LoopControl) : list StepResult.t :=
  match c with
  | Break x => exit_step_results x
  | Next _ step_results => step_results
  | Raise _ _ step_results => step_results
  end.

(** The checkpoint that [execute] saves for the step at index [i] with
    result [r], lines 347-359. *)
Definition checkpoint_of (run_id : string) (i : Z) (step : WorkflowStep.t)
    (r : StepResult.t) (started : datetime) : StepCheckpoint.t :=
  StepCheckpoint.mk run_id i (WorkflowStep.name step)
    (if StepResult.success r then ExecutionStatus.COMPLETED
     else ExecutionStatus.FAILED)
    started (StepResult.completed_at r)
    (if Py.truthy (StepResult.output r) then Some (StepResult.output r) else None)
    (StepResult.error r) (StepResult.retries r).

(** A sleep of at most the [max_delay] of the policy [p]. *)
Definition is_capped (p : RetryPolicy) (e : Event) : Prop :=
  match e with
  | EvSleep _ d => (d <= max_delay p)%Q
  | _ => True
  end.

(** On an engine with the policy [p], running [c] keeps the policy and
    adds to the trace at most [d] calls to collaborators and at most [s]
    sleeps, each of at most [max_delay]. *)
Definition bounded {A : Type} (p : RetryPolicy) (c : M (W := W) A)
    (d s : nat) : Prop :=
  forall m,
    retry_policy (engine m) = p ->
    exists evs,
      trace (snd (c m)) = trace m ++ evs
      /\ retry_policy (engine (snd (c m))) = p
      /\ (dispatches evs <= d)%nat
      /\ (length (sleeps evs) <= s)%nat
      /\ Forall (is_capped p) evs.

(** The retry budget of [step] under the policy [p]. *)
Definition budget (p : RetryPolicy) (step : WorkflowStep.t) : Z :=
  Z.min (WorkflowStep.max_retries step) (max_retries p).

(** The most attempts, and the most waits, that the steps can take. *)
Definition attempts_bound (p : RetryPolicy) (steps : list WorkflowStep.t) : nat :=
  foldr (fun step n => (Z.to_nat (budget p step + 1) + n)%nat) O steps.

Definition waits_bound (p : RetryPolicy) (steps : list WorkflowStep.t) : nat :=
  foldr (fun step n => (Z.to_nat (budget p step) + n)%nat) O steps.

End FurtherObservations.

(** ** Further scenarios *)

Module Cases.

(** An engine whose tool [t] fails on every call and whose tool [u]
    returns ["y"], with a breaker of threshold 2. *)
Definition failing : Machine nat :=
  Demo.boot (Demo.engine_with
               [("t"%string, Demo.flaky_tool 100 (VStr "x"));
                ("u"%string, Demo.constant_tool (VStr "y"))]
               Scenario.steady_policy (Some (CB.init 2 30 3))).

(** Two steps without retries: [t.a], then [u.b]. *)
Definition steps : list WorkflowStep.t :=
  [Demo.step "s0" "t.a" [] (Some "a"%string) [] 0;
   Demo.step "s1" "u.b" [] (Some "b"%string) [] 0].

(** The two steps under the error handling [continue], and under [stop]. *)
Definition lenient : Workflow.t :=
  Workflow.mk "wf" "demo" ErrorHandling.CONTINUE steps [] [] (fun _ => true) None.

Definition strict : Workflow.t := Demo.workflow steps.

(** An engine as the constructor leaves it, with the tool [t] that
    returns ["x"] and nothing else. *)
Definition constructed : Machine nat :=
  Demo.boot (WorkflowEngine_init None
               (Some (Demo.registry [("t"%string, Demo.constant_tool (VStr "x"))]))
               None None None None None).

(** An engine whose tool [t] fails on every call, under a policy with the
    exponential base 1e308, for which [get_delay(3)] is out of range. *)
Definition overflowing : Machine nat :=
  Demo.boot (Demo.engine_with
               [("t"%string, Demo.flaky_tool 100 (VStr "x"))]
               (mkRetryPolicy 3 1 0 (inject_Z (10 ^ 308)) 0) None).

(** One step, [t.a], with three retries, under [continue] and under
    [stop]. *)
Definition eager_continue : Workflow.t :=
  Workflow.mk "wf" "demo" ErrorHandling.CONTINUE
    [Demo.step "s0" "t.a" [] (Some "a"%string) [] 3] [] [] (fun _ => true) None.

Definition eager_stop : Workflow.t :=
  Demo.workflow [Demo.step "s0" "t.a" [] (Some "a"%string) [] 3].

End Cases.

(** * Properties *)

(** ** Numbers *)

Module NumFacts.

Lemma ltb_lt a b : Num.ltb a b = true <-> (a < b)%Q.
Proof.
  unfold Num.ltb. rewrite negb_true_iff. split.
  - intros Hb. apply Qnot_le_lt. intros Hle.
    apply Qle_bool_iff in Hle. congruence.
  - intros Hlt. destruct (Qle_bool b a) eqn:E; [|reflexivity].
    apply Qle_bool_iff in E. exfalso. exact (Qlt_not_le _ _ Hlt E).
Qed.

Lemma ltb_ge a b : Num.ltb a b = false <-> (b <= a)%Q.
Proof. unfold Num.ltb. rewrite negb_false_iff. apply Qle_bool_iff. Qed.

Lemma pymin_Qmin a b : (Num.pymin a b == Qmin a b)%Q.
Proof.
  unfold Num.pymin. destruct (Num.ltb b a) eqn:E.
  - apply ltb_lt in E. symmetry. apply Q.min_r. apply Qlt_le_weak. exact E.
  - apply ltb_ge in E. symmetry. apply Q.min_l. exact E.
Qed.

Lemma no_jitter j : (j == 0)%Q -> Num.ltb 0 j = false.
Proof. intros Hj. apply ltb_ge. rewrite Hj. apply Qle_refl. Qed.

End NumFacts.

(** ** RetryPolicy *)

Lemma get_delay_without_jitter (p : RetryPolicy) (n : Z) (u : Q) :
  Num.ltb 0 (jitter p) = false ->
  get_delay p n u
  = Num.pymin (base_delay p * exponential_base p ^ (n - 1))%Q (max_delay p).
Proof. intros Hj. unfold get_delay. rewrite Hj. reflexivity. Qed.

Lemma get_delay_call_defined (p : RetryPolicy) (n : Z) (u : Q) :
  get_delay_raises p n = None -> get_delay_call p n u = inr (get_delay p n u).
Proof. intros Hr. unfold get_delay_call. rewrite Hr. reflexivity. Qed.

Lemma pow_raises_in_range (x : Q) (n : Z) :
  0 <= n ->
  Float.overflows (inject_Z n) || Float.overflows (x ^ n) = false ->
  Float.pow_raises x n = None.
Proof.
  intros Hn Ho. apply orb_false_iff in Ho as [Hi Hp].
  unfold Float.pow_raises. rewrite Hi, Hp.
  replace (n <? 0) with false by (symmetry; apply Z.ltb_ge; exact Hn).
  rewrite andb_false_r. reflexivity.
Qed.

Lemma pow_raises_out_of_range (x : Q) (n : Z) :
  0 <= n ->
  Float.overflows (inject_Z n) || Float.overflows (x ^ n) = true ->
  exists e, Float.pow_raises x n = Some e.
Proof.
  intros Hn Ho. unfold Float.pow_raises.
  destruct (Float.overflows (inject_Z n)); [eauto|].
  replace (n <? 0) with false by (symmetry; apply Z.ltb_ge; exact Hn).
  rewrite andb_false_r. simpl in Ho. rewrite Ho. eauto.
Qed.

(** C8. With [jitter = 0] and a 1-based attempt [n >= 1], [get_delay(n)]
    raises when [n - 1] or the power [exponential_base^(n-1)] is out of the
    range of the floats; otherwise it returns the minimum of [base_delay *
    exponential_base^(n-1)] and [max_delay], and in both cases the outcome
    is the same whatever [random()] would have drawn. *)
Theorem get_delay_deterministic (p : RetryPolicy) (n : Z) (u : Q) :
  (jitter p == 0)%Q ->
  1 <= n ->
  (Float.overflows (inject_Z (n - 1))
   || Float.overflows (exponential_base p ^ (n - 1)) = true ->
   exists e, forall u' : Q, get_delay_call p n u' = inl e)
  /\ (Float.overflows (inject_Z (n - 1))
      || Float.overflows (exponential_base p ^ (n - 1)) = false ->
      exists d,
        get_delay_call p n u = inr d
        /\ (d == Qmin (base_delay p * exponential_base p ^ (n - 1)) (max_delay p))%Q
        /\ forall u' : Q, get_delay_call p n u' = inr d).
Proof.
  intros Hj Hn. apply NumFacts.no_jitter in Hj. split; intros Ho.
  - destruct (pow_raises_out_of_range (exponential_base p) (n - 1) ltac:(lia) Ho)
      as [e He].
    exists e. intros u'. unfold get_delay_call, get_delay_raises.
    rewrite He. reflexivity.
  - pose proof (pow_raises_in_range (exponential_base p) (n - 1) ltac:(lia) Ho)
      as Hr.
    exists (get_delay p n u). split; [|split].
    + apply get_delay_call_defined. exact Hr.
    + rewrite (get_delay_without_jitter p n u Hj). apply NumFacts.pymin_Qmin.
    + intros u'. rewrite (get_delay_call_defined p n u' Hr).
      rewrite !get_delay_without_jitter by exact Hj. reflexivity.
Qed.

Lemma get_delay_deterministic_witness :
  exists d,
    get_delay_call (mkRetryPolicy 3 10 20 2 0) 3 (1 # 2) = inr d
    /\ (d == Qmin (10 * 2 ^ (3 - 1)) 20)%Q
    /\ forall u' : Q, get_delay_call (mkRetryPolicy 3 10 20 2 0) 3 u' = inr d.
Proof.
  refine (proj2 (get_delay_deterministic (mkRetryPolicy 3 10 20 2 0) 3 (1 # 2)
                   _ _) _).
  - reflexivity.
  - lia.
  - reflexivity.
Defined.

(** C8 as stated fails where the power is out of range: with
    base 2.0 the call [get_delay(1025)] raises [OverflowError] and returns
    nothing. *)
Lemma get_delay_raises_out_of_range :
  (jitter (mkRetryPolicy 3 1 60 2 0) == 0)%Q
  /\ 1 <= 1025
  /\ get_delay_call (mkRetryPolicy 3 1 60 2 0) 1025 0
     = inl "(34, 'Numerical result out of range')"%string
  /\ get_delay_call (mkRetryPolicy 3 1 60 2 0) 1024 0 = inr 60%Q.
Proof.
  split; [reflexivity|]. split; [lia|]. split; vm_compute; reflexivity.
Qed.

(** The delays of [test_get_delay_exponential] and [test_get_delay_max_cap]. *)
Example get_delay_exponential :
  map (fun n => Qred (get_delay (mkRetryPolicy 3 1 60 2 0) n 0)) [1; 2; 3; 4]
  = [1; 2; 4; 8]%Q.
Proof. reflexivity. Qed.

Example get_delay_max_cap :
  map (fun n => Qred (get_delay (mkRetryPolicy 3 10 20 2 0) n 0)) [1; 2; 3]
  = [10; 20; 20]%Q.
Proof. reflexivity. Qed.

(** ** CircuitBreaker *)

Module CBFacts.

Lemma state_params cb now :
  failure_threshold (snd (CB.state cb now)) = failure_threshold cb
  /\ _failure_count (snd (CB.state cb now)) = _failure_count cb
  /\ _last_failure_time (snd (CB.state cb now)) = _last_failure_time cb.
Proof.
  unfold CB.state. destruct (_state cb) eqn:Es; simpl; auto.
  destruct (_last_failure_time cb) eqn:Et; simpl; auto.
  destruct (Num.geb _ _); simpl; auto.
Qed.

Lemma state_not_closed cb now :
  _state (snd (CB.state cb now)) = CLOSED -> _state cb = CLOSED.
Proof.
  unfold CB.state. destruct (_state cb) eqn:E; simpl; try congruence.
  destruct (_last_failure_time cb); simpl; [|congruence].
  destruct (Num.geb _ _); simpl; intros Hs; congruence.
Qed.

Lemma can_execute_state cb now :
  snd (CB.can_execute cb now) = snd (CB.state cb now).
Proof.
  unfold CB.can_execute. destruct (CB.state cb now) as [st cb'].
  destruct st; reflexivity.
Qed.

Lemma threshold_step cb c :
  failure_threshold (CB.step cb c) = failure_threshold cb.
Proof.
  destruct c; simpl; try reflexivity.
  - unfold CB.record_success. destruct (_state cb); try reflexivity.
    destruct (_ >=? _); reflexivity.
  - apply state_params.
  - rewrite can_execute_state. apply state_params.
Qed.

Lemma threshold_run cs : forall cb,
  failure_threshold (CB.run cb cs) = failure_threshold cb.
Proof.
  induction cs as [|c cs IH]; intros cb; simpl; [reflexivity|].
  unfold CB.run in *. simpl. rewrite IH. apply threshold_step.
Qed.

Lemma inv_state cb now : breaker_inv cb -> breaker_inv (snd (CB.state cb now)).
Proof.
  intros [Hc Hb]. destruct (state_params cb now) as (Ht & Hn & _).
  split; [lia|]. intros Hs. apply state_not_closed in Hs.
  rewrite Ht, Hn. auto.
Qed.

Lemma inv_step cb c : breaker_inv cb -> breaker_inv (CB.step cb c).
Proof.
  intros Hinv. destruct c; simpl.
  - destruct Hinv as [Hc Hb]. unfold CB.record_failure, breaker_inv. simpl.
    split; [lia|]. destruct (_state cb) eqn:E; simpl.
    + destruct (_ >=? _) eqn:G; intros Hs; [discriminate|].
      rewrite Z.geb_leb in G. apply Z.leb_gt in G. right. lia.
    + destruct (_ >=? _); intros Hs; discriminate.
    + intros Hs; discriminate.
  - destruct Hinv as [Hc Hb]. unfold CB.record_success, breaker_inv.
    destruct (_state cb) eqn:E; simpl.
    + split; [lia|]. auto.
    + rewrite E. split; [lia|]. discriminate.
    + destruct (_ >=? _); simpl; (split; [lia|]); auto; discriminate.
  - unfold CB.reset, breaker_inv. simpl. split; [lia|]. auto.
  - apply inv_state, Hinv.
  - rewrite can_execute_state. apply inv_state, Hinv.
Qed.

Lemma inv_run cs : forall cb, breaker_inv cb -> breaker_inv (CB.run cb cs).
Proof.
  induction cs as [|c cs IH]; intros cb Hinv; [exact Hinv|].
  unfold CB.run in *. simpl. apply IH, inv_step, Hinv.
Qed.

Lemma inv_init th to mc : breaker_inv (CB.init th to mc).
Proof. unfold breaker_inv. simpl. split; [lia|auto]. Qed.

End CBFacts.

(** C9, as the code has it. A breaker built with a threshold that is not
    negative and then driven by any sequence of [record_failure],
    [record_success], [reset], [state] and [can_execute] calls keeps, while
    Closed, a failure count between 0 and [failure_threshold]; a success in
    Closed leaves it Closed with count 0; and a failure in Closed increments
    the count and opens the circuit in that same call exactly when the
    incremented count reaches the threshold. *)
Theorem breaker_closed_count_bounded (th : Z) (to : Q) (mc : Z) (cs : list CB.call) :
  0 <= th ->
  let cb := CB.run (CB.init th to mc) cs in
  failure_threshold cb = th
  /\ (_state cb = CLOSED -> 0 <= _failure_count cb <= failure_threshold cb)
  /\ (_state cb = CLOSED ->
      _state (CB.record_success cb) = CLOSED
      /\ _failure_count (CB.record_success cb) = 0)
  /\ (forall now : Q,
        _state cb = CLOSED ->
        _failure_count (CB.record_failure cb now) = _failure_count cb + 1
        /\ (failure_threshold cb <= _failure_count cb + 1
            <-> _state (CB.record_failure cb now) = OPEN)).
Proof.
  intros Hth cb.
  assert (Ht : failure_threshold cb = th) by apply CBFacts.threshold_run.
  destruct (CBFacts.inv_run cs _ (CBFacts.inv_init th to mc)) as [Hc Hb].
  fold cb in Hc, Hb. repeat split.
  - exact Ht.
  - exact Hc.
  - destruct (Hb H); lia.
  - unfold CB.record_success. rewrite H. reflexivity.
  - unfold CB.record_success. rewrite H. reflexivity.
  - unfold CB.record_failure; simpl. rewrite H.
    intros Hle. destruct (_ >=? _) eqn:G; [reflexivity|].
    rewrite Z.geb_leb in G. apply Z.leb_gt in G. lia.
  - unfold CB.record_failure; simpl. rewrite H.
    destruct (_ >=? _) eqn:G; [|discriminate].
    intros _. rewrite Z.geb_leb in G. apply Z.leb_le in G. lia.
Qed.

Lemma breaker_closed_count_bounded_witness :
  let cb := CB.run (CB.init 3 30 3)
              [CB.RecordFailure 1; CB.RecordFailure 2; CB.RecordSuccess;
               CB.RecordFailure 3; CB.RecordFailure 4] in
  failure_threshold cb = 3
  /\ (_state cb = CLOSED -> 0 <= _failure_count cb <= failure_threshold cb)
  /\ (_state cb = CLOSED ->
      _state (CB.record_success cb) = CLOSED
      /\ _failure_count (CB.record_success cb) = 0)
  /\ (forall now : Q,
        _state cb = CLOSED ->
        _failure_count (CB.record_failure cb now) = _failure_count cb + 1
        /\ (failure_threshold cb <= _failure_count cb + 1
            <-> _state (CB.record_failure cb now) = OPEN)).
Proof.
  apply (breaker_closed_count_bounded 3 30 3
           [CB.RecordFailure 1; CB.RecordFailure 2; CB.RecordSuccess;
            CB.RecordFailure 3; CB.RecordFailure 4]).
  lia.
Defined.

(** C9 as stated fails for a breaker built with a negative threshold: it
    starts Closed with a count of 0, which the threshold does not bound. *)
Lemma breaker_negative_threshold_unbounded :
  _state (CB.run (CB.init (-1) 30 3) []) = CLOSED
  /\ ~ (_failure_count (CB.run (CB.init (-1) 30 3) [])
        <= failure_threshold (CB.run (CB.init (-1) 30 3) [])).
Proof. split; [reflexivity|]. simpl. lia. Qed.

(** The scenarios of [TestCircuitBreaker]. *)
Example stays_closed_below_threshold :
  _state (CB.run (CB.init 3 30 3) [CB.RecordFailure 1; CB.RecordFailure 2]) = CLOSED.
Proof. reflexivity. Qed.

Example opens_at_threshold :
  CB.can_execute
    (CB.run (CB.init 3 30 3)
       [CB.RecordFailure 1; CB.RecordFailure 2; CB.RecordFailure 3]) 4
  = (false,
     CB.run (CB.init 3 30 3)
       [CB.RecordFailure 1; CB.RecordFailure 2; CB.RecordFailure 3]).
Proof. reflexivity. Qed.

Example half_open_after_timeout :
  fst (CB.state
         (CB.run (CB.init 2 (1 # 10) 3) [CB.RecordFailure 1; CB.RecordFailure 1])
         (115 # 100))
  = HALF_OPEN.
Proof. reflexivity. Qed.

(** ** Reasoning about engine code *)

Section Frames.

Context {W : Type} `{Host W}.

#[local] Existing Instance M_ret.
#[local] Existing Instance M_bind.

Lemma preserves_ret {A X} (a : A) (f : Machine W -> X) : preserves (mret a) f.
Proof. intros m. reflexivity. Qed.

Lemma preserves_bind {A B X} (c : M A) (k : A -> M B) (f : Machine W -> X) :
  preserves c f -> (forall a, preserves (k a) f) -> preserves (c ≫= k) f.
Proof.
  intros Hc Hk m. unfold mbind, M_bind. specialize (Hc m).
  destruct (c m) as [a m1]. simpl in Hc. rewrite Hk. exact Hc.
Qed.

Lemma preserves_get_engine {X} (f : Machine W -> X) : preserves get_engine f.
Proof. intros m. reflexivity. Qed.

Lemma preserves_call_world {A X} (g : W -> A * W) (f : Machine W -> X) :
  (forall e w w' t, f (mkMachine e w t) = f (mkMachine e w' t)) ->
  preserves (call_world g) f.
Proof.
  intros Hf m. unfold call_world. destruct (g (world m)) as [a w]. simpl.
  destruct m as [e w0 t]. apply Hf.
Qed.

Lemma preserves_emit {X} (ev : Event) (f : Machine W -> X) :
  (forall e w t t', f (mkMachine e w t) = f (mkMachine e w t')) ->
  preserves (emit ev) f.
Proof. intros Hf m. unfold emit. simpl. destruct m as [e w t]. apply Hf. Qed.

End Frames.

(** Splits a [preserves] goal along the code, down to the writes. *)
Ltac frame_step :=
  lazymatch goal with
  | |- preserves (mbind _ _) _ => apply preserves_bind; [|intros ?]
  | |- preserves (mret _) _ => apply preserves_ret
  | |- preserves get_engine _ => apply preserves_get_engine
  | |- preserves now _ => apply preserves_call_world; intros; reflexivity
  | |- preserves (call_world _) _ => apply preserves_call_world; intros; reflexivity
  | |- preserves (emit _) _ => apply preserves_emit; intros; reflexivity
  | |- preserves (match ?x with _ => _ end) _ => destruct x eqn:?
  | |- preserves (if ?x then _ else _) _ => destruct x eqn:?
  | |- preserves (let '(_, _) := ?x in _) _ => destruct x eqn:?
  end.

Create HintDb frames discriminated.

Ltac frame := repeat frame_step; auto with frames.

Section EngineFrames.

Context {W : Type} `{Host W}.

#[local] Existing Instance M_ret.
#[local] Existing Instance M_bind.

Ltac write_frame := intros m; destruct m as [[] ? ?]; reflexivity.

Lemma breaker_set_state_store s : preserves (W := W) (set_state_store s) the_breaker.
Proof. write_frame. Qed.
Lemma breaker_set_execution_logger l :
  preserves (W := W) (set_execution_logger l) the_breaker.
Proof. write_frame. Qed.
Lemma breaker_set_running b : preserves (W := W) (set_running b) the_breaker.
Proof. write_frame. Qed.

Lemma store_set_execution_logger l :
  preserves (W := W) (set_execution_logger l) the_store.
Proof. write_frame. Qed.
Lemma store_set_circuit_breaker b :
  preserves (W := W) (set_circuit_breaker b) the_store.
Proof. write_frame. Qed.
Lemma store_set_running b : preserves (W := W) (set_running b) the_store.
Proof. write_frame. Qed.

Lemma logger_set_state_store s : preserves (W := W) (set_state_store s) the_logger.
Proof. write_frame. Qed.
Lemma logger_set_circuit_breaker b :
  preserves (W := W) (set_circuit_breaker b) the_logger.
Proof. write_frame. Qed.
Lemma logger_set_running b : preserves (W := W) (set_running b) the_logger.
Proof. write_frame. Qed.

Lemma setup_set_state_store s : preserves (W := W) (set_state_store s) the_setup.
Proof. write_frame. Qed.
Lemma setup_set_execution_logger l :
  preserves (W := W) (set_execution_logger l) the_setup.
Proof. write_frame. Qed.
Lemma setup_set_circuit_breaker b :
  preserves (W := W) (set_circuit_breaker b) the_setup.
Proof. write_frame. Qed.
Lemma setup_set_running b : preserves (W := W) (set_running b) the_setup.
Proof. write_frame. Qed.

Lemma trace_set_state_store s : preserves (W := W) (set_state_store s) trace.
Proof. write_frame. Qed.
Lemma trace_set_execution_logger l :
  preserves (W := W) (set_execution_logger l) trace.
Proof. write_frame. Qed.
Lemma trace_set_circuit_breaker b :
  preserves (W := W) (set_circuit_breaker b) trace.
Proof. write_frame. Qed.
Lemma trace_set_running b : preserves (W := W) (set_running b) trace.
Proof. write_frame. Qed.

End EngineFrames.

#[export] Hint Resolve
  breaker_set_state_store breaker_set_execution_logger breaker_set_running
  store_set_execution_logger store_set_circuit_breaker store_set_running
  logger_set_state_store logger_set_circuit_breaker logger_set_running
  setup_set_state_store setup_set_execution_logger setup_set_circuit_breaker
  setup_set_running
  trace_set_state_store trace_set_execution_logger trace_set_circuit_breaker
  trace_set_running : frames.

Section EngineFrames2.

Context {W : Type} `{Host W}.

#[local] Existing Instance M_ret.
#[local] Existing Instance M_bind.

Lemma breaker_log_append l e : preserves (W := W) (log_append l e) the_breaker.
Proof. unfold log_append. frame. Qed.
Lemma store_log_append l e : preserves (W := W) (log_append l e) the_store.
Proof. unfold log_append. frame. Qed.
Lemma setup_log_append l e : preserves (W := W) (log_append l e) the_setup.
Proof. unfold log_append. frame. Qed.
Lemma trace_log_append l e : preserves (W := W) (log_append l e) trace.
Proof. unfold log_append. frame. Qed.

Lemma breaker_generate_run_id id :
  preserves (W := W) (_generate_run_id id) the_breaker.
Proof. unfold _generate_run_id. frame. Qed.
Lemma store_generate_run_id id : preserves (W := W) (_generate_run_id id) the_store.
Proof. unfold _generate_run_id. frame. Qed.
Lemma logger_generate_run_id id :
  preserves (W := W) (_generate_run_id id) the_logger.
Proof. unfold _generate_run_id. frame. Qed.
Lemma setup_generate_run_id id : preserves (W := W) (_generate_run_id id) the_setup.
Proof. unfold _generate_run_id. frame. Qed.
Lemma trace_generate_run_id id : preserves (W := W) (_generate_run_id id) trace.
Proof. unfold _generate_run_id. frame. Qed.

Lemma store_breaker_can_execute cb :
  preserves (W := W) (breaker_can_execute cb) the_store.
Proof. unfold breaker_can_execute. frame. Qed.
Lemma logger_breaker_can_execute cb :
  preserves (W := W) (breaker_can_execute cb) the_logger.
Proof. unfold breaker_can_execute. frame. Qed.
Lemma setup_breaker_can_execute cb :
  preserves (W := W) (breaker_can_execute cb) the_setup.
Proof. unfold breaker_can_execute. frame. Qed.
Lemma trace_breaker_can_execute cb :
  preserves (W := W) (breaker_can_execute cb) trace.
Proof. unfold breaker_can_execute. frame. Qed.

Lemma store_gate : preserves (W := W) gate the_store.
Proof. unfold gate. frame. apply store_breaker_can_execute. Qed.
Lemma logger_gate : preserves (W := W) gate the_logger.
Proof. unfold gate. frame. apply logger_breaker_can_execute. Qed.
Lemma setup_gate : preserves (W := W) gate the_setup.
Proof. unfold gate. frame. apply setup_breaker_can_execute. Qed.
Lemma trace_gate : preserves (W := W) gate trace.
Proof. unfold gate. frame. apply trace_breaker_can_execute. Qed.

Lemma breaker_refuse wf a r : preserves (W := W) (refuse wf a r) the_breaker.
Proof. unfold refuse. frame. apply breaker_generate_run_id. Qed.
Lemma store_refuse wf a r : preserves (W := W) (refuse wf a r) the_store.
Proof. unfold refuse. frame. apply store_generate_run_id. Qed.
Lemma logger_refuse wf a r : preserves (W := W) (refuse wf a r) the_logger.
Proof. unfold refuse. frame. apply logger_generate_run_id. Qed.
Lemma trace_refuse wf a r : preserves (W := W) (refuse wf a r) trace.
Proof. unfold refuse. frame. apply trace_generate_run_id. Qed.

Lemma breaker_determine_run wf r : preserves (W := W) (determine_run wf r) the_breaker.
Proof. unfold determine_run. frame; apply breaker_generate_run_id. Qed.
Lemma setup_determine_run wf r : preserves (W := W) (determine_run wf r) the_setup.
Proof. unfold determine_run. frame; apply setup_generate_run_id. Qed.
Lemma trace_determine_run wf r : preserves (W := W) (determine_run wf r) trace.
Proof. unfold determine_run. frame; apply trace_generate_run_id. Qed.
Lemma store_determine_run wf r : preserves (W := W) (determine_run wf r) the_store.
Proof. unfold determine_run. frame; apply store_generate_run_id. Qed.

Lemma breaker_create_context wf r i :
  preserves (W := W) (_create_context wf r i) the_breaker.
Proof. unfold _create_context. frame. Qed.
Lemma setup_create_context wf r i :
  preserves (W := W) (_create_context wf r i) the_setup.
Proof. unfold _create_context. frame. Qed.
Lemma trace_create_context wf r i : preserves (W := W) (_create_context wf r i) trace.
Proof. unfold _create_context. frame. Qed.
Lemma store_create_context wf r i :
  preserves (W := W) (_create_context wf r i) the_store.
Proof. unfold _create_context. frame. Qed.

Lemma breaker_start_logging wf r c :
  preserves (W := W) (start_logging wf r c) the_breaker.
Proof. unfold start_logging. frame. Qed.
Lemma setup_start_logging wf r c :
  preserves (W := W) (start_logging wf r c) the_setup.
Proof. unfold start_logging. frame. Qed.
Lemma trace_start_logging wf r c : preserves (W := W) (start_logging wf r c) trace.
Proof. unfold start_logging. frame. Qed.
Lemma store_start_logging wf r c :
  preserves (W := W) (start_logging wf r c) the_store.
Proof. unfold start_logging. frame. Qed.

Lemma breaker_create_record wf r t c i rf :
  preserves (W := W) (create_record wf r t c i rf) the_breaker.
Proof. unfold create_record. frame. Qed.
Lemma setup_create_record wf r t c i rf :
  preserves (W := W) (create_record wf r t c i rf) the_setup.
Proof. unfold create_record. frame. Qed.
Lemma trace_create_record wf r t c i rf :
  preserves (W := W) (create_record wf r t c i rf) trace.
Proof. unfold create_record. frame. Qed.

Lemma breaker_finalize r s e l o :
  preserves (W := W) (_finalize_execution r s e l o) the_breaker.
Proof. unfold _finalize_execution. frame. Qed.
Lemma setup_finalize r s e l o :
  preserves (W := W) (_finalize_execution r s e l o) the_setup.
Proof. unfold _finalize_execution. frame. Qed.
Lemma trace_finalize r s e l o :
  preserves (W := W) (_finalize_execution r s e l o) trace.
Proof. unfold _finalize_execution. frame. Qed.

Lemma breaker_fail_validation wf r t c l v :
  preserves (W := W) (fail_validation wf r t c l v) the_breaker.
Proof. unfold fail_validation. frame. apply breaker_finalize. Qed.
Lemma trace_fail_validation wf r t c l v :
  preserves (W := W) (fail_validation wf r t c l v) trace.
Proof. unfold fail_validation. frame. apply trace_finalize. Qed.

End EngineFrames2.

(** ** The gate and the early returns of [execute] *)

(** Names the result and the machine of every monadic call in the goal. *)
Ltac run_calls :=
  repeat match goal with
         | |- context [let '(_, _) := ?c in _] => destruct c as [? ?] eqn:?
         end.

Section EarlyReturns.

Context {W : Type} `{Host W}.

#[local] Existing Instance M_ret.
#[local] Existing Instance M_bind.

Lemma refuse_result wf agent resume (m : Machine W) :
  WorkflowResult.status (fst (refuse wf agent resume m)) = WorkflowStatus.FAILED
  /\ WorkflowResult.error (fst (refuse wf agent resume m)) = Some circuit_open_error
  /\ WorkflowResult.step_results (fst (refuse wf agent resume m)) = []
  /\ WorkflowResult.final_output (fst (refuse wf agent resume m)) = None.
Proof.
  unfold refuse, mbind, M_bind, mret, M_ret. run_calls. simpl. auto.
Qed.

Lemma execute_refused wf inputs agent resume (m : Machine W) :
  fst (gate m) = false ->
  execute wf inputs agent resume m
  = (inr (fst (refuse wf agent resume (snd (gate m)))),
     snd (refuse wf agent resume (snd (gate m)))).
Proof.
  intros Hg. unfold execute, mbind, M_bind, mret, M_ret.
  destruct (gate m) as [allowed m1]. simpl in Hg. subst allowed. simpl.
  destruct (refuse wf agent resume m1). reflexivity.
Qed.

(** [can_execute] writes the state and the half-open counter only. *)
Lemma can_execute_counts cb t :
  failure_threshold (snd (CB.can_execute cb t)) = failure_threshold cb
  /\ _failure_count (snd (CB.can_execute cb t)) = _failure_count cb
  /\ _last_failure_time (snd (CB.can_execute cb t)) = _last_failure_time cb.
Proof. rewrite CBFacts.can_execute_state. apply CBFacts.state_params. Qed.

Lemma can_execute_admits cb t :
  fst (CB.can_execute cb t) = true -> _state (snd (CB.can_execute cb t)) <> OPEN.
Proof.
  unfold CB.can_execute, CB.state.
  destruct (_state cb) eqn:Es; simpl; try (intros _; congruence).
  destruct (_last_failure_time cb); simpl; try discriminate.
  destruct (Num.geb _ _); simpl; discriminate.
Qed.

Lemma can_execute_moves cb t :
  snd (CB.can_execute cb t) = cb
  \/ (_state cb = OPEN /\ _state (snd (CB.can_execute cb t)) = HALF_OPEN).
Proof.
  rewrite CBFacts.can_execute_state. unfold CB.state.
  destruct (_state cb) eqn:Es; simpl; auto.
  destruct (_last_failure_time cb); simpl; auto.
  destruct (Num.geb _ _); simpl; auto.
Qed.

(** Reading [state] again at the same time gives the same value. *)
Lemma state_read_twice cb t :
  fst (CB.state (snd (CB.can_execute cb t)) t) = fst (CB.state cb t).
Proof.
  rewrite CBFacts.can_execute_state. unfold CB.state.
  destruct (_state cb) eqn:Es; simpl; try rewrite Es; try reflexivity.
  destruct (_last_failure_time cb) eqn:Et; simpl; rewrite ?Es, ?Et; try reflexivity.
  destruct (Num.geb _ _) eqn:Eg; simpl; rewrite ?Es, ?Et, ?Eg; reflexivity.
Qed.

(** What the gate does to the breaker: nothing without one, and otherwise
    one [can_execute] call at some clock reading. *)
Lemma gate_breaker (m : Machine W) :
  match the_breaker m with
  | None => gate m = (true, m)
  | Some cb =>
      exists t, fst (gate m) = fst (CB.can_execute cb t)
                /\ the_breaker (snd (gate m)) = Some (snd (CB.can_execute cb t))
  end.
Proof.
  unfold the_breaker, gate, mbind, M_bind, get_engine.
  destruct (circuit_breaker (engine m)) as [cb|] eqn:Ecb; [|reflexivity].
  unfold breaker_can_execute.
  destruct (_state cb) eqn:Es.
  - exists 0%Q. unfold mbind, M_bind, mret, M_ret.
    destruct (CB.can_execute cb 0) as [ok cb'].
    destruct m as [[] ? ?]; simpl. auto.
  - destruct (_last_failure_time cb) eqn:Et.
    + unfold mbind, M_bind, mret, M_ret, now, call_world.
      destruct (datetime_now (world m)) as [t w']. exists (timestamp t).
      destruct (CB.can_execute cb (timestamp t)) as [ok cb'].
      destruct m as [[] ? ?]; simpl. auto.
    + exists 0%Q. unfold mbind, M_bind, mret, M_ret.
      destruct (CB.can_execute cb 0) as [ok cb'].
      destruct m as [[] ? ?]; simpl. auto.
  - exists 0%Q. unfold mbind, M_bind, mret, M_ret.
    destruct (CB.can_execute cb 0) as [ok cb'].
    destruct m as [[] ? ?]; simpl. auto.
Qed.

(** C6, as the code has it. When the breaker's [can_execute()] is false,
    [execute] returns a failed result with no step results and the error
    "Circuit breaker is open - too many recent failures"; the state store
    and the logger are left as they were (no record, no log) and nothing
    is dispatched.  The error holds "Circuit breaker is open", and holds
    "circuit" once lowered. *)
Theorem circuit_open_refusal wf inputs agent resume (m : Machine W) :
  fst (gate m) = false ->
  exists r,
    fst (execute wf inputs agent resume m) = inr r
    /\ WorkflowResult.status r = WorkflowStatus.FAILED
    /\ WorkflowResult.error r = Some circuit_open_error
    /\ WorkflowResult.step_results r = []
    /\ the_store (snd (execute wf inputs agent resume m)) = the_store m
    /\ the_logger (snd (execute wf inputs agent resume m)) = the_logger m
    /\ trace (snd (execute wf inputs agent resume m)) = trace m
    /\ Py.contains "Circuit breaker is open" circuit_open_error = true
    /\ Py.contains "circuit" (Py.lower circuit_open_error) = true.
Proof.
  intros Hg. rewrite (execute_refused _ _ _ _ _ Hg). simpl.
  destruct (refuse_result wf agent resume (snd (gate m))) as (Hs & He & Hr & _).
  eexists. split; [reflexivity|].
  rewrite store_refuse, logger_refuse, trace_refuse.
  rewrite store_gate, logger_gate, trace_gate.
  repeat split; auto.
Qed.

End EarlyReturns.

Section Validation.

Context {W : Type} `{Host W}.

#[local] Existing Instance M_ret.
#[local] Existing Instance M_bind.

Lemma create_context_fields wf rid i (m : Machine W) :
  ExecutionContext.run_id (fst (_create_context wf rid i m)) = rid
  /\ ExecutionContext.agent_name (fst (_create_context wf rid i m))
     = default "opencode"%string (config_agent_primary (engine m))
  /\ ExecutionContext.inputs (fst (_create_context wf rid i m)) = i
  /\ ExecutionContext.variables (fst (_create_context wf rid i m)) = ∅.
Proof.
  unfold _create_context, mbind, M_bind, mret, M_ret, get_engine, now, call_world.
  destruct (datetime_now (world m)). simpl. auto.
Qed.

Lemma create_record_resuming wf rid t ctx i r resume (m : Machine W) :
  nonempty resume = Some r ->
  create_record wf rid t ctx i resume m = (None, m).
Proof.
  intros Hr. unfold create_record, mbind, M_bind, mret, M_ret, get_engine.
  rewrite Hr. destruct (state_store (engine m)); reflexivity.
Qed.

Lemma create_record_no_store wf rid t ctx i resume (m : Machine W) :
  the_store m = None ->
  create_record wf rid t ctx i resume m = (None, m).
Proof.
  unfold the_store. intros Hs.
  unfold create_record, mbind, M_bind, mret, M_ret, get_engine.
  rewrite Hs. reflexivity.
Qed.

Lemma create_record_new wf rid t ctx i resume store (m : Machine W) :
  the_store m = Some store ->
  StateStore.get_execution store rid = None ->
  fst (create_record wf rid t ctx i resume m) = None.
Proof.
  unfold the_store. intros Hs Hnew.
  unfold create_record, mbind, M_bind, mret, M_ret, get_engine.
  rewrite Hs. destruct (nonempty resume); [reflexivity|].
  unfold StateStore.create_execution. simpl.
  unfold StateStore.get_execution in Hnew. rewrite Hnew.
  destruct m as [[] ? ?]; reflexivity.
Qed.

Lemma fail_validation_result wf rid t ctx l v (m : Machine W) :
  WorkflowResult.status (fst (fail_validation wf rid t ctx l v m))
  = WorkflowStatus.FAILED
  /\ WorkflowResult.step_results (fst (fail_validation wf rid t ctx l v m)) = []
  /\ WorkflowResult.run_id (fst (fail_validation wf rid t ctx l v m)) = rid
  /\ WorkflowResult.error (fst (fail_validation wf rid t ctx l v m))
     = Some ("Validation failed: " +:+ Py.join "; " v).
Proof.
  unfold fail_validation, mbind, M_bind, mret, M_ret. run_calls. simpl. auto.
Qed.

(** [execute] on a run that the gate admits and validation rejects. *)
Lemma execute_invalid wf inputs agent resume (m : Machine W) :
  fst (gate m) = true ->
  fresh_run wf resume (snd (gate m)) ->
  validation_errors (tool_registry (engine m)) wf
    (default "opencode"%string (config_agent_primary (engine m)))
    (default ∅ inputs) <> [] ->
  exists rid t ctx l v m5,
    execute wf inputs agent resume m
    = (inr (fst (fail_validation wf rid t ctx l v m5)),
       snd (fail_validation wf rid t ctx l v m5))
    /\ the_breaker m5 = the_breaker (snd (gate m))
    /\ trace m5 = trace m.
Proof.
  intros Hg Hfresh Hv. unfold execute.
  unfold mbind at 1. unfold M_bind at 1.
  pose proof (setup_gate m) as Hsetup0. pose proof (trace_gate m) as Htr0.
  destruct (gate m) as [allowed m1]. simpl in *. subst allowed. simpl.
  unfold mbind at 1. unfold M_bind at 1.
  pose proof (setup_determine_run wf resume m1) as Hsetup1.
  pose proof (trace_determine_run wf resume m1) as Htr1.
  pose proof (breaker_determine_run wf resume m1) as Hb1.
  pose proof (store_determine_run wf resume m1) as Hst1.
  unfold fresh_run in Hfresh.
  destruct (determine_run wf resume m1) as [[rid start] m2]. simpl in *.
  unfold mbind at 1. unfold M_bind at 1.
  pose proof (preserves_call_world datetime_now the_setup
                (fun _ _ _ _ => eq_refl) m2) as Hsetup2.
  pose proof (preserves_call_world datetime_now trace
                (fun _ _ _ _ => eq_refl) m2) as Htr2.
  pose proof (preserves_call_world datetime_now the_breaker
                (fun _ _ _ _ => eq_refl) m2) as Hb2.
  pose proof (preserves_call_world datetime_now the_store
                (fun _ _ _ _ => eq_refl) m2) as Hst2.
  fold now in Hsetup2, Htr2, Hb2, Hst2.
  destruct (now m2) as [t m3]. simpl in *.
  unfold mbind at 1. unfold M_bind at 1.
  pose proof (setup_create_context wf rid (default ∅ inputs) m3) as Hsetup3.
  pose proof (trace_create_context wf rid (default ∅ inputs) m3) as Htr3.
  pose proof (breaker_create_context wf rid (default ∅ inputs) m3) as Hb3.
  pose proof (store_create_context wf rid (default ∅ inputs) m3) as Hst3.
  destruct (create_context_fields wf rid (default ∅ inputs) m3)
    as (_ & Hagent & Hinputs & _).
  destruct (_create_context wf rid (default ∅ inputs) m3) as [ctx m4].
  simpl in *.
  unfold mbind at 1. unfold M_bind at 1.
  pose proof (setup_start_logging wf rid ctx m4) as Hsetup4.
  pose proof (trace_start_logging wf rid ctx m4) as Htr4.
  pose proof (breaker_start_logging wf rid ctx m4) as Hb4.
  pose proof (store_start_logging wf rid ctx m4) as Hst4.
  destruct (start_logging wf rid ctx m4) as [l m5]. simpl in *.
  unfold mbind at 1. unfold M_bind at 1.
  pose proof (setup_create_record wf rid t ctx inputs resume m5) as Hsetup5.
  pose proof (trace_create_record wf rid t ctx inputs resume m5) as Htr5.
  pose proof (breaker_create_record wf rid t ctx inputs resume m5) as Hb5.
  assert (Hcreated : fst (create_record wf rid t ctx inputs resume m5) = None).
  { assert (Hst : the_store m5 = the_store m1) by congruence.
    destruct (nonempty resume) eqn:Hr.
    - rewrite (create_record_resuming _ _ _ _ _ _ _ _ Hr). reflexivity.
    - destruct (the_store m1) as [store|] eqn:Es.
      + apply (create_record_new _ _ _ _ _ _ store); [congruence|exact Hfresh].
      + rewrite create_record_no_store by congruence. reflexivity. }
  destruct (create_record wf rid t ctx inputs resume m5) as [created m6].
  simpl in *. subst created.
  unfold mbind at 1. unfold M_bind at 1. unfold get_engine at 1.
  unfold _validate_execution.
  assert (Hsetup : the_setup m6 = the_setup m) by congruence.
  unfold the_setup in Hsetup. injection Hsetup as _ Hreg Hcfg _.
  rewrite Hreg, Hagent, Hinputs.
  assert (Hcfg3 : config_agent_primary (engine m3) = config_agent_primary (engine m)).
  { assert (Hs3 : the_setup m3 = the_setup m) by congruence.
    unfold the_setup in Hs3. injection Hs3 as _ _ Hc _. exact Hc. }
  rewrite Hcfg3.
  destruct (validation_errors _ _ _ _) as [|e es] eqn:Ev; [congruence|].
  unfold mbind, M_bind, mret, M_ret.
  exists rid, t, ctx, l, (e :: es), m6.
  destruct (fail_validation wf rid t ctx l (e :: es) m6). simpl.
  repeat split; congruence.
Qed.

(** C10. A run that the gate admits and that fails validation returns a
    failed result without running a step; the breaker is the one the
    gate's [can_execute()] left: neither [record_failure] nor
    [record_success] is called.  Its failure count, time stamp and
    threshold are as before the call; the [state] property reads the same
    before and after (the stored state differs only by the lazy
    Open -> HalfOpen move that the read itself makes); and the breaker is
    not Open. *)
Theorem validation_failure_spares_breaker wf inputs agent resume (m : Machine W) :
  fst (gate m) = true ->
  fresh_run wf resume (snd (gate m)) ->
  validation_errors (tool_registry (engine m)) wf
    (default "opencode"%string (config_agent_primary (engine m)))
    (default ∅ inputs) <> [] ->
  exists r,
    fst (execute wf inputs agent resume m) = inr r
    /\ WorkflowResult.status r = WorkflowStatus.FAILED
    /\ WorkflowResult.step_results r = []
    /\ trace (snd (execute wf inputs agent resume m)) = trace m
    /\ the_breaker (snd (execute wf inputs agent resume m))
       = the_breaker (snd (gate m))
    /\ match the_breaker m with
       | None => the_breaker (snd (execute wf inputs agent resume m)) = None
       | Some cb =>
           exists cb',
             the_breaker (snd (execute wf inputs agent resume m)) = Some cb'
             /\ _failure_count cb' = _failure_count cb
             /\ _last_failure_time cb' = _last_failure_time cb
             /\ failure_threshold cb' = failure_threshold cb
             /\ _state cb' <> OPEN
             /\ (cb' = cb \/ (_state cb = OPEN /\ _state cb' = HALF_OPEN))
             /\ exists t, cb' = snd (CB.can_execute cb t)
                          /\ fst (CB.state cb' t) = fst (CB.state cb t)
       end.
Proof.
  intros Hg Hfresh Hv.
  destruct (execute_invalid wf inputs agent resume m Hg Hfresh Hv)
    as (rid & t & ctx & l & v & m5 & Hex & Hb & Htr).
  rewrite Hex. simpl.
  destruct (fail_validation_result wf rid t ctx l v m5) as (Hs & Hr & _ & _).
  eexists. split; [reflexivity|].
  assert (Hfinal : the_breaker (snd (fail_validation wf rid t ctx l v m5))
                   = the_breaker (snd (gate m)))
    by (rewrite breaker_fail_validation; exact Hb).
  rewrite trace_fail_validation, Hfinal, Htr.
  repeat split; auto.
  pose proof (gate_breaker m) as Hgb.
  destruct (the_breaker m) as [cb|] eqn:Ebm.
  - destruct Hgb as (tq & Hok & Hcb). exists (snd (CB.can_execute cb tq)).
    destruct (can_execute_counts cb tq) as (Hth & Hc & Ht).
    rewrite Hok in Hg.
    split; [congruence|]. split; [exact Hc|]. split; [exact Ht|].
    split; [exact Hth|]. split; [apply can_execute_admits; exact Hg|].
    split; [apply can_execute_moves|].
    exists tq. split; [reflexivity|apply state_read_twice].
  - rewrite Hgb. exact Ebm.
Qed.

End Validation.

(** ** The early returns, run *)

Lemma circuit_open_refusal_witness :
  fst (gate Scenario.tripped) = false
  /\ exists r,
      fst (execute (Demo.workflow []) None None None Scenario.tripped) = inr r
      /\ WorkflowResult.status r = WorkflowStatus.FAILED
      /\ WorkflowResult.error r = Some circuit_open_error
      /\ WorkflowResult.step_results r = []
      /\ the_store (snd (execute (Demo.workflow []) None None None Scenario.tripped))
         = the_store Scenario.tripped
      /\ the_logger (snd (execute (Demo.workflow []) None None None Scenario.tripped))
         = the_logger Scenario.tripped
      /\ trace (snd (execute (Demo.workflow []) None None None Scenario.tripped))
         = trace Scenario.tripped
      /\ Py.contains "Circuit breaker is open" circuit_open_error = true
      /\ Py.contains "circuit" (Py.lower circuit_open_error) = true.
Proof.
  split; [reflexivity|].
  apply (circuit_open_refusal (Demo.workflow []) None None None Scenario.tripped).
  reflexivity.
Defined.

(** C6 as stated fails on the marker: the error of the refusal is
    "Circuit breaker is open - too many recent failures", in which
    "circuit" does not occur. *)
Lemma circuit_marker_is_capitalised :
  (exists r,
     fst (execute (Demo.workflow []) None None None Scenario.tripped) = inr r
     /\ WorkflowResult.status r = WorkflowStatus.FAILED
     /\ WorkflowResult.error
          r = Some "Circuit breaker is open - too many recent failures"%string)
  /\ Py.contains "circuit" "Circuit breaker is open - too many recent failures"
     = false.
Proof.
  split; [|reflexivity].
  eexists. split; [vm_compute; reflexivity|]. split; reflexivity.
Qed.

Lemma validation_failure_spares_breaker_witness :
  fst (gate Scenario.recovering) = true
  /\ exists r,
      fst (execute Scenario.needs_x None None None Scenario.recovering) = inr r
      /\ WorkflowResult.status r = WorkflowStatus.FAILED
      /\ WorkflowResult.step_results r = []
      /\ trace (snd (execute Scenario.needs_x None None None Scenario.recovering))
         = trace Scenario.recovering
      /\ the_breaker (snd (execute Scenario.needs_x None None None Scenario.recovering))
         = the_breaker (snd (gate Scenario.recovering))
      /\ match the_breaker Scenario.recovering with
         | None =>
             the_breaker
               (snd (execute Scenario.needs_x None None None Scenario.recovering))
             = None
         | Some cb =>
             exists cb',
               the_breaker
                 (snd (execute Scenario.needs_x None None None Scenario.recovering))
               = Some cb'
               /\ _failure_count cb' = _failure_count cb
               /\ _last_failure_time cb' = _last_failure_time cb
               /\ failure_threshold cb' = failure_threshold cb
               /\ _state cb' <> OPEN
               /\ (cb' = cb \/ (_state cb = OPEN /\ _state cb' = HALF_OPEN))
               /\ exists t, cb' = snd (CB.can_execute cb t)
                            /\ fst (CB.state cb' t) = fst (CB.state cb t)
         end.
Proof.
  split; [reflexivity|].
  apply (validation_failure_spares_breaker Scenario.needs_x None None None
           Scenario.recovering).
  - reflexivity.
  - vm_compute. reflexivity.
  - vm_compute. discriminate.
Defined.

(** C10 as stated fails for a breaker that is due for
    recovery: the run below fails validation, and the breaker that was Open
    before the call is HalfOpen after it, its two failures still counted
    and its time stamp kept.  The write is the one of the gate's
    [can_execute()]. *)
Lemma validation_failure_on_recovering_breaker :
  (exists r,
     fst (execute Scenario.needs_x None None None Scenario.recovering) = inr r
     /\ WorkflowResult.status r = WorkflowStatus.FAILED
     /\ WorkflowResult.error r
        = Some "Validation failed: Required input not provided: x"%string)
  /\ (_state <$> the_breaker Scenario.recovering) = Some OPEN
  /\ (_state <$> the_breaker
        (snd (execute Scenario.needs_x None None None Scenario.recovering)))
     = Some HALF_OPEN
  /\ (_failure_count <$> the_breaker
        (snd (execute Scenario.needs_x None None None Scenario.recovering)))
     = Some 2
  /\ (_last_failure_time <$> the_breaker
        (snd (execute Scenario.needs_x None None None Scenario.recovering)))
     = (_last_failure_time <$> the_breaker Scenario.recovering).
Proof.
  split.
  - eexists. split; [vm_compute; reflexivity|]. split; reflexivity.
  - vm_compute. auto.
Qed.

(** ** Conditions *)

Section Conditions.

Context {W : Type} `{Host W}.

#[local] Existing Instance M_ret.
#[local] Existing Instance M_bind.








End Conditions.


(** The conditions of the comparison forms, run. *)
Example conditions_run :
  map (fun c => _evaluate_conditions [c] Scenario.blank_context)
    ["a == a"; " a==a "; "a == b"; "2 >= 1.5"; "1 >= 2"; "x >= 1"; "ready"]%string
  = [true; true; false; true; false; false; true].
Proof. vm_compute. reflexivity. Qed.

(** Comparisons that meet a nan never skip, an infinity compares as the
    largest or the smallest number, and [float()] reads exponents,
    underscores between digits and numbers out of range. *)
Example conditions_with_special_floats :
  map (fun c => _evaluate_conditions [c] Scenario.blank_context)
    ["nan >= 1"; "1 >= nan"; "inf >= 1e400"; "1e1 >= 1_0"; "-inf >= 1";
     "1 >= inf"; "Infinity >= 7"; "1e400 >= 2"; "2 >= -1e400"; ".5 >= 1.";
     "1. >= .5"; "0x10 >= 1"; "1 >= 1e"; "1 >= 2 == 3"]%string
  = [true; true; true; true; false;
     false; true; true; true; false;
     true; false; false; false].
Proof. vm_compute. reflexivity. Qed.

(** [strip()] removes the no-break space (code point 160) and the next-line
    control (code point 133) like any other white space. *)
Example conditions_strip_white_space :
  map (fun c => _evaluate_conditions [c] Scenario.blank_context)
    [String "160" ("2" +:+ String "160" (">=" +:+ String "133" "1.5"));
     "a" +:+ String "160" ("==" +:+ String "160" "a ")]%string
  = [true; true].
Proof. vm_compute. reflexivity. Qed.

(** ** What the engine asks of its collaborators *)

Section Emits.

Context {W : Type} `{Host W}.

#[local] Existing Instance M_ret.
#[local] Existing Instance M_bind.

Lemma emits_quiet {A} (c : M A) (P : Event -> Prop) :
  preserves (W := W) c trace -> emits c P.
Proof.
  intros Hc m. exists []. rewrite Hc, app_nil_r. split; [reflexivity|constructor].
Qed.

Lemma emits_ret {A} (a : A) (P : Event -> Prop) : emits (W := W) (mret a) P.
Proof. apply emits_quiet, preserves_ret. Qed.

Lemma emits_bind {A B} (c : M A) (k : A -> M B) (P : Event -> Prop) :
  emits (W := W) c P -> (forall a, emits (k a) P) -> emits (c ≫= k) P.
Proof.
  intros Hc Hk m. unfold mbind, M_bind. destruct (Hc m) as (e1 & H1 & F1).
  destruct (c m) as [a m1]. simpl in H1.
  destruct (Hk a m1) as (e2 & H2 & F2).
  exists (e1 ++ e2). rewrite H2, H1, app_assoc. split; [reflexivity|].
  apply Forall_app. auto.
Qed.

Lemma emits_emit (e : Event) (P : Event -> Prop) : P e -> emits (W := W) (emit e) P.
Proof.
  intros He m. exists [e]. split; [reflexivity|]. constructor; [exact He|constructor].
Qed.

Lemma emits_weaken {A} (c : M A) (P Q : Event -> Prop) :
  (forall e, P e -> Q e) -> emits (W := W) c P -> emits c Q.
Proof.
  intros HPQ Hc m. destruct (Hc m) as (evs & Ht & F). exists evs.
  split; [exact Ht|]. eapply Forall_impl; eauto.
Qed.

End Emits.

(** Splits an [emits] goal along the code; what engine code does without
    its collaborators is settled by the frame lemmas. *)
Ltac emits_step :=
  lazymatch goal with
  | |- emits (mbind _ _) _ => apply emits_bind; [|intros ?]
  | |- emits (mret _) _ => apply emits_ret
  | |- emits (emit _) _ => apply emits_emit
  | |- emits (match ?x with _ => _ end) _ => destruct x eqn:?
  | |- emits (if ?x then _ else _) _ => destruct x eqn:?
  | |- emits _ _ => apply emits_quiet; solve [frame]
  end.

Ltac emits_all := repeat emits_step.

Section EngineEmits.

Context {W : Type} `{Host W}.

#[local] Existing Instance M_ret.
#[local] Existing Instance M_bind.

Lemma trace_deliver_cancel b : preserves (W := W) (deliver_cancel b) trace.
Proof. unfold deliver_cancel, cancel. frame. Qed.

Lemma trace_policy_get_delay p a : preserves (W := W) (policy_get_delay p a) trace.
Proof. unfold policy_get_delay. frame. Qed.

Lemma trace_save_step_checkpoint rid i step sr :
  preserves (W := W) (save_step_checkpoint rid i step sr) trace.
Proof. unfold save_step_checkpoint. frame. Qed.

Lemma trace_log_step_completion l i step sr :
  preserves (W := W) (log_step_completion l i step sr) trace.
Proof. unfold log_step_completion. frame; apply trace_log_append. Qed.

Lemma emits_agent_task step inputs context :
  emits (W := W) (_execute_agent_task step inputs context)
    (fun e => event_index e = ExecutionContext.current_step_index context).
Proof.
  unfold _execute_agent_task. emits_all; try reflexivity.
  apply emits_quiet, trace_deliver_cancel.
Qed.

Lemma emits_tool_call step inputs context :
  emits (W := W) (_execute_tool_call step inputs context)
    (fun e => event_index e = ExecutionContext.current_step_index context).
Proof.
  unfold _execute_tool_call. emits_all; try reflexivity.
  apply emits_quiet, trace_deliver_cancel.
Qed.

Lemma emits_attempt_step step context :
  emits (W := W) (attempt_step step context)
    (fun e => event_index e = ExecutionContext.current_step_index context).
Proof.
  unfold attempt_step. emits_all.
  - apply emits_agent_task.
  - apply emits_tool_call.
Qed.

Lemma emits_retry_loop step context log t0 mr n :
  forall a le,
    emits (W := W) (retry_loop step context log t0 mr n a le)
      (fun e => event_index e = ExecutionContext.current_step_index context).
Proof.
  induction n as [|n IH]; intros a le; simpl.
  - emits_all.
  - apply emits_bind; [apply emits_attempt_step|]. intros [e|v].
    + apply emits_bind; [|intros [e'|]; [emits_all|apply IH]].
      unfold wait_before_retry. emits_all; try reflexivity.
      * apply emits_quiet, trace_policy_get_delay.
      * apply emits_quiet, trace_log_append.
      * apply emits_quiet, trace_deliver_cancel.
    + emits_all.
Qed.

Lemma emits_execute_step_with_retry step context log :
  emits (W := W) (_execute_step_with_retry step context log)
    (fun e => event_index e = ExecutionContext.current_step_index context).
Proof.
  unfold _execute_step_with_retry. emits_all. apply emits_retry_loop.
Qed.

Lemma emits_loop_body wf rid log i step context rs :
  emits (W := W) (loop_body wf rid log i step context rs)
    (fun e => event_index e = i).
Proof.
  unfold loop_body.
  apply emits_bind; [apply emits_quiet, trace_log_append|]. intros _.
  destruct (negb _).
  - emits_all.
  - apply emits_bind; [apply emits_execute_step_with_retry|].
    intros [e|sr]; [emits_all|].
    apply emits_bind; [apply emits_quiet, trace_save_step_checkpoint|]. intros _.
    apply emits_bind; [apply emits_quiet, trace_log_step_completion|]. intros _.
    unfold _rollback. emits_all.
Qed.

Lemma emits_step_loop wf rid start log steps :
  forall i context rs,
    emits (W := W) (step_loop wf rid start log i steps context rs)
      (fun e => start <= event_index e /\ i <= event_index e).
Proof.
  induction steps as [|step rest IH]; intros i context rs; simpl.
  - emits_all.
  - destruct (i <? start) eqn:Hlt.
    + eapply emits_weaken; [|apply IH]. simpl. intros e [? ?]. lia.
    + apply Z.ltb_ge in Hlt. apply emits_bind.
      * eapply emits_weaken; [|apply emits_loop_body]. simpl. intros e ->. lia.
      * intros [x|c' rs'|e c' rs']; [emits_all| |emits_all].
        eapply emits_weaken; [|apply IH]. simpl. intros e [? ?]. lia.
Qed.

Lemma emits_run_steps wf rid start t0 context log :
  emits (W := W) (run_steps wf rid start t0 context log)
    (fun e => start <= event_index e /\ 0 <= event_index e).
Proof.
  unfold run_steps.
  apply emits_bind; [apply emits_quiet; frame|]. intros _.
  apply emits_bind; [apply emits_step_loop|]. intros x.
  emits_all. apply emits_quiet, trace_finalize.
Qed.

End EngineEmits.

(** ** Run ids *)

Module StringFacts.

Lemma app_cons c a b : String c a +:+ b = String c (a +:+ b).
Proof. reflexivity. Qed.

Lemma app_assoc a b c : (a +:+ b) +:+ c = a +:+ (b +:+ c).
Proof.
  induction a as [|x a IH]; [reflexivity|].
  rewrite !app_cons, IH. reflexivity.
Qed.

Lemma length_app a b :
  String.length (a +:+ b) = (String.length a + String.length b)%nat.
Proof.
  induction a as [|x a IH]; [reflexivity|].
  rewrite app_cons. cbn [String.length]. rewrite IH. reflexivity.
Qed.

Lemma all_chars_app p a b :
  Py.all_chars p (a +:+ b) = Py.all_chars p a && Py.all_chars p b.
Proof.
  induction a as [|x a IH]; [reflexivity|].
  rewrite app_cons. cbn [Py.all_chars]. rewrite IH. apply andb_assoc.
Qed.

Lemma digit_is_digit z : 0 <= z < 10 -> Py.is_digit (Py.digit z) = true.
Proof.
  intros Hz. assert (Hn : (Z.to_nat z < 10)%nat) by lia.
  unfold Py.digit. destruct (Z.to_nat z) as [|n]; [reflexivity|].
  do 9 (destruct n as [|n]; [reflexivity|]). lia.
Qed.

Lemma hex_digit_is_hex z : 0 <= z < 16 -> Py.is_hex_digit (Py.hex_digit z) = true.
Proof.
  intros Hz. assert (Hn : (Z.to_nat z < 16)%nat) by lia.
  assert (Hz' : z = Z.of_nat (Z.to_nat z)) by lia. rewrite Hz'.
  destruct (Z.to_nat z) as [|n]; [reflexivity|].
  do 15 (destruct n as [|n]; [reflexivity|]). lia.
Qed.

Lemma digits_length n : forall z, String.length (Py.digits n z) = n.
Proof.
  induction n as [|n IH]; intros z; [reflexivity|].
  cbn [Py.digits]. rewrite length_app, IH. cbn [String.length]. lia.
Qed.

Lemma digits_all n : forall z, Py.all_chars Py.is_digit (Py.digits n z) = true.
Proof.
  induction n as [|n IH]; intros z; [reflexivity|].
  cbn [Py.digits]. rewrite all_chars_app, IH. cbn [Py.all_chars andb].
  rewrite digit_is_digit; [reflexivity|]. apply Z.mod_pos_bound. lia.
Qed.

Lemma hex_length n : forall z, String.length (Py.hex n z) = n.
Proof.
  induction n as [|n IH]; intros z; [reflexivity|].
  cbn [Py.hex]. rewrite length_app, IH. cbn [String.length]. lia.
Qed.

Lemma hex_all n : forall z, Py.all_chars Py.is_hex_digit (Py.hex n z) = true.
Proof.
  induction n as [|n IH]; intros z; [reflexivity|].
  cbn [Py.hex]. rewrite all_chars_app, IH. cbn [Py.all_chars andb].
  rewrite hex_digit_is_hex; [reflexivity|]. apply Z.mod_pos_bound. lia.
Qed.

Lemma take_length n : forall s,
  (n <= String.length s)%nat -> String.length (Py.take n s) = n.
Proof.
  induction n as [|n IH]; intros s Hs; [reflexivity|].
  destruct s as [|c s]; simpl in *; [lia|]. rewrite IH; lia.
Qed.

Lemma take_all p n : forall s,
  Py.all_chars p s = true -> Py.all_chars p (Py.take n s) = true.
Proof.
  induction n as [|n IH]; intros s Hs; [reflexivity|].
  destruct s as [|c s]; simpl in *; [reflexivity|].
  apply andb_true_iff in Hs. destruct Hs as [Hc Hs].
  rewrite Hc, IH; auto.
Qed.

(** A year of four digits prints as its four digits. *)
Lemma decimal_four_digits y : 1000 <= y <= 9999 -> Py.decimal y = Py.digits 4 y.
Proof.
  intros Hy. unfold Py.decimal.
  assert (Hf : exists f, S (Z.to_nat y) = S (S (S (S f)))).
  { exists (Z.to_nat y - 3)%nat. lia. }
  destruct Hf as [f ->]. cbn [Py.decimal_fuel Py.digits].
  assert (H1 : (y <? 10) = false) by (apply Z.ltb_ge; lia).
  assert (H2 : (y / 10 <? 10) = false).
  { apply Z.ltb_ge. apply Z.div_le_lower_bound; lia. }
  assert (H3 : (y / 10 / 10 <? 10) = false).
  { apply Z.ltb_ge. apply Z.div_le_lower_bound; [lia|].
    apply Z.div_le_lower_bound; lia. }
  assert (H4 : (y / 10 / 10 / 10 <? 10) = true).
  { apply Z.ltb_lt. apply Z.div_lt_upper_bound; [lia|].
    apply Z.div_lt_upper_bound; [lia|]. apply Z.div_lt_upper_bound; lia. }
  rewrite H1, H2, H3, H4.
  assert (H5 : 0 <= y / 10 / 10 / 10).
  { repeat (apply Z.div_pos; [|lia]). lia. }
  apply Z.ltb_lt in H4. rewrite (Z.mod_small (y / 10 / 10 / 10) 10) by lia.
  reflexivity.
Qed.

Lemma strftime_run_split t :
  1000 <= year t <= 9999 ->
  exists date time,
    strftime_run t = date +:+ "-" +:+ time
    /\ String.length date = 8%nat
    /\ Py.all_chars Py.is_digit date = true
    /\ String.length time = 6%nat
    /\ Py.all_chars Py.is_digit time = true.
Proof.
  intros Hy.
  exists (Py.digits 4 (year t) +:+ Py.digits 2 (month t) +:+ Py.digits 2 (day t)).
  exists (Py.digits 2 (hour t) +:+ Py.digits 2 (minute t) +:+ Py.digits 2 (second t)).
  unfold strftime_run. rewrite (decimal_four_digits _ Hy).
  rewrite !app_assoc, !length_app, !all_chars_app, !digits_length, !digits_all.
  repeat split; reflexivity.
Qed.

End StringFacts.

Section RunIds.

Context {W : Type} `{Host W}.

#[local] Existing Instance M_ret.
#[local] Existing Instance M_bind.

(** A generated run id has the documented form, when the clock shows a
    year of four digits. *)
Lemma generate_run_id_form workflow_id (m : Machine W) :
  1000 <= year (fst (datetime_now (world m))) <= 9999 ->
  run_id_form workflow_id (fst (_generate_run_id workflow_id m)).
Proof.
  intros Hy.
  unfold _generate_run_id, mbind, M_bind, mret, M_ret, now, call_world.
  destruct (datetime_now (world m)) as [t w1]. simpl in *.
  destruct (uuid4 w1) as [u w2]. simpl.
  destruct (StringFacts.strftime_run_split t Hy)
    as (date & time & E & Hd1 & Hd2 & Ht1 & Ht2).
  exists date, time, (Py.take 8 (Py.hex 32 u)).
  rewrite E, !StringFacts.app_assoc.
  repeat split; auto;
    first [ apply StringFacts.take_all, StringFacts.hex_all
          | apply StringFacts.take_length; rewrite StringFacts.hex_length; lia ].
Qed.

Lemma determine_run_resumed wf resume r store (m : Machine W) :
  nonempty resume = Some r ->
  the_store m = Some store ->
  determine_run wf resume m = ((r, StateStore.get_resume_point store r), m).
Proof.
  unfold the_store. intros Hr Hs.
  unfold determine_run, mbind, M_bind, mret, M_ret, get_engine.
  rewrite Hr, Hs. reflexivity.
Qed.

Lemma determine_run_fresh wf resume (m : Machine W) :
  nonempty resume = None \/ the_store m = None ->
  fst (determine_run wf resume m)
  = (fst (_generate_run_id (Workflow.id wf) m), 0).
Proof.
  unfold the_store. intros Hc.
  unfold determine_run, mbind, M_bind, mret, M_ret, get_engine.
  destruct Hc as [-> | ->].
  - destruct (_generate_run_id (Workflow.id wf) m). reflexivity.
  - destruct (nonempty resume); destruct (_generate_run_id (Workflow.id wf) m);
      reflexivity.
Qed.

End RunIds.

(** ** An admitted run *)

Section Admitted_run.

Context {W : Type} `{Host W}.

#[local] Existing Instance M_ret.
#[local] Existing Instance M_bind.

(** [execute] on a run that the gate admits: the run id and start point
    are those of [determine_run], the context starts without variables,
    and the run either fails validation or goes through its steps. *)
Lemma execute_admitted wf inputs agent resume (m : Machine W) :
  fst (gate m) = true ->
  fresh_run wf resume (snd (gate m)) ->
  exists rid start t ctx l m5,
    fst (determine_run wf resume (snd (gate m))) = (rid, start)
    /\ trace m5 = trace m
    /\ the_setup m5 = the_setup m
    /\ ExecutionContext.variables ctx = ∅
    /\ ExecutionContext.inputs ctx = default ∅ inputs
    /\ execute wf inputs agent resume m
       = match validation_errors (tool_registry (engine m)) wf
                 (default "opencode"%string (config_agent_primary (engine m)))
                 (default ∅ inputs) with
         | [] =>
             (inr (fst (run_steps wf rid start t ctx l m5)),
              snd (run_steps wf rid start t ctx l m5))
         | e :: es =>
             (inr (fst (fail_validation wf rid t ctx l (e :: es) m5)),
              snd (fail_validation wf rid t ctx l (e :: es) m5))
         end.
Proof.
  intros Hg Hfresh. unfold execute.
  unfold mbind at 1. unfold M_bind at 1.
  pose proof (setup_gate m) as Hsetup0. pose proof (trace_gate m) as Htr0.
  destruct (gate m) as [allowed m1]. simpl in *. subst allowed. simpl.
  unfold mbind at 1. unfold M_bind at 1.
  pose proof (setup_determine_run wf resume m1) as Hsetup1.
  pose proof (trace_determine_run wf resume m1) as Htr1.
  pose proof (store_determine_run wf resume m1) as Hst1.
  unfold fresh_run in Hfresh.
  destruct (determine_run wf resume m1) as [[rid start] m2]. simpl in *.
  unfold mbind at 1. unfold M_bind at 1.
  pose proof (preserves_call_world datetime_now the_setup
                (fun _ _ _ _ => eq_refl) m2) as Hsetup2.
  pose proof (preserves_call_world datetime_now trace
                (fun _ _ _ _ => eq_refl) m2) as Htr2.
  pose proof (preserves_call_world datetime_now the_store
                (fun _ _ _ _ => eq_refl) m2) as Hst2.
  fold now in Hsetup2, Htr2, Hst2.
  destruct (now m2) as [t m3]. simpl in *.
  unfold mbind at 1. unfold M_bind at 1.
  pose proof (setup_create_context wf rid (default ∅ inputs) m3) as Hsetup3.
  pose proof (trace_create_context wf rid (default ∅ inputs) m3) as Htr3.
  pose proof (store_create_context wf rid (default ∅ inputs) m3) as Hst3.
  destruct (create_context_fields wf rid (default ∅ inputs) m3)
    as (_ & Hagent & Hinputs & Hvars).
  destruct (_create_context wf rid (default ∅ inputs) m3) as [ctx m4].
  simpl in *.
  unfold mbind at 1. unfold M_bind at 1.
  pose proof (setup_start_logging wf rid ctx m4) as Hsetup4.
  pose proof (trace_start_logging wf rid ctx m4) as Htr4.
  pose proof (store_start_logging wf rid ctx m4) as Hst4.
  destruct (start_logging wf rid ctx m4) as [l m5]. simpl in *.
  unfold mbind at 1. unfold M_bind at 1.
  pose proof (setup_create_record wf rid t ctx inputs resume m5) as Hsetup5.
  pose proof (trace_create_record wf rid t ctx inputs resume m5) as Htr5.
  assert (Hcreated : fst (create_record wf rid t ctx inputs resume m5) = None).
  { assert (Hst : the_store m5 = the_store m1) by congruence.
    destruct (nonempty resume) eqn:Hr.
    - rewrite (create_record_resuming _ _ _ _ _ _ _ _ Hr). reflexivity.
    - destruct (the_store m1) as [store|] eqn:Es.
      + apply (create_record_new _ _ _ _ _ _ store); [congruence|exact Hfresh].
      + rewrite create_record_no_store by congruence. reflexivity. }
  destruct (create_record wf rid t ctx inputs resume m5) as [created m6].
  simpl in *. subst created.
  unfold mbind at 1. unfold M_bind at 1. unfold get_engine at 1.
  unfold _validate_execution.
  assert (Hsetup : the_setup m6 = the_setup m) by congruence.
  pose proof Hsetup as Hsetup'.
  unfold the_setup in Hsetup. injection Hsetup as _ Hreg Hcfg _.
  rewrite Hreg, Hagent, Hinputs.
  assert (Hcfg3 : config_agent_primary (engine m3) = config_agent_primary (engine m)).
  { assert (Hs3 : the_setup m3 = the_setup m) by congruence.
    unfold the_setup in Hs3. injection Hs3 as _ _ Hc _. exact Hc. }
  rewrite Hcfg3.
  exists rid, start, t, ctx, l, m6.
  split; [reflexivity|]. split; [congruence|]. split; [exact Hsetup'|].
  split; [exact Hvars|]. split; [exact Hinputs|].
  destruct (validation_errors _ _ _ _) as [|e es] eqn:Ev.
  - unfold mbind, M_bind, mret, M_ret.
    destruct (run_steps wf rid start t ctx l m6). reflexivity.
  - unfold mbind, M_bind, mret, M_ret.
    destruct (fail_validation wf rid t ctx l (e :: es) m6). reflexivity.
Qed.

Lemma run_steps_result wf rid start t ctx l (m : Machine W) :
  exists x m1 t',
    step_loop wf rid start l 0 (Workflow.steps wf) ctx []
      (snd (set_running true m)) = (x, m1)
    /\ fst (run_steps wf rid start t ctx l m)
       = WorkflowResult.mk rid (Workflow.id wf)
           (ExecutionContext.agent_name (exit_context x))
           (exit_final_status x) (exit_step_results x)
           (Some (ExecutionContext.variables (exit_context x)))
           (exit_error_message x) t t'.
Proof.
  unfold run_steps, mbind, M_bind, mret, M_ret.
  destruct (set_running true m) as [[] m0]. simpl.
  destruct (step_loop wf rid start l 0 (Workflow.steps wf) ctx [] m0) as [x m1].
  run_calls. simpl. eauto.
Qed.

End Admitted_run.

(** C5 as stated fails when the store has no record for [resume_from]: the
    run id is still [resume_from], not a freshly generated one. *)
Lemma resume_without_record_reuses_run_id :
  (exists store,
     the_store Scenario.plain = Some store
     /\ StateStore.get_execution store "ghost" = None)
  /\ (exists r,
        fst (execute Scenario.guarded_by_word None None (Some "ghost"%string)
               Scenario.plain) = inr r
        /\ WorkflowResult.run_id r = "ghost"%string)
  /\ (run_id_form "wf" "ghost" -> False).
Proof.
  split; [|split].
  - eexists. split; reflexivity.
  - eexists. split; [vm_compute; reflexivity|]. reflexivity.
  - intros (d & t & u & E & _). discriminate E.
Qed.

(** A fresh run id, run. *)
Example fresh_run_id :
  fst (_generate_run_id "wf" Scenario.plain) = "wf-20240309-140507-01234abc"%string.
Proof. vm_compute. reflexivity. Qed.

(** ** Retries *)

Section Retries.

Context {W : Type} `{Host W}.

#[local] Existing Instance M_ret.
#[local] Existing Instance M_bind.

Lemma sleeps_app e1 e2 : sleeps (e1 ++ e2) = sleeps e1 ++ sleeps e2.
Proof. unfold sleeps. apply omap_app. Qed.

Lemma dispatches_app e1 e2 :
  dispatches (e1 ++ e2) = (dispatches e1 + dispatches e2)%nat.
Proof. unfold dispatches. rewrite List.filter_app, length_app. reflexivity. Qed.

Lemma setup_deliver_cancel b : preserves (W := W) (deliver_cancel b) the_setup.
Proof. unfold deliver_cancel, cancel. frame. Qed.

Lemma setup_policy_get_delay p a : preserves (W := W) (policy_get_delay p a) the_setup.
Proof. unfold policy_get_delay. frame. Qed.

Lemma agent_task_dispatches step inputs context :
  dispatches_once (W := W) (fun m => is_Some (agent_adapter (engine m)))
    (_execute_agent_task step inputs context).
Proof.
  intros m. unfold _execute_agent_task, mbind, M_bind, mret, M_ret, get_engine.
  destruct (agent_adapter (engine m)) as [adapter|].
  - unfold emit, call_world. simpl.
    destruct (AgentAdapter.execute_step adapter step context (world m)) as [o w].
    match goal with
    | |- context [deliver_cancel ?b ?mm] =>
        pose proof (trace_deliver_cancel b mm) as Ht;
        pose proof (setup_deliver_cancel b mm) as Hs;
        destruct (deliver_cancel b mm) as [[] m1]
    end.
    simpl in *. eexists. split; [exact Ht|].
    split; [reflexivity|]. split; [unfold dispatches; simpl; lia|].
    split; [reflexivity|exact Hs].
  - exists []. rewrite app_nil_r. simpl.
    split; [reflexivity|]. split; [reflexivity|].
    split; [unfold dispatches; simpl; lia|].
    split; [intros [? Hx]; discriminate|reflexivity].
Qed.

Lemma tool_call_dispatches step inputs context :
  dispatches_once (W := W)
    (fun m => exists registry,
                tool_registry (engine m) = Some registry
                /\ is_Some (ToolRegistry.get_tool registry
                              (WorkflowStep.get_tool_name step)
                              (ExecutionContext.agent_name context)))
    (_execute_tool_call step inputs context).
Proof.
  intros m. unfold _execute_tool_call, mbind, M_bind, mret, M_ret, get_engine.
  destruct (tool_registry (engine m)) as [registry|].
  - destruct (ToolRegistry.get_tool registry _ _) as [tool|] eqn:Etool.
    + unfold emit, call_world. simpl.
      destruct (Tool.execute tool _ inputs (world m)) as [o w].
      match goal with
      | |- context [deliver_cancel ?b ?mm] =>
          pose proof (trace_deliver_cancel b mm) as Ht;
          pose proof (setup_deliver_cancel b mm) as Hs;
          destruct (deliver_cancel b mm) as [[] m1]
      end.
      simpl in *. eexists. split; [exact Ht|].
      split; [reflexivity|]. split; [unfold dispatches; simpl; lia|].
      split; [reflexivity|exact Hs].
    + exists []. rewrite app_nil_r. simpl.
      split; [reflexivity|]. split; [reflexivity|].
      split; [unfold dispatches; simpl; lia|].
      split; [|reflexivity].
      intros (r & Hr & [t Ht]). injection Hr as <-. congruence.
  - exists []. rewrite app_nil_r. simpl.
    split; [reflexivity|]. split; [reflexivity|].
    split; [unfold dispatches; simpl; lia|].
    split; [|reflexivity].
    intros (r & Hr & _). discriminate.
Qed.

Lemma attempt_step_dispatches step context :
  dispatches_once (W := W) (reaches_collaborator step context)
    (attempt_step step context).
Proof.
  intros m. unfold attempt_step, reaches_collaborator.
  destruct (_resolve_inputs _ _) as [e|resolved].
  - exists []. rewrite app_nil_r. simpl.
    split; [reflexivity|]. split; [reflexivity|].
    split; [unfold dispatches; simpl; lia|].
    split; [|reflexivity].
    intros [[r Hr] _]. discriminate.
  - destruct (Py.startswith _ _).
    + destruct (agent_task_dispatches step resolved context m)
        as (evs & Ht & Hsl & Hle & Hone & Hs).
      exists evs. repeat split; auto. intros [_ Hr]. auto.
    + destruct (tool_call_dispatches step resolved context m)
        as (evs & Ht & Hsl & Hle & Hone & Hs).
      exists evs. repeat split; auto. intros [_ Hr]. auto.
Qed.


Lemma logger_deliver_cancel b : preserves (W := W) (deliver_cancel b) the_logger.
Proof. unfold deliver_cancel, cancel. frame. Qed.

Lemma logger_policy_get_delay p a : preserves (W := W) (policy_get_delay p a) the_logger.
Proof. unfold policy_get_delay. frame. Qed.




(** What [get_delay] comes to inside the engine. *)
Lemma policy_get_delay_effect p a (m : Machine W) :
  match get_delay_raises p a with
  | Some e => policy_get_delay p a m = (inl e, m)
  | None => exists u, fst (policy_get_delay p a m) = inr (get_delay p a u)
  end.
Proof.
  unfold policy_get_delay. destruct (get_delay_raises p a); [reflexivity|].
  destruct (Num.ltb 0 _).
  - unfold mbind, M_bind, mret, M_ret, call_world.
    destruct (random_random (world m)) as [u w]. exists u. reflexivity.
  - exists 0%Q. reflexivity.
Qed.

(** An entry appended to the log of [rid], on an engine with a logger. *)
Lemma log_append_delays rid e (m : Machine W) :
  is_Some (the_logger m) ->
  is_Some (the_logger (snd (log_append (Some rid) e m)))
  /\ retrying_delays (snd (log_append (Some rid) e m)) rid
     = retrying_delays m rid
       ++ match retrying_delay e with Some d => [d] | None => [] end.
Proof.
  intros [lg Hlg]. unfold retrying_delays, the_logger in *.
  unfold log_append, set_execution_logger, mbind, M_bind, mret, M_ret,
    get_engine, put_engine.
  simpl. rewrite Hlg. simpl. split; [eauto|].
  rewrite lookup_insert_eq. simpl. rewrite omap_app. simpl.
  destruct (retrying_delay e); reflexivity.
Qed.

(** The wait between two attempts: [get_delay(attempt + 1)] raises, and
    nothing else happens, or there is one sleep of that delay, logged
    before it is slept. *)
Lemma wait_before_retry_effect step context log mr a (m : Machine W) :
  match get_delay_raises (retry_policy (engine m)) (a + 1) with
  | Some e => wait_before_retry step context log mr a m = (Some e, m)
  | None =>
      exists u m1,
        wait_before_retry step context log mr a m = (None, m1)
        /\ trace m1
           = trace m ++ [EvSleep (ExecutionContext.current_step_index context)
                           (get_delay (retry_policy (engine m)) (a + 1) u)]
        /\ the_setup m1 = the_setup m
        /\ (forall rid,
              log = Some rid ->
              is_Some (the_logger m) ->
              is_Some (the_logger m1)
              /\ retrying_delays m1 rid
                 = retrying_delays m rid
                   ++ [get_delay (retry_policy (engine m)) (a + 1) u])
  end.
Proof.
  pose proof (policy_get_delay_effect (retry_policy (engine m)) (a + 1) m) as Hd.
  destruct (get_delay_raises (retry_policy (engine m)) (a + 1)) as [e|].
  - unfold wait_before_retry.
    unfold mbind at 1. unfold M_bind at 1. unfold get_engine at 1.
    unfold mbind at 1. unfold M_bind at 1.
    rewrite Hd. reflexivity.
  - destruct Hd as [u Hd]. unfold wait_before_retry.
    unfold mbind at 1. unfold M_bind at 1. unfold get_engine at 1.
    unfold mbind at 1. unfold M_bind at 1.
    pose proof (trace_policy_get_delay (retry_policy (engine m)) (a + 1) m) as Ht1.
    pose proof (setup_policy_get_delay (retry_policy (engine m)) (a + 1) m) as Hs1.
    pose proof (logger_policy_get_delay (retry_policy (engine m)) (a + 1) m) as Hl1.
    destruct (policy_get_delay (retry_policy (engine m)) (a + 1) m) as [delay m1].
    simpl in *. subst delay.
    unfold mbind at 1. unfold M_bind at 1.
    match goal with
    | |- context [log_append ?l ?e m1] =>
        pose proof (trace_log_append l e m1) as Ht2;
        pose proof (setup_log_append l e m1) as Hs2;
        destruct (log_append l e m1) as [[] m2] eqn:Elog
    end.
    simpl in Ht2, Hs2.
    unfold mbind at 1. unfold M_bind at 1. unfold emit at 1.
    unfold mbind at 1. unfold M_bind at 1. unfold call_world at 1. simpl.
    destruct (asyncio_sleep _ (world m2)) as [c w3].
    unfold mbind at 1. unfold M_bind at 1.
    match goal with
    | |- context [deliver_cancel ?b ?mm] =>
        pose proof (trace_deliver_cancel b mm) as Ht3;
        pose proof (setup_deliver_cancel b mm) as Hs3;
        pose proof (logger_deliver_cancel b mm) as Hl3;
        destruct (deliver_cancel b mm) as [[] m3]
    end.
    simpl in *. exists u, m3. split; [reflexivity|].
    split; [rewrite Ht3; congruence|].
    split; [rewrite Hs3; unfold the_setup in *; simpl; congruence|].
    intros rid -> Hlg.
    assert (Hlg1 : is_Some (the_logger m1)) by (rewrite Hl1; exact Hlg).
    match type of Elog with
    | log_append _ ?e _ = _ => pose proof (log_append_delays rid e m1 Hlg1) as Hl2
    end.
    rewrite Elog in Hl2. simpl in Hl2. destruct Hl2 as [Hsome Hdel].
    assert (Hlog3 : the_logger m3 = the_logger m2) by (rewrite Hl3; reflexivity).
    split; [rewrite Hlog3; exact Hsome|].
    unfold retrying_delays in *. rewrite Hlog3, Hdel, Hl1. reflexivity.
Qed.

Lemma retry_loop_S step context log t0 mr n a le (m : Machine W) :
  retry_loop step context log t0 mr (S n) a le m
  = let '(r, m1) := attempt_step step context m in
    match r with
    | inr v =>
        let '(t, m2) := now m1 in
        (inr (StepResult.mk (WorkflowStep.id step) StepStatus.COMPLETED v None
                (Some t0) (Some t) a), m2)
    | inl e =>
        let '(raised, m2) :=
          (if a <? mr then wait_before_retry step context log mr a
           else mret None) m1 in
        match raised with
        | Some e' => (inl e', m2)
        | None => retry_loop step context log t0 mr n (a + 1) (Some e) m2
        end
    end.
Proof.
  cbn [retry_loop]. unfold mbind at 1. unfold M_bind at 1.
  destruct (attempt_step step context m) as [[e|v] m1]; [|reflexivity].
  unfold mbind at 1. unfold M_bind at 1.
  destruct (a <? mr); [|reflexivity].
  destruct (wait_before_retry step context log mr a m1) as [[e'|] m2];
    reflexivity.
Qed.

Lemma retry_loop_O step context log t0 mr a le (m : Machine W) :
  retry_loop step context log t0 mr O a le m
  = let '(t, m1) := now m in
    (inr (StepResult.mk (WorkflowStep.id step) StepStatus.FAILED VNone le
            (Some t0) (Some t) mr), m1).
Proof. reflexivity. Qed.

Lemma now_frames (m : Machine W) :
  trace (snd (now m)) = trace m /\ the_setup (snd (now m)) = the_setup m.
Proof.
  unfold now, call_world. destruct (datetime_now (world m)). split; reflexivity.
Qed.




End Retries.

Section RetryBudget.

Context {W : Type} `{Host W}.

#[local] Existing Instance M_ret.
#[local] Existing Instance M_bind.


Lemma execute_step_with_retry_unfold step context log (m : Machine W) :
  _execute_step_with_retry step context log m
  = let '(t0, m0) := now m in
    retry_loop step context log t0
      (Z.min (WorkflowStep.max_retries step) (max_retries (retry_policy (engine m0))))
      (Z.to_nat
         (Z.min (WorkflowStep.max_retries step)
            (max_retries (retry_policy (engine m0))) + 1))
      0 None m0.
Proof.
  unfold _execute_step_with_retry, mbind, M_bind, get_engine.
  destruct (now m). reflexivity.
Qed.



End RetryBudget.


(** In the flaky scenario every attempt reaches the tool, so the count of
    dispatches is exact there. *)
Example flaky_attempts_reach_the_tool :
  reaches_collaborator (Demo.step "s0" "t.a" [] None [] 3)
    Scenario.blank_context Scenario.flaky.
Proof.
  split; [eexists; reflexivity|].
  simpl. eexists. split; [reflexivity|]. vm_compute. eexists. reflexivity.
Qed.


(** ** Resuming a run *)

Module StoreFacts.

(** The first index whose checkpoint is not completed, when the ones
    before it are. *)
Lemma first_incomplete_after store rid (n : nat) :
  forall (fuel : nat) (i : Z),
    (forall j, i <= j < i + Z.of_nat n ->
               StateStore.completed_at_index store rid j = true) ->
    StateStore.completed_at_index store rid (i + Z.of_nat n) = false ->
    (n <= fuel)%nat ->
    StateStore.first_incomplete store rid fuel i = i + Z.of_nat n.
Proof.
  induction n as [|n IH]; intros fuel i Hdone Hstop Hfuel.
  - replace (i + Z.of_nat 0) with i in * by lia.
    destruct fuel as [|fuel]; simpl; [reflexivity|]. rewrite Hstop. reflexivity.
  - destruct fuel as [|fuel]; [lia|]. simpl.
    rewrite Hdone by lia.
    rewrite (IH fuel (i + 1)).
    + lia.
    + intros j Hj. apply Hdone. lia.
    + replace (i + 1 + Z.of_nat n) with (i + Z.of_nat (S n)) by lia. exact Hstop.
    + lia.
Qed.

(** A map that holds the keys [(rid, 0)], ..., [(rid, n - 1)] has at least
    [n] entries. *)
Lemma size_at_least {A} rid (n : nat) :
  forall (cps : gmap (string * Z) A),
    (forall j : nat, (j < n)%nat -> is_Some (cps !! (rid, Z.of_nat j))) ->
    (n <= size cps)%nat.
Proof.
  induction n as [|n IH]; intros cps Hkeys; [lia|].
  destruct (Hkeys n ltac:(lia)) as [v Hv].
  rewrite <- (insert_delete_id cps (rid, Z.of_nat n) v Hv).
  rewrite map_size_insert_None by apply lookup_delete_eq.
  apply le_n_S, IH. intros j Hj.
  rewrite lookup_delete_ne.
  - apply Hkeys. lia.
  - intros E. injection E as E. lia.
Qed.

Lemma completed_is_stored store rid j :
  StateStore.completed_at_index store rid j = true ->
  is_Some (StateStore.checkpoints store !! (rid, j)).
Proof.
  unfold StateStore.completed_at_index.
  destruct (StateStore.checkpoints store !! (rid, j)); [eauto|discriminate].
Qed.

(** The resume point of a run whose checkpoints for the indices [0..k]
    are completed and whose index [k + 1] has no completed checkpoint. *)
Lemma resume_point_after store rid (k : nat) :
  (forall j, 0 <= j <= Z.of_nat k ->
             StateStore.completed_at_index store rid j = true) ->
  StateStore.completed_at_index store rid (Z.of_nat k + 1) = false ->
  StateStore.get_resume_point store rid = Z.of_nat k + 1.
Proof.
  intros Hdone Hstop. unfold StateStore.get_resume_point.
  rewrite (first_incomplete_after store rid (S k)).
  - lia.
  - intros j Hj. apply Hdone. lia.
  - replace (0 + Z.of_nat (S k)) with (Z.of_nat k + 1) by lia. exact Hstop.
  - apply (size_at_least rid). intros j Hj.
    apply completed_is_stored, Hdone. lia.
Qed.

End StoreFacts.

Section Resume.

Context {W : Type} `{Host W}.

#[local] Existing Instance M_ret.
#[local] Existing Instance M_bind.

Lemma store_output_bound step sr c0 c :
  ExecutionContext.variables c = ExecutionContext.variables c0 ->
  bound_by step c0 (store_output step sr c).
Proof.
  intros Hc name. unfold store_output.
  destruct (WorkflowStep.output_variable step) as [ov|]; [|rewrite Hc; auto].
  destruct (StepResult.output sr); try (rewrite Hc; auto);
    (destruct (String.eqb ov ""); [rewrite Hc; auto|]);
    simpl; rewrite Hc;
    (destruct (decide (ov = name)) as [->|Hne];
     [auto|rewrite lookup_insert_ne by exact Hne; auto]).
Qed.

(** One iteration of the step loop binds at most the output variable of
    its step. *)
Lemma loop_body_bound wf rid log i step c0 rs (m : Machine W) :
  match fst (loop_body wf rid log i step c0 rs m) with
  | Break x => bound_by step c0 (exit_context x)
  | Next c _ => bound_by step c0 c
  | Raise _ c _ => bound_by step c0 c
  end.
Proof.
  unfold loop_body, mbind, M_bind, mret, M_ret.
  destruct (log_append log _ m) as [[] m1].
  destruct (negb _).
  - run_calls. simpl. intros name. simpl. auto.
  - destruct (_execute_step_with_retry step _ log m1) as [[e|sr] m2].
    { simpl. intros name. simpl. auto. }
    destruct (save_step_checkpoint rid i step sr m2) as [[] m3].
    destruct (log_step_completion log i step sr m3) as [[] m4].
    destruct (negb (StepResult.success sr)).
    + destruct (Workflow.error_handling wf); simpl;
        apply store_output_bound; reflexivity.
    + simpl. apply store_output_bound; reflexivity.
Qed.

(** The variables at the end of the step loop were there at its start or
    are output variables of steps at or after the start point. *)
Lemma step_loop_bound wf rid start log steps :
  forall i c0 rs (m : Machine W) name,
    is_Some (ExecutionContext.variables
               (exit_context (fst (step_loop wf rid start log i steps c0 rs m)))
             !! name) ->
    is_Some (ExecutionContext.variables c0 !! name)
    \/ exists (j : nat) step,
         steps !! j = Some step
         /\ start <= i + Z.of_nat j
         /\ WorkflowStep.output_variable step = Some name.
Proof.
  induction steps as [|step rest IH]; intros i c0 rs m name; simpl.
  - auto.
  - destruct (i <? start) eqn:Hlt.
    + intros Hn. destruct (IH _ _ _ _ _ Hn) as [Hc|(j & s & Hj & Hs & Ho)]; [auto|].
      right. exists (S j), s. split; [exact Hj|]. split; [lia|exact Ho].
    + apply Z.ltb_ge in Hlt. unfold mbind, M_bind.
      pose proof (loop_body_bound wf rid log i step c0 rs m) as Hb.
      destruct (loop_body wf rid log i step c0 rs m) as [[x|c rs'|e c rs'] m1];
        simpl in Hb.
      * simpl. intros Hn. destruct (Hb name Hn) as [Hc|Ho]; [auto|].
        right. exists 0%nat, step. split; [reflexivity|]. split; [lia|exact Ho].
      * intros Hn.
        destruct (IH _ _ _ _ _ Hn) as [Hc|(j & s & Hj & Hs & Ho)].
        -- destruct (Hb name Hc) as [Hc0|Ho]; [auto|].
           right. exists 0%nat, step. split; [reflexivity|]. split; [lia|exact Ho].
        -- right. exists (S j), s. split; [exact Hj|]. split; [lia|exact Ho].
      * simpl. intros Hn. destruct (Hb name Hn) as [Hc|Ho]; [auto|].
        right. exists 0%nat, step. split; [reflexivity|]. split; [lia|exact Ho].
Qed.

End Resume.
(** ** Cancellation *)

Section Cancellation.

Context {W : Type} `{Host W}.

#[local] Existing Instance M_ret.
#[local] Existing Instance M_bind.

(** [cancel()] clears the flag. *)
Lemma cancel_clears_running (m : Machine W) :
  the_running (snd (cancel m)) = false.
Proof. destruct m as [[] ? ?]. reflexivity. Qed.

(** Nothing but the flag is touched by [cancel()]. *)
Lemma cancel_frames (m : Machine W) :
  the_setup (snd (cancel m)) = the_setup m
  /\ the_store (snd (cancel m)) = the_store m
  /\ the_logger (snd (cancel m)) = the_logger m
  /\ the_breaker (snd (cancel m)) = the_breaker m
  /\ trace (snd (cancel m)) = trace m
  /\ world (snd (cancel m)) = world m.
Proof. destruct m as [[] ? ?]. repeat split; reflexivity. Qed.

End Cancellation.

(** C2, run.  [engine.cancel()] is called while the tool of step 0 is
    awaited: the flag is cleared when step 0 returns, yet step 1 is
    dispatched and the run completes without error. *)
Theorem cancel_does_not_stop_the_loop :
  the_running
    (snd (_execute_tool_call (Demo.step "s0" "t.a" [] (Some "a"%string) [] 3) []
            Scenario.blank_context
            (snd (set_running true Scenario.cancelled_during_t))))
  = false
  /\ (exists r,
        fst (execute Scenario.two_steps None None None Scenario.cancelled_during_t)
        = inr r
        /\ WorkflowResult.status r = WorkflowStatus.COMPLETED
        /\ WorkflowResult.error r = None
        /\ map StepResult.status (WorkflowResult.step_results r)
           = [StepStatus.COMPLETED; StepStatus.COMPLETED])
  /\ trace (snd (execute Scenario.two_steps None None None
                   Scenario.cancelled_during_t))
     = [EvToolCall 0 "t" "a" []; EvToolCall 1 "u" "b" []].
Proof.
  split; [vm_compute; reflexivity|]. split.
  - eexists. split; [vm_compute; reflexivity|].
    split; [reflexivity|]. split; reflexivity.
  - vm_compute. reflexivity.
Qed.

(** ** Agent tasks *)

Section AgentTasks.

Context {W : Type} `{Host W}.

#[local] Existing Instance M_ret.
#[local] Existing Instance M_bind.

(** [{**inputs, **hints}]: a hint overwrites the input of the same key. *)
Lemma dict_set_get d k v : Py.dict_get (Py.dict_set d k v) k = Some v.
Proof.
  induction d as [|[k' v'] d IH]; simpl.
  - rewrite String.eqb_refl. reflexivity.
  - destruct (String.eqb k' k) eqn:E; simpl; rewrite E; [reflexivity|exact IH].
Qed.

Lemma dict_set_get_other d k v k' :
  k <> k' -> Py.dict_get (Py.dict_set d k v) k' = Py.dict_get d k'.
Proof.
  intros Hne. induction d as [|[k0 v0] d IH]; simpl.
  - destruct (String.eqb k k') eqn:E; [|reflexivity].
    apply String.eqb_eq in E. congruence.
  - destruct (String.eqb k0 k) eqn:E; simpl.
    + apply String.eqb_eq in E. subst k0.
      destruct (String.eqb k k') eqn:E'; [|reflexivity].
      apply String.eqb_eq in E'. congruence.
    + destruct (String.eqb k0 k'); [reflexivity|exact IH].
Qed.

Lemma dict_merge_last inputs hints k v :
  Py.dict_get (Py.dict_merge inputs (hints ++ [(k, v)])) k = Some v.
Proof.
  unfold Py.dict_merge. rewrite foldl_app. simpl. apply dict_set_get.
Qed.

Lemma dict_merge_untouched hints : forall inputs k,
  Py.dict_get hints k = None ->
  Py.dict_get (Py.dict_merge inputs hints) k = Py.dict_get inputs k.
Proof.
  unfold Py.dict_merge.
  induction hints as [|[hk hv] hints IH]; intros inputs k Hk; [reflexivity|].
  simpl in *. destruct (String.eqb hk k) eqn:E; [discriminate|].
  rewrite IH by exact Hk. apply dict_set_get_other.
  apply String.eqb_neq. exact E.
Qed.

(** The agent adapter is called with the step and the context; the inputs
    handed to [_execute_agent_task] do not reach it. *)
Lemma agent_task_ignores_inputs step inputs1 inputs2 context (m : Machine W) :
  _execute_agent_task step inputs1 context m
  = _execute_agent_task step inputs2 context m.
Proof. reflexivity. Qed.

End AgentTasks.

(** C4, run.  The step has the input [tone = "formal"] and, for the agent
    in use, the hint [tone = "casual"].  The merged mapping is
    [tone = "casual"], but the adapter is called with the step as declared
    (input [tone = "formal"]) and the context: the merged mapping reaches no
    collaborator. *)
Theorem agent_call_drops_merged_inputs :
  _resolve_inputs (WorkflowStep.inputs Scenario.hinted_step) Scenario.blank_context
  = inr [("tone"%string, VStr "formal")]
  /\ Py.dict_merge [("tone"%string, VStr "formal")]
       (WorkflowStep.get_hints_for_agent Scenario.hinted_step "opencode")
     = [("tone"%string, VStr "casual")]
  /\ (exists context,
        trace (snd (execute Scenario.hinted None None None Scenario.with_agent))
        = [EvAgentCall 0 Scenario.hinted_step context]
        /\ ExecutionContext.variables context = ∅
        /\ ExecutionContext.inputs context = ∅)
  /\ WorkflowStep.inputs Scenario.hinted_step = [("tone"%string, VStr "formal")].
Proof.
  split; [vm_compute; reflexivity|]. split; [vm_compute; reflexivity|].
  split; [|reflexivity].
  eexists. split; [vm_compute; reflexivity|]. split; reflexivity.
Qed.

(** * Further properties of the engine module *)

(** ** RetryPolicy: the range of the delays *)

Lemma pymin_le_r (a b : Q) : (Num.pymin a b <= b)%Q.
Proof. rewrite NumFacts.pymin_Qmin. apply Q.le_min_r. Qed.

(** X1. [get_delay] never returns more than [max_delay], whatever the attempt
    number and whatever [random()] draws: the cap is applied after the
    jitter. *)
Theorem get_delay_capped (p : RetryPolicy) (n : Z) (u : Q) :
  (get_delay p n u <= max_delay p)%Q.
Proof. unfold get_delay. apply pymin_le_r. Qed.

Lemma jitter_spread (d j u : Q) :
  (0 <= d)%Q -> (0 <= j)%Q -> (0 <= u <= 1)%Q ->
  (d * (1 - j) <= d + Num.uniform (- (d * j)) (d * j) u <= d * (1 + j))%Q.
Proof.
  intros Hd Hj [Hu0 Hu1]. unfold Num.uniform.
  assert (Hx : (0 <= d * j)%Q) by (apply Qmult_le_0_compat; assumption).
  assert (Hxu : (0 <= d * j * u)%Q) by (apply Qmult_le_0_compat; assumption).
  assert (Hx1 : (0 <= d * j * (1 - u))%Q) by (apply Qmult_le_0_compat; [assumption|lra]).
  split; lra.
Qed.

(** X2. Where the power of [get_delay] does not raise and the jittered
    backoff stays in the range of the floats ([d * (1 + j)] and the width
    [2 * d * j] of the jitter interval do not overflow), with a jitter
    [j >= 0], a backoff [d = base_delay * exponential_base^(attempt-1)]
    that is not negative and a draw of [random()] in [[0, 1]], the call
    returns a delay between [d * (1 - j)] and [d * (1 + j)], each capped at
    [max_delay]. *)
Theorem get_delay_jitter_range (p : RetryPolicy) (n : Z) (u : Q) :
  (0 <= jitter p)%Q ->
  (0 <= u <= 1)%Q ->
  (0 <= base_delay p * exponential_base p ^ (n - 1))%Q ->
  get_delay_raises p n = None ->
  Float.overflows
    (base_delay p * exponential_base p ^ (n - 1) * (1 + jitter p)) = false ->
  Float.overflows
    (2 * (base_delay p * exponential_base p ^ (n - 1) * jitter p)) = false ->
  exists d,
    get_delay_call p n u = inr d
    /\ (Qmin (base_delay p * exponential_base p ^ (n - 1) * (1 - jitter p))
          (max_delay p)
        <= d
        <= Qmin (base_delay p * exponential_base p ^ (n - 1) * (1 + jitter p))
             (max_delay p))%Q.
Proof.
  intros Hj Hu Hd Hr _ _. exists (get_delay p n u).
  split; [apply get_delay_call_defined; exact Hr|]. unfold get_delay.
  set (d := (base_delay p * exponential_base p ^ (n - 1))%Q) in *.
  rewrite NumFacts.pymin_Qmin.
  destruct (Num.ltb 0 (jitter p)) eqn:E.
  - destruct (jitter_spread d (jitter p) u Hd Hj Hu) as [Hlo Hhi].
    split; apply Q.min_le_compat_r; assumption.
  - apply NumFacts.ltb_ge in E.
    assert (Hz : (jitter p == 0)%Q) by (apply Qle_antisym; assumption).
    split; apply Q.min_le_compat_r; rewrite Hz; nra.
Qed.

Lemma get_delay_jitter_range_witness :
  exists d,
    get_delay_call (mkRetryPolicy 3 10 60 2 (1 # 2)) 1 (3 # 4) = inr d
    /\ (Qmin (10 * 2 ^ (1 - 1) * (1 - (1 # 2))) 60
        <= d
        <= Qmin (10 * 2 ^ (1 - 1) * (1 + (1 # 2))) 60)%Q.
Proof.
  apply (get_delay_jitter_range (mkRetryPolicy 3 10 60 2 (1 # 2)) 1 (3 # 4)).
  - vm_compute. discriminate.
  - split; vm_compute; discriminate.
  - vm_compute. discriminate.
  - reflexivity.
  - reflexivity.
  - reflexivity.
Defined.

(** X3. Without jitter, with a base delay that is not negative and an
    exponential base of at least 1, the delay never shrinks from one attempt
    to a later one. *)
Theorem get_delay_monotone (p : RetryPolicy) (a b : Z) (u u' : Q) :
  (jitter p <= 0)%Q ->
  (0 <= base_delay p)%Q ->
  (1 <= exponential_base p)%Q ->
  a <= b ->
  (get_delay p a u <= get_delay p b u')%Q.
Proof.
  intros Hj Hb He Hab.
  apply NumFacts.ltb_ge in Hj.
  rewrite !get_delay_without_jitter by exact Hj.
  rewrite !NumFacts.pymin_Qmin.
  apply Q.min_le_compat_r.
  pose proof (Qpower_le_compat_l (exponential_base p) (a - 1) (b - 1)
                ltac:(lia) He) as Hp.
  nra.
Qed.

Lemma get_delay_monotone_witness :
  (get_delay (mkRetryPolicy 3 1 60 2 0) 2 0
   <= get_delay (mkRetryPolicy 3 1 60 2 0) 5 (1 # 3))%Q.
Proof.
  apply (get_delay_monotone (mkRetryPolicy 3 1 60 2 0) 2 5 0 (1 # 3)).
  - vm_compute. discriminate.
  - vm_compute. discriminate.
  - vm_compute. discriminate.
  - lia.
Defined.

(** ** CircuitBreaker: how the calls compose *)

Module CBRuns.

Lemma run_cons cb c cs : CB.run cb (c :: cs) = CB.run (CB.step cb c) cs.
Proof. reflexivity. Qed.

Lemma run_app cb cs1 cs2 : CB.run cb (cs1 ++ cs2) = CB.run (CB.run cb cs1) cs2.
Proof. unfold CB.run. apply foldl_app. Qed.

(** No call changes the construction parameters. *)
Lemma params_step cb c :
  failure_threshold (CB.step cb c) = failure_threshold cb
  /\ recovery_timeout (CB.step cb c) = recovery_timeout cb
  /\ half_open_max_calls (CB.step cb c) = half_open_max_calls cb.
Proof.
  destruct c; simpl.
  - auto.
  - unfold CB.record_success. destruct (_state cb); auto.
    destruct (_ >=? _); auto.
  - auto.
  - unfold CB.state. destruct (_state cb); auto.
    destruct (_last_failure_time cb); auto. destruct (Num.geb _ _); auto.
  - rewrite CBFacts.can_execute_state.
    unfold CB.state. destruct (_state cb); auto.
    destruct (_last_failure_time cb); auto. destruct (Num.geb _ _); auto.
Qed.

Lemma params_run cs : forall cb,
  failure_threshold (CB.run cb cs) = failure_threshold cb
  /\ recovery_timeout (CB.run cb cs) = recovery_timeout cb
  /\ half_open_max_calls (CB.run cb cs) = half_open_max_calls cb.
Proof.
  induction cs as [|c cs IH]; intros cb; [auto|].
  rewrite run_cons. destruct (IH (CB.step cb c)) as (-> & -> & ->).
  apply params_step.
Qed.

(** A failure recorded on an open breaker leaves it open. *)
Lemma record_failure_open cb t :
  _state cb = OPEN -> _state (CB.record_failure cb t) = OPEN.
Proof.
  intros Hs. unfold CB.record_failure. simpl. rewrite Hs.
  destruct (_ >=? _); reflexivity.
Qed.

Lemma failures_open ts : forall cb,
  _state cb = OPEN -> _state (CB.run cb (failures ts)) = OPEN.
Proof.
  induction ts as [|t ts IH]; intros cb Hs; [exact Hs|].
  unfold failures. simpl map. rewrite run_cons. apply IH.
  apply record_failure_open, Hs.
Qed.

Lemma failures_count ts : forall cb,
  _failure_count (CB.run cb (failures ts))
  = _failure_count cb + Z.of_nat (length ts).
Proof.
  induction ts as [|t ts IH]; intros cb; [simpl; lia|].
  unfold failures. simpl map. rewrite run_cons. fold (failures ts).
  rewrite IH. cbn [CB.step CB.record_failure _failure_count length]. lia.
Qed.

Lemma failures_last ts : forall cb,
  _last_failure_time (CB.run cb (failures ts))
  = match last ts with Some t => Some t | None => _last_failure_time cb end.
Proof.
  induction ts as [|t ts IH]; intros cb; [reflexivity|].
  unfold failures. simpl map. rewrite run_cons. fold (failures ts).
  rewrite IH. destruct ts as [|t' ts]; [reflexivity|].
  rewrite last_cons_cons.
  destruct (last (t' :: ts)) eqn:E; [reflexivity|].
  apply last_None in E. discriminate.
Qed.

(** Failures on a closed breaker: it stays closed while the count is
    below the threshold, and is open from then on. *)
Lemma failures_closed ts : forall cb,
  _state cb = CLOSED ->
  (_failure_count cb + Z.of_nat (length ts) < failure_threshold cb ->
   _state (CB.run cb (failures ts)) = CLOSED)
  /\ (ts <> [] ->
      failure_threshold cb <= _failure_count cb + Z.of_nat (length ts) ->
      _state (CB.run cb (failures ts)) = OPEN).
Proof.
  induction ts as [|t ts IH]; intros cb Hs.
  - split; [intros _; exact Hs|intros Hne; congruence].
  - unfold failures. simpl map. rewrite run_cons. fold (failures ts).
    cbn [CB.step].
    assert (Hc : _failure_count (CB.record_failure cb t) = _failure_count cb + 1)
      by reflexivity.
    assert (Ht : failure_threshold (CB.record_failure cb t) = failure_threshold cb)
      by reflexivity.
    destruct (_failure_count cb + 1 >=? failure_threshold cb) eqn:G.
    + assert (Ho : _state (CB.record_failure cb t) = OPEN).
      { unfold CB.record_failure. simpl. rewrite Hs, G. reflexivity. }
      rewrite Z.geb_leb in G. apply Z.leb_le in G.
      split; [intros Hlt; simpl length in Hlt; lia|].
      intros _ _. apply failures_open, Ho.
    + assert (Ho : _state (CB.record_failure cb t) = CLOSED).
      { unfold CB.record_failure. simpl. rewrite Hs, G. reflexivity. }
      rewrite Z.geb_leb in G. apply Z.leb_gt in G.
      destruct (IH _ Ho) as [IH1 IH2]. rewrite Hc, Ht in IH1, IH2.
      split.
      * intros Hlt. apply IH1. simpl length in Hlt. lia.
      * intros _ Hle. simpl length in Hle.
        destruct ts as [|t' ts]; [simpl in Hle; lia|].
        apply IH2; [discriminate|lia].
Qed.

(** An open breaker whose recovery time-out has not passed refuses and
    stays as it is. *)
Lemma can_execute_early cb t0 t :
  _state cb = OPEN -> _last_failure_time cb = Some t0 ->
  (t - t0 < recovery_timeout cb)%Q ->
  CB.can_execute cb t = (false, cb).
Proof.
  intros Hs Ht Hlt. unfold CB.can_execute, CB.state. rewrite Hs, Ht.
  assert (Hg : Num.geb (t - t0) (recovery_timeout cb) = false).
  { unfold Num.geb. destruct (Qle_bool _ _) eqn:E; [|reflexivity].
    apply Qle_bool_iff in E. exfalso. exact (Qlt_not_le _ _ Hlt E). }
  rewrite Hg. reflexivity.
Qed.

Lemma geb_le a b : Num.geb a b = true <-> (b <= a)%Q.
Proof. unfold Num.geb. apply Qle_bool_iff. Qed.

Lemma successes_closed n : forall cb,
  _state cb = CLOSED ->
  _state (CB.run cb (successes n)) = CLOSED
  /\ ((1 <= n)%nat -> _failure_count (CB.run cb (successes n)) = 0).
Proof.
  induction n as [|n IH]; intros cb Hs; [split; [exact Hs|lia]|].
  unfold successes. simpl repeat. rewrite run_cons. fold (successes n).
  assert (Hc : _state (CB.step cb CB.RecordSuccess) = CLOSED
               /\ _failure_count (CB.step cb CB.RecordSuccess) = 0).
  { simpl. unfold CB.record_success. rewrite Hs. auto. }
  destruct Hc as [Hc1 Hc2]. destruct (IH _ Hc1) as [IH1 IH2].
  split; [exact IH1|]. intros _.
  destruct n as [|n]; [exact Hc2|]. apply IH2. lia.
Qed.

End CBRuns.

(** X4. A breaker built with a threshold of at least 1 and then told of [n]
    failures in a row has counted [n] failures; it is Closed, and admits
    executions, while [n] is below the threshold, and Open from the
    threshold on, where it refuses every execution asked for before the
    recovery time-out has passed since the last failure. *)
Theorem failures_trip_at_threshold (th : Z) (to : Q) (mc : Z) (ts : list Q) :
  1 <= th ->
  let cb := CB.run (CB.init th to mc) (failures ts) in
  _failure_count cb = Z.of_nat (length ts)
  /\ (Z.of_nat (length ts) < th ->
      _state cb = CLOSED /\ forall t, fst (CB.can_execute cb t) = true)
  /\ (th <= Z.of_nat (length ts) ->
      _state cb = OPEN
      /\ exists t0, last ts = Some t0
           /\ forall t, (t - t0 < to)%Q -> CB.can_execute cb t = (false, cb)).
Proof.
  intros Hth cb.
  assert (Hinit : _state (CB.init th to mc) = CLOSED) by reflexivity.
  destruct (CBRuns.failures_closed ts _ Hinit) as [Hlo Hhi].
  pose proof (CBRuns.failures_count ts (CB.init th to mc)) as Hc.
  pose proof (CBRuns.failures_last ts (CB.init th to mc)) as Hl.
  destruct (CBRuns.params_run (failures ts) (CB.init th to mc)) as (_ & Hto & _).
  fold cb in Hlo, Hhi, Hc, Hl, Hto. simpl in Hlo, Hhi, Hc, Hl, Hto.
  split; [exact Hc|]. split.
  - intros Hlt. specialize (Hlo Hlt). split; [exact Hlo|].
    intros t. unfold CB.can_execute, CB.state. rewrite Hlo. reflexivity.
  - intros Hle.
    assert (Hne : ts <> []) by (intros ->; simpl in Hle; lia).
    specialize (Hhi Hne Hle). split; [exact Hhi|].
    destruct (last ts) as [t0|] eqn:El.
    + exists t0. split; [reflexivity|]. intros t Hlt.
      apply (CBRuns.can_execute_early cb t0 t Hhi Hl). rewrite Hto. exact Hlt.
    + apply last_None in El. congruence.
Qed.

Lemma failures_trip_at_threshold_witness :
  let cb := CB.run (CB.init 3 30 3) (failures [1; 2; 3]%Q) in
  _failure_count cb = Z.of_nat (length [1; 2; 3]%Q)
  /\ (Z.of_nat (length [1; 2; 3]%Q) < 3 ->
      _state cb = CLOSED /\ forall t, fst (CB.can_execute cb t) = true)
  /\ (3 <= Z.of_nat (length [1; 2; 3]%Q) ->
      _state cb = OPEN
      /\ exists t0, last [1; 2; 3]%Q = Some t0
           /\ forall t, (t - t0 < 30)%Q -> CB.can_execute cb t = (false, cb)).
Proof.
  apply (failures_trip_at_threshold 3 30 3 [1; 2; 3]%Q). lia.
Defined.

(** X5. A success recorded on a closed breaker forgets the failures counted
    so far: after it, fewer failures than the threshold leave the breaker
    Closed, however many had been counted before. *)
Theorem success_forgets_failures (cb : CircuitBreaker) (ts : list Q) :
  _state cb = CLOSED ->
  Z.of_nat (length ts) < failure_threshold cb ->
  _state (CB.run (CB.record_success cb) (failures ts)) = CLOSED
  /\ _failure_count (CB.run (CB.record_success cb) (failures ts))
     = Z.of_nat (length ts).
Proof.
  intros Hs Hlt.
  assert (Hr : _state (CB.record_success cb) = CLOSED
               /\ _failure_count (CB.record_success cb) = 0
               /\ failure_threshold (CB.record_success cb) = failure_threshold cb).
  { unfold CB.record_success. rewrite Hs. auto. }
  destruct Hr as (Hr1 & Hr2 & Hr3).
  destruct (CBRuns.failures_closed ts _ Hr1) as [Hlo _].
  rewrite CBRuns.failures_count, Hr2. split; [|lia].
  apply Hlo. rewrite Hr2, Hr3. lia.
Qed.

Lemma success_forgets_failures_witness :
  _state (CB.run (CB.init 3 30 3) (failures [1; 2]%Q)) = CLOSED
  /\ Z.of_nat (length [3; 4]%Q)
     < failure_threshold (CB.run (CB.init 3 30 3) (failures [1; 2]%Q))
  /\ _state (CB.run (CB.record_success (CB.run (CB.init 3 30 3) (failures [1; 2]%Q)))
               (failures [3; 4]%Q)) = CLOSED
  /\ _failure_count
       (CB.run (CB.record_success (CB.run (CB.init 3 30 3) (failures [1; 2]%Q)))
          (failures [3; 4]%Q))
     = Z.of_nat (length [3; 4]%Q).
Proof.
  split; [reflexivity|]. split; [vm_compute; reflexivity|].
  apply (success_forgets_failures
           (CB.run (CB.init 3 30 3) (failures [1; 2]%Q)) [3; 4]%Q).
  - reflexivity.
  - vm_compute. reflexivity.
Defined.

(** X6. Recording outcomes never closes an open circuit: whatever successes
    and failures are recorded on an Open breaker, it is still Open.  Only a
    read of the state after the recovery time-out, or [reset], leaves
    Open. *)
Theorem records_keep_open (cb : CircuitBreaker) (cs : list CB.call) :
  _state cb = OPEN ->
  forallb is_record cs = true ->
  _state (CB.run cb cs) = OPEN.
Proof.
  revert cb. induction cs as [|c cs IH]; intros cb Hs Hr; [exact Hs|].
  simpl in Hr. apply andb_true_iff in Hr. destruct Hr as [Hc Hr].
  rewrite CBRuns.run_cons. apply IH; [|exact Hr].
  destruct c; try discriminate; cbn [CB.step].
  - apply CBRuns.record_failure_open, Hs.
  - unfold CB.record_success. rewrite Hs. exact Hs.
Qed.

Lemma records_keep_open_witness :
  _state (CB.run (CB.init 2 30 3) (failures [1; 2]%Q)) = OPEN
  /\ forallb is_record [CB.RecordSuccess; CB.RecordFailure 3; CB.RecordSuccess] = true
  /\ _state (CB.run (CB.run (CB.init 2 30 3) (failures [1; 2]%Q))
               [CB.RecordSuccess; CB.RecordFailure 3; CB.RecordSuccess]) = OPEN.
Proof.
  split; [reflexivity|]. split; [reflexivity|].
  apply (records_keep_open (CB.run (CB.init 2 30 3) (failures [1; 2]%Q))
           [CB.RecordSuccess; CB.RecordFailure 3; CB.RecordSuccess]);
    reflexivity.
Defined.

(** X7. Recovery from HalfOpen: while the successes recorded since the move
    to HalfOpen stay below [half_open_max_calls] the breaker stays HalfOpen
    and counts them; the success that reaches [half_open_max_calls] closes
    the circuit and clears the failure count, and further successes leave it
    so. *)
Theorem half_open_recovery (cb : CircuitBreaker) (n : nat) :
  _state cb = HALF_OPEN ->
  (_half_open_calls cb + Z.of_nat n < half_open_max_calls cb ->
   _state (CB.run cb (successes n)) = HALF_OPEN
   /\ _half_open_calls (CB.run cb (successes n)) = _half_open_calls cb + Z.of_nat n
   /\ _failure_count (CB.run cb (successes n)) = _failure_count cb)
  /\ ((1 <= n)%nat ->
      half_open_max_calls cb <= _half_open_calls cb + Z.of_nat n ->
      _state (CB.run cb (successes n)) = CLOSED
      /\ _failure_count (CB.run cb (successes n)) = 0).
Proof.
  revert cb. induction n as [|n IH]; intros cb Hs.
  - split; [intros _; simpl; split; [exact Hs|split; [lia|reflexivity]]|lia].
  - unfold successes. simpl repeat. rewrite CBRuns.run_cons. fold (successes n).
    cbn [CB.step].
    destruct (_half_open_calls cb + 1 >=? half_open_max_calls cb) eqn:G.
    + assert (Hc : _state (CB.record_success cb) = CLOSED
                   /\ _failure_count (CB.record_success cb) = 0).
      { unfold CB.record_success. rewrite Hs, G. auto. }
      rewrite Z.geb_leb in G. apply Z.leb_le in G. destruct Hc as [Hc1 Hc2].
      split; [intros Hlt; lia|]. intros _ _.
      destruct (CBRuns.successes_closed n _ Hc1) as [H1 H2].
      split; [exact H1|]. destruct n as [|n]; [exact Hc2|]. apply H2. lia.
    + assert (Hc : _state (CB.record_success cb) = HALF_OPEN
                   /\ _half_open_calls (CB.record_success cb) = _half_open_calls cb + 1
                   /\ _failure_count (CB.record_success cb) = _failure_count cb
                   /\ half_open_max_calls (CB.record_success cb)
                      = half_open_max_calls cb).
      { unfold CB.record_success. rewrite Hs, G. auto. }
      rewrite Z.geb_leb in G. apply Z.leb_gt in G.
      destruct Hc as (Hc1 & Hc2 & Hc3 & Hc4).
      destruct (IH _ Hc1) as [IH1 IH2]. rewrite Hc2, Hc3, Hc4 in *.
      split.
      * intros Hlt. destruct IH1 as (-> & -> & ->); [lia|].
        split; [reflexivity|]. split; [lia|reflexivity].
      * intros _ Hle. destruct n as [|n]; [simpl in Hle; lia|].
        apply IH2; lia.
Qed.

Lemma half_open_recovery_witness :
  _state (snd (CB.state (CB.run (CB.init 2 (1 # 100) 2) (failures [1; 1]%Q)) 2))
  = HALF_OPEN
  /\ (1 <= 2)%nat
  /\ _state (CB.run (snd (CB.state (CB.run (CB.init 2 (1 # 100) 2)
                                     (failures [1; 1]%Q)) 2))
               (successes 2)) = CLOSED
  /\ _failure_count
       (CB.run (snd (CB.state (CB.run (CB.init 2 (1 # 100) 2)
                                 (failures [1; 1]%Q)) 2))
          (successes 2)) = 0.
Proof.
  split; [reflexivity|]. split; [lia|].
  apply (half_open_recovery
           (snd (CB.state (CB.run (CB.init 2 (1 # 100) 2) (failures [1; 1]%Q)) 2))
           2).
  - reflexivity.
  - lia.
  - vm_compute. discriminate.
Defined.

(** X8. An Open breaker whose last failure was at [t0] admits an execution
    asked for at time [t] exactly when the recovery time-out has passed
    since [t0] and [half_open_max_calls] is positive; a read after the
    time-out moves it to HalfOpen with the count of half-open calls at 0,
    and a read before it changes nothing. *)
Theorem open_admits_after_timeout (cb : CircuitBreaker) (t0 t : Q) :
  _state cb = OPEN ->
  _last_failure_time cb = Some t0 ->
  (fst (CB.can_execute cb t) = true
   <-> (recovery_timeout cb <= t - t0)%Q /\ 0 < half_open_max_calls cb)
  /\ ((recovery_timeout cb <= t - t0)%Q ->
      _state (snd (CB.can_execute cb t)) = HALF_OPEN
      /\ _half_open_calls (snd (CB.can_execute cb t)) = 0)
  /\ ((t - t0 < recovery_timeout cb)%Q -> snd (CB.can_execute cb t) = cb).
Proof.
  intros Hs Ht. unfold CB.can_execute, CB.state. rewrite Hs, Ht.
  destruct (Num.geb (t - t0) (recovery_timeout cb)) eqn:G; simpl.
  - apply CBRuns.geb_le in G. split; [|split; [auto|]].
    + rewrite Z.ltb_lt. tauto.
    + intros Hlt. exfalso. exact (Qlt_not_le _ _ Hlt G).
  - assert (Hn : ~ (recovery_timeout cb <= t - t0)%Q).
    { intros Hle. apply CBRuns.geb_le in Hle. congruence. }
    split; [|split; [tauto|reflexivity]].
    split; [discriminate|tauto].
Qed.

Lemma open_admits_after_timeout_witness :
  _state (CB.run (CB.init 2 30 3) (failures [1; 2]%Q)) = OPEN
  /\ _last_failure_time (CB.run (CB.init 2 30 3) (failures [1; 2]%Q)) = Some 2%Q
  /\ fst (CB.can_execute (CB.run (CB.init 2 30 3) (failures [1; 2]%Q)) 40) = true.
Proof.
  split; [reflexivity|]. split; [reflexivity|].
  apply (open_admits_after_timeout
           (CB.run (CB.init 2 30 3) (failures [1; 2]%Q)) 2 40);
    [reflexivity|reflexivity|].
  split; [vm_compute; discriminate|vm_compute; reflexivity].
Defined.

(** X9. A failed probe restarts the wait: a failure recorded at time [t1] on
    a HalfOpen breaker opens the circuit again, whatever the failure count,
    and the breaker then refuses every execution asked for before the
    recovery time-out has passed since [t1]. *)
Theorem failed_probe_reopens (cb : CircuitBreaker) (t1 t : Q) :
  _state cb = HALF_OPEN ->
  (t - t1 < recovery_timeout cb)%Q ->
  _state (CB.record_failure cb t1) = OPEN
  /\ _last_failure_time (CB.record_failure cb t1) = Some t1
  /\ CB.can_execute (CB.record_failure cb t1) t = (false, CB.record_failure cb t1).
Proof.
  intros Hs Hlt.
  assert (Ho : _state (CB.record_failure cb t1) = OPEN).
  { unfold CB.record_failure. simpl. rewrite Hs. reflexivity. }
  split; [exact Ho|]. split; [reflexivity|].
  apply (CBRuns.can_execute_early _ t1 t Ho); [reflexivity|exact Hlt].
Qed.

Lemma failed_probe_reopens_witness :
  _state (snd (CB.state (CB.run (CB.init 2 30 3) (failures [1; 2]%Q)) 40))
  = HALF_OPEN
  /\ _state (CB.record_failure
               (snd (CB.state (CB.run (CB.init 2 30 3) (failures [1; 2]%Q)) 40)) 41)
     = OPEN
  /\ _last_failure_time
       (CB.record_failure
          (snd (CB.state (CB.run (CB.init 2 30 3) (failures [1; 2]%Q)) 40)) 41)
     = Some 41%Q
  /\ CB.can_execute
       (CB.record_failure
          (snd (CB.state (CB.run (CB.init 2 30 3) (failures [1; 2]%Q)) 40)) 41) 50
     = (false,
        CB.record_failure
          (snd (CB.state (CB.run (CB.init 2 30 3) (failures [1; 2]%Q)) 40)) 41).
Proof.
  split; [reflexivity|].
  apply (failed_probe_reopens
           (snd (CB.state (CB.run (CB.init 2 30 3) (failures [1; 2]%Q)) 40)) 41 50).
  - reflexivity.
  - vm_compute. reflexivity.
Defined.

(** X10. [reset] undoes every history: a breaker that was built by the
    constructor, driven by any calls and then reset is the breaker the
    constructor built. *)
Theorem reset_restores_initial (th : Z) (to : Q) (mc : Z) (cs : list CB.call) :
  CB.reset (CB.run (CB.init th to mc) cs) = CB.init th to mc.
Proof.
  destruct (CBRuns.params_run cs (CB.init th to mc)) as (H1 & H2 & H3).
  unfold CB.reset. rewrite H1, H2, H3. reflexivity.
Qed.

Module CBTimes.

Lemma timed_state cb t : timed cb -> timed (snd (CB.state cb t)).
Proof.
  unfold timed, CB.state. intros [Hc|[t0 Hl]].
  - rewrite Hc. auto.
  - rewrite Hl. destruct (_state cb) eqn:E; simpl; eauto.
    destruct (Num.geb _ _); simpl; eauto.
Qed.

Lemma timed_step cb c : timed cb -> timed (CB.step cb c).
Proof.
  intros Hc. destruct c; simpl.
  - right. simpl. eauto.
  - unfold CB.record_success, timed in *.
    destruct (_state cb) eqn:E.
    + left. reflexivity.
    + rewrite E. exact Hc.
    + destruct Hc as [Hc|Hc]; [discriminate|].
      destruct (_half_open_calls cb + 1 >=? half_open_max_calls cb); simpl; auto.
  - left. reflexivity.
  - apply timed_state, Hc.
  - rewrite CBFacts.can_execute_state. apply timed_state, Hc.
Qed.

Lemma timed_run cs : forall cb, timed cb -> timed (CB.run cb cs).
Proof.
  induction cs as [|c cs IH]; intros cb Hc; [exact Hc|].
  rewrite CBRuns.run_cons. apply IH, timed_step, Hc.
Qed.

End CBTimes.

(** X11. A breaker cannot be stuck Open: one that was built by the
    constructor and driven by any calls is Closed, or it records the time
    [t0] of its last failure, and then every read of its state made once the
    recovery time-out has passed since [t0] finds it out of Open. *)
Theorem open_breaker_recovers (th : Z) (to : Q) (mc : Z) (cs : list CB.call) :
  _state (CB.run (CB.init th to mc) cs) = CLOSED
  \/ exists t0,
       _last_failure_time (CB.run (CB.init th to mc) cs) = Some t0
       /\ forall t, (to <= t - t0)%Q ->
                    fst (CB.state (CB.run (CB.init th to mc) cs) t) <> OPEN.
Proof.
  assert (Hi : timed (CB.init th to mc)) by (left; reflexivity).
  destruct (CBTimes.timed_run cs _ Hi) as [Hc|[t0 Ht]]; [left; exact Hc|].
  right. exists t0. split; [exact Ht|]. intros t Hle.
  destruct (CBRuns.params_run cs (CB.init th to mc)) as (_ & Hto & _).
  simpl in Hto. unfold CB.state. rewrite Ht, Hto.
  apply CBRuns.geb_le in Hle. rewrite Hle.
  destruct (_state (CB.run (CB.init th to mc) cs)); simpl; discriminate.
Qed.

(** ** Validation and the resolution of inputs *)

Section Validating.

Context {W : Type} `{Host W}.

Lemma omap_nil {A B} (f : A -> option B) (l : list A) :
  omap f l = [] <-> Forall (fun x => f x = None) l.
Proof.
  induction l as [|x l IH]; simpl.
  - split; [constructor|reflexivity].
  - destruct (f x) eqn:E.
    + split; [discriminate|]. intros Hf. inversion Hf. congruence.
    + rewrite IH. split.
      * intros Hf. constructor; assumption.
      * intros Hf. inversion Hf. assumption.
Qed.

(** X12. [_validate_execution] reports nothing exactly when: the engine
    has no tool registry or the registry has every required tool for the
    agent; every required input that the caller did not provide has a
    default other than [None]; and the workflow is compatible with the
    agent.  Without a registry, no required tool is ever reported. *)
Theorem validation_passes_iff (eng : WorkflowEngine W) (wf : Workflow.t)
    (context : ExecutionContext.t) :
  _validate_execution eng wf context = []
  <-> (forall registry,
         tool_registry eng = Some registry ->
         Forall (fun tool_name =>
                   ToolRegistry.has_tool registry tool_name
                     (ExecutionContext.agent_name context) = true)
           (Workflow.required_tools wf))
      /\ Forall (fun param =>
                   InputParam.required param = true ->
                   ExecutionContext.inputs context !! InputParam.name param = None ->
                   InputParam.default param <> VNone)
           (Workflow.inputs wf)
      /\ Workflow.is_compatible_with wf (ExecutionContext.agent_name context) = true.
Proof.
  unfold _validate_execution, validation_errors.
  set (agent := ExecutionContext.agent_name context).
  set (inputs := ExecutionContext.inputs context).
  split.
  - intros He. apply app_eq_nil in He. destruct He as [Ht He].
    apply app_eq_nil in He. destruct He as [Hi Ha].
    split; [|split].
    + intros registry Hr. rewrite Hr in Ht. apply omap_nil in Ht.
      eapply Forall_impl; [exact Ht|]. simpl. intros tool_name Hn.
      destruct (ToolRegistry.has_tool registry tool_name agent);
        [reflexivity|discriminate].
    + apply omap_nil in Hi. eapply Forall_impl; [exact Hi|]. simpl.
      intros param Hp Hreq Hin. rewrite Hreq in Hp.
      rewrite bool_decide_eq_true_2 in Hp by exact Hin. simpl in Hp.
      destruct (InputParam.default param); discriminate.
    + destruct (Workflow.is_compatible_with wf agent); [reflexivity|discriminate].
  - intros (Ht & Hi & Ha). rewrite Ha. rewrite app_nil_r.
    apply app_nil. split.
    + destruct (tool_registry eng) as [registry|]; [|reflexivity].
      apply omap_nil. eapply Forall_impl; [exact (Ht registry eq_refl)|].
      simpl. intros tool_name ->. reflexivity.
    + apply omap_nil. eapply Forall_impl; [exact Hi|]. simpl.
      intros param Hp.
      destruct (InputParam.required param); [|reflexivity].
      destruct (decide (inputs !! InputParam.name param = None)) as [Hn|Hn].
      * rewrite bool_decide_eq_true_2 by exact Hn. simpl.
        specialize (Hp eq_refl Hn).
        destruct (InputParam.default param); [congruence|reflexivity..].
      * rewrite bool_decide_eq_false_2 by exact Hn. reflexivity.
Qed.

End Validating.

Module DictFacts.

Lemma eqb_neq (a b : string) : a <> b -> String.eqb a b = false.
Proof. intros Hne. apply String.eqb_neq. exact Hne. Qed.

(** Setting a key that the dict does not have appends the item. *)
Lemma dict_set_new d k v :
  k ∉ map fst d -> Py.dict_set d k v = d ++ [(k, v)].
Proof.
  induction d as [|[k' v'] d IH]; intros Hk; [reflexivity|].
  simpl in *. apply not_elem_of_cons in Hk. destruct Hk as [Hne Hk].
  rewrite eqb_neq by congruence. rewrite IH by exact Hk. reflexivity.
Qed.

End DictFacts.

Section Resolving.

Context {W : Type} `{Host W}.

Lemma resolve_items_pointwise context items :
  forall acc resolved,
    NoDup (map fst acc ++ map fst items) ->
    resolve_items context items acc = inr resolved ->
    exists new, resolved = acc ++ new
                /\ Forall2 (resolved_item context) items new.
Proof.
  induction items as [|[k v] items IH]; intros acc resolved Hnd Hr; simpl in Hr.
  - injection Hr as <-. exists []. rewrite app_nil_r. split; [reflexivity|constructor].
  - destruct (resolve_value context v) as [e|r] eqn:Ev; [discriminate|].
    simpl in Hnd.
    assert (Hk : k ∉ map fst acc).
    { apply NoDup_app in Hnd. destruct Hnd as (_ & Hd & _).
      intros Hin. apply (Hd k Hin). left. }
    rewrite DictFacts.dict_set_new in Hr by exact Hk.
    destruct (IH (acc ++ [(k, r)]) resolved) as (new & -> & Hf).
    + rewrite map_app. simpl. rewrite <- app_assoc. simpl. exact Hnd.
    + exact Hr.
    + exists ((k, r) :: new). rewrite <- app_assoc. split; [reflexivity|].
      constructor; [|exact Hf]. split; [reflexivity|exact Ev].
Qed.

(** X13. When [_resolve_inputs] returns, the dict it returns has the keys
    of the inputs in their order, and under each key the value that the
    input's value resolves to: a string through [resolve_template], a
    dict through [_resolve_inputs] itself, a list element by element, and
    anything else as it is. *)
Theorem resolve_inputs_pointwise (inputs resolved : pydict)
    (context : ExecutionContext.t) :
  NoDup (map fst inputs) ->
  _resolve_inputs inputs context = inr resolved ->
  Forall2 (resolved_item context) inputs resolved
  /\ (forall s, resolve_value context (VStr s)
                = match resolve_template context s with
                  | inl e => inl e
                  | inr r => inr (VStr r)
                  end)
  /\ (forall d, resolve_value context (VDict d)
                = match _resolve_inputs d context with
                  | inl e => inl e
                  | inr r => inr (VDict r)
                  end)
  /\ (forall l, resolve_value context (VList l)
                = match resolve_elements context l with
                  | inl e => inl e
                  | inr r => inr (VList r)
                  end)
  /\ (forall v, match v with
                | VStr _ | VDict _ | VList _ => True
                | _ => resolve_value context v = inr v
                end).
Proof.
  intros Hnd Hr. split; [|split; [|split; [|split]]].
  - destruct (resolve_items_pointwise context inputs [] resolved Hnd Hr)
      as (new & -> & Hf). exact Hf.
  - reflexivity.
  - intros d. simpl. unfold _resolve_inputs.
    assert (Hgo : forall d acc,
               (fix go (d : pydict) (resolved : pydict) {struct d} : exn + pydict :=
                  match d with
                  | [] => inr resolved
                  | (key, v') :: d' =>
                      match resolve_value context v' with
                      | inl e => inl e
                      | inr r => go d' (Py.dict_set resolved key r)
                      end
                  end) d acc
               = resolve_items context d acc).
    { clear. induction d as [|[k v] d IH]; intros acc; [reflexivity|].
      simpl. destruct (resolve_value context v); [reflexivity|]. apply IH. }
    rewrite Hgo. reflexivity.
  - reflexivity.
  - intros []; auto.
Qed.

(** X14. [_resolve_inputs] raises exactly when one of the values does not
    resolve, and then with the error of the first such value; the values
    before it resolve. *)
Theorem resolve_inputs_failure (inputs : pydict) (context : ExecutionContext.t) :
  match _resolve_inputs inputs context with
  | inl e =>
      exists before key v after,
        inputs = before ++ (key, v) :: after
        /\ Forall (resolves context) before
        /\ resolve_value context v = inl e
  | inr _ => Forall (resolves context) inputs
  end.
Proof.
  unfold _resolve_inputs. generalize (@nil (string * value)) as acc.
  induction inputs as [|[k v] items IH]; intros acc; simpl.
  - constructor.
  - destruct (resolve_value context v) as [e|r] eqn:Ev.
    + exists [], k, v, items. split; [reflexivity|]. split; [constructor|exact Ev].
    + specialize (IH (Py.dict_set acc k r)).
      destruct (resolve_items context items (Py.dict_set acc k r)) as [e|res].
      * destruct IH as (before & key & v' & after & -> & Hb & He).
        exists ((k, v) :: before), key, v', after.
        split; [reflexivity|]. split; [|exact He].
        constructor; [exists r; exact Ev|exact Hb].
      * constructor; [exists r; exact Ev|exact IH].
Qed.

(** X15. Lists are resolved one level deep: in a list value the elements
    that are strings are resolved, and every other element, a nested list
    or a dict with templates in it included, is returned as it is. *)
Theorem list_elements_resolve_one_level (context : ExecutionContext.t)
    (l : list value) (r : value) :
  resolve_value context (VList l) = inr r ->
  exists l', r = VList l' /\ Forall2 (resolved_element context) l l'.
Proof.
  simpl. destruct (resolve_elements context l) as [e|rs] eqn:E; [discriminate|].
  intros Hr. injection Hr as <-. exists rs. split; [reflexivity|].
  revert rs E. induction l as [|v l IH]; intros rs E; simpl in E.
  - injection E as <-. constructor.
  - destruct (resolve_element context v) as [e|v'] eqn:Ev; [discriminate|].
    destruct (resolve_elements context l) as [e|rs'] eqn:El; [discriminate|].
    injection E as <-. constructor; [|apply IH; reflexivity].
    unfold resolve_element in Ev. unfold resolved_element.
    destruct v; try (injection Ev as <-; reflexivity).
    destruct (resolve_template context s) as [e|r0]; [discriminate|].
    injection Ev as <-. eauto.
Qed.

End Resolving.

Lemma resolve_inputs_pointwise_witness :
  NoDup (map fst [("a"%string, VStr "x"); ("b"%string, VInt 3)])
  /\ _resolve_inputs [("a"%string, VStr "x"); ("b"%string, VInt 3)]
       Scenario.blank_context
     = inr [("a"%string, VStr "x"); ("b"%string, VInt 3)]
  /\ Forall2 (resolved_item Scenario.blank_context)
       [("a"%string, VStr "x"); ("b"%string, VInt 3)]
       [("a"%string, VStr "x"); ("b"%string, VInt 3)].
Proof.
  assert (Hnd : NoDup (map fst [("a"%string, VStr "x"); ("b"%string, VInt 3)])).
  { simpl. apply NoDup_cons. split; [|apply NoDup_singleton].
    intros Hin. apply list_elem_of_singleton in Hin. discriminate. }
  split; [exact Hnd|]. split; [reflexivity|].
  refine (proj1 (resolve_inputs_pointwise
                   [("a"%string, VStr "x"); ("b"%string, VInt 3)]
                   [("a"%string, VStr "x"); ("b"%string, VInt 3)]
                   Scenario.blank_context Hnd _)).
  reflexivity.
Defined.

Lemma list_elements_resolve_one_level_witness :
  resolve_value Scenario.blank_context
    (VList [VStr "x"; VList [VStr "y"]; VDict [("k"%string, VStr "z")]])
  = inr (VList [VStr "x"; VList [VStr "y"]; VDict [("k"%string, VStr "z")]])
  /\ exists l',
       VList [VStr "x"; VList [VStr "y"]; VDict [("k"%string, VStr "z")]] = VList l'
       /\ Forall2 (resolved_element Scenario.blank_context)
            [VStr "x"; VList [VStr "y"]; VDict [("k"%string, VStr "z")]] l'.
Proof.
  split; [reflexivity|].
  apply (list_elements_resolve_one_level Scenario.blank_context
           [VStr "x"; VList [VStr "y"]; VDict [("k"%string, VStr "z")]]
           (VList [VStr "x"; VList [VStr "y"]; VDict [("k"%string, VStr "z")]])).
  reflexivity.
Defined.

(** ** What a run leaves alone *)

Section CoreFrames.

Context {W : Type} `{Host W}.

#[local] Existing Instance M_ret.
#[local] Existing Instance M_bind.

Ltac write_frame := intros m; destruct m as [[] ? ?]; reflexivity.

Lemma core_set_state_store s : preserves (W := W) (set_state_store s) the_core.
Proof. write_frame. Qed.
Lemma core_set_execution_logger l :
  preserves (W := W) (set_execution_logger l) the_core.
Proof. write_frame. Qed.
Lemma core_set_running b : preserves (W := W) (set_running b) the_core.
Proof. write_frame. Qed.

Lemma running_set_state_store s : preserves (W := W) (set_state_store s) the_running.
Proof. write_frame. Qed.
Lemma running_set_execution_logger l :
  preserves (W := W) (set_execution_logger l) the_running.
Proof. write_frame. Qed.
Lemma running_set_circuit_breaker b :
  preserves (W := W) (set_circuit_breaker b) the_running.
Proof. write_frame. Qed.

End CoreFrames.

#[export] Hint Resolve
  core_set_state_store core_set_execution_logger core_set_running
  running_set_state_store running_set_execution_logger
  running_set_circuit_breaker : frames.

Section CoreFrames2.

Context {W : Type} `{Host W}.

#[local] Existing Instance M_ret.
#[local] Existing Instance M_bind.

Lemma core_log_append l e : preserves (W := W) (log_append l e) the_core.
Proof. unfold log_append. frame. Qed.

Lemma core_deliver_cancel b : preserves (W := W) (deliver_cancel b) the_core.
Proof. unfold deliver_cancel, cancel. frame. Qed.

Lemma core_policy_get_delay p a : preserves (W := W) (policy_get_delay p a) the_core.
Proof. unfold policy_get_delay. frame. Qed.

Lemma core_save_step_checkpoint rid i step sr :
  preserves (W := W) (save_step_checkpoint rid i step sr) the_core.
Proof. unfold save_step_checkpoint. frame. Qed.

Lemma core_log_step_completion l i step sr :
  preserves (W := W) (log_step_completion l i step sr) the_core.
Proof. unfold log_step_completion. frame; apply core_log_append. Qed.

Lemma core_agent_task step inputs context :
  preserves (W := W) (_execute_agent_task step inputs context) the_core.
Proof. unfold _execute_agent_task. frame. apply core_deliver_cancel. Qed.

Lemma core_tool_call step inputs context :
  preserves (W := W) (_execute_tool_call step inputs context) the_core.
Proof. unfold _execute_tool_call. frame. apply core_deliver_cancel. Qed.

Lemma core_attempt_step step context :
  preserves (W := W) (attempt_step step context) the_core.
Proof. unfold attempt_step. frame; [apply core_agent_task|apply core_tool_call]. Qed.

Lemma core_wait_before_retry step context log mr a :
  preserves (W := W) (wait_before_retry step context log mr a) the_core.
Proof.
  unfold wait_before_retry. frame.
  - apply core_policy_get_delay.
  - apply core_log_append.
  - apply core_deliver_cancel.
Qed.

Lemma core_retry_loop step context log t0 mr n :
  forall a le, preserves (W := W) (retry_loop step context log t0 mr n a le) the_core.
Proof.
  induction n as [|n IH]; intros a le; simpl.
  - frame.
  - apply preserves_bind; [apply core_attempt_step|]. intros [e|v].
    + apply preserves_bind; [|intros [e'|]; [apply preserves_ret|apply IH]].
      destruct (a <? mr); [apply core_wait_before_retry|apply preserves_ret].
    + frame.
Qed.

Lemma core_execute_step_with_retry step context log :
  preserves (W := W) (_execute_step_with_retry step context log) the_core.
Proof. unfold _execute_step_with_retry. frame. apply core_retry_loop. Qed.

Lemma core_loop_body wf rid log i step context rs :
  preserves (W := W) (loop_body wf rid log i step context rs) the_core.
Proof.
  unfold loop_body.
  apply preserves_bind; [apply core_log_append|]. intros _.
  destruct (negb _); [frame|].
  apply preserves_bind; [apply core_execute_step_with_retry|].
  intros [e|sr]; [apply preserves_ret|].
  apply preserves_bind; [apply core_save_step_checkpoint|]. intros _.
  apply preserves_bind; [apply core_log_step_completion|]. intros _.
  unfold _rollback. frame.
Qed.

Lemma core_step_loop wf rid start log steps :
  forall i context rs,
    preserves (W := W) (step_loop wf rid start log i steps context rs) the_core.
Proof.
  induction steps as [|step rest IH]; intros i context rs; simpl.
  - apply preserves_ret.
  - destruct (i <? start); [apply IH|].
    apply preserves_bind; [apply core_loop_body|].
    intros [x|c' rs'|e c' rs']; [apply preserves_ret|apply IH|apply preserves_ret].
Qed.

Lemma running_finalize r s e l o :
  preserves (W := W) (_finalize_execution r s e l o) the_running.
Proof. unfold _finalize_execution. frame. Qed.

Lemma running_generate_run_id id :
  preserves (W := W) (_generate_run_id id) the_running.
Proof. unfold _generate_run_id. frame. Qed.

Lemma running_gate : preserves (W := W) gate the_running.
Proof. unfold gate, breaker_can_execute. frame. Qed.

Lemma running_refuse wf a r : preserves (W := W) (refuse wf a r) the_running.
Proof. unfold refuse. frame. apply running_generate_run_id. Qed.

Lemma running_determine_run wf r :
  preserves (W := W) (determine_run wf r) the_running.
Proof. unfold determine_run. frame; apply running_generate_run_id. Qed.

Lemma running_create_context wf r i :
  preserves (W := W) (_create_context wf r i) the_running.
Proof. unfold _create_context. frame. Qed.

Lemma running_start_logging wf r c :
  preserves (W := W) (start_logging wf r c) the_running.
Proof. unfold start_logging. frame. Qed.

Lemma running_create_record wf r t c i rf :
  preserves (W := W) (create_record wf r t c i rf) the_running.
Proof. unfold create_record. frame. Qed.

Lemma running_fail_validation wf r t c l v :
  preserves (W := W) (fail_validation wf r t c l v) the_running.
Proof. unfold fail_validation. frame. apply running_finalize. Qed.

Lemma running_prepare wf inputs resume :
  preserves (W := W) (prepare wf inputs resume) the_running.
Proof.
  unfold prepare. frame.
  - apply running_determine_run.
  - apply running_create_context.
  - apply running_start_logging.
  - apply running_create_record.
Qed.

Lemma breaker_prepare wf inputs resume :
  preserves (W := W) (prepare wf inputs resume) the_breaker.
Proof.
  unfold prepare. frame.
  - apply breaker_determine_run.
  - apply breaker_create_context.
  - apply breaker_start_logging.
  - apply breaker_create_record.
Qed.

Lemma setup_prepare wf inputs resume :
  preserves (W := W) (prepare wf inputs resume) the_setup.
Proof.
  unfold prepare. frame.
  - apply setup_determine_run.
  - apply setup_create_context.
  - apply setup_start_logging.
  - apply setup_create_record.
Qed.

Lemma trace_prepare wf inputs resume :
  preserves (W := W) (prepare wf inputs resume) trace.
Proof.
  unfold prepare. frame.
  - apply trace_determine_run.
  - apply trace_create_context.
  - apply trace_start_logging.
  - apply trace_create_record.
Qed.

(** [execute] once the gate is passed. *)
Lemma execute_via_prepare wf inputs agent resume (m : Machine W) :
  fst (gate m) = true ->
  execute wf inputs agent resume m
  = let '((rid, start, t, ctx, l, created), m6) :=
      prepare wf inputs resume (snd (gate m)) in
    match created with
    | Some e => (inl e, m6)
    | None =>
        match _validate_execution (engine m6) wf ctx with
        | [] =>
            (inr (fst (run_steps wf rid start t ctx l m6)),
             snd (run_steps wf rid start t ctx l m6))
        | e :: es =>
            (inr (fst (fail_validation wf rid t ctx l (e :: es) m6)),
             snd (fail_validation wf rid t ctx l (e :: es) m6))
        end
    end.
Proof.
  intros Hg. unfold execute, prepare, mbind, M_bind, mret, M_ret.
  destruct (gate m) as [allowed m1]. simpl in Hg. subst allowed. simpl.
  destruct (determine_run wf resume m1) as [[rid start] m2].
  destruct (now m2) as [t m3].
  destruct (_create_context wf rid (default ∅ inputs) m3) as [ctx m4].
  destruct (start_logging wf rid ctx m4) as [l m5].
  destruct (create_record wf rid t ctx inputs resume m5) as [[e|] m6];
    [reflexivity|].
  unfold get_engine.
  destruct (_validate_execution (engine m6) wf ctx) as [|e es].
  - destruct (run_steps wf rid start t ctx l m6). reflexivity.
  - destruct (fail_validation wf rid t ctx l (e :: es) m6). reflexivity.
Qed.

(** What [prepare] returns. *)
Lemma prepare_result wf inputs resume (m : Machine W) :
  let '(rid, start, t, ctx, l, created) := fst (prepare wf inputs resume m) in
  (rid, start) = fst (determine_run wf resume m)
  /\ ExecutionContext.run_id ctx = rid
  /\ ExecutionContext.agent_name ctx
     = default "opencode"%string (config_agent_primary (engine m))
  /\ ExecutionContext.inputs ctx = default ∅ inputs
  /\ ExecutionContext.variables ctx = ∅
  /\ (fresh_run wf resume m -> created = None).
Proof.
  unfold prepare, mbind, M_bind, mret, M_ret.
  pose proof (setup_determine_run wf resume m) as Hs1.
  pose proof (store_determine_run wf resume m) as Hst1.
  unfold fresh_run.
  destruct (determine_run wf resume m) as [[rid start] m2]. simpl in *.
  pose proof (preserves_call_world datetime_now the_setup
                (fun _ _ _ _ => eq_refl) m2) as Hs2.
  pose proof (preserves_call_world datetime_now the_store
                (fun _ _ _ _ => eq_refl) m2) as Hst2.
  fold now in Hs2, Hst2.
  destruct (now m2) as [t m3]. simpl in *.
  pose proof (store_create_context wf rid (default ∅ inputs) m3) as Hst3.
  destruct (create_context_fields wf rid (default ∅ inputs) m3)
    as (Hrid & Hagent & Hinputs & Hvars).
  destruct (_create_context wf rid (default ∅ inputs) m3) as [ctx m4].
  simpl in *.
  pose proof (store_start_logging wf rid ctx m4) as Hst4.
  destruct (start_logging wf rid ctx m4) as [l m5]. simpl in *.
  assert (Hcreated :
            match the_store m, nonempty resume with
            | Some store, None => StateStore.get_execution store rid = None
            | _, _ => True
            end ->
            fst (create_record wf rid t ctx inputs resume m5) = None).
  { intros Hfresh.
    assert (Hst : the_store m5 = the_store m) by congruence.
    destruct (nonempty resume) eqn:Hr.
    - rewrite (create_record_resuming _ _ _ _ _ _ _ _ Hr). reflexivity.
    - destruct (the_store m) as [store|] eqn:Es.
      + apply (create_record_new _ _ _ _ _ _ store); [congruence|exact Hfresh].
      + rewrite create_record_no_store by congruence. reflexivity. }
  destruct (create_record wf rid t ctx inputs resume m5) as [created m6].
  simpl in *.
  split; [reflexivity|]. split; [exact Hrid|].
  split.
  { rewrite Hagent.
    assert (Hs : the_setup m3 = the_setup m) by congruence.
    unfold the_setup in Hs. injection Hs as _ _ Hc _. rewrite Hc. reflexivity. }
  split; [exact Hinputs|]. split; [exact Hvars|exact Hcreated].
Qed.

(** [execute] on a run that the gate admits, that raises nothing and that
    passes validation: it is [run_steps] on the machine that [prepare]
    leaves. *)
Lemma execute_valid wf inputs agent resume (m : Machine W) :
  fst (gate m) = true ->
  fresh_run wf resume (snd (gate m)) ->
  valid_run wf inputs m ->
  exists rid t ctx l m6,
    prepare wf inputs resume (snd (gate m))
    = ((rid, start_point wf resume m, t, ctx, l, None), m6)
    /\ ExecutionContext.agent_name ctx
       = default "opencode"%string (config_agent_primary (engine m))
    /\ ExecutionContext.variables ctx = ∅
    /\ execute wf inputs agent resume m
       = (inr (fst (run_steps wf rid (start_point wf resume m) t ctx l m6)),
          snd (run_steps wf rid (start_point wf resume m) t ctx l m6)).
Proof.
  intros Hg Hfresh Hvalid.
  rewrite (execute_via_prepare wf inputs agent resume m Hg).
  pose proof (prepare_result wf inputs resume (snd (gate m))) as Hp.
  pose proof (setup_prepare wf inputs resume (snd (gate m))) as Hs.
  pose proof (setup_gate m) as Hs0.
  unfold start_point.
  destruct (prepare wf inputs resume (snd (gate m)))
    as [[[[[[rid start] t] ctx] l] created] m6].
  simpl in Hp, Hs.
  destruct Hp as (Hdet & _ & Hagent & Hinputs & Hvars & Hcreated).
  rewrite (Hcreated Hfresh). rewrite <- Hdet. simpl.
  assert (Hsetup : the_setup m6 = the_setup m) by congruence.
  assert (Hcfg : config_agent_primary (engine (snd (gate m)))
                 = config_agent_primary (engine m)).
  { unfold the_setup in Hs0. injection Hs0 as _ _ Hc _. exact Hc. }
  unfold _validate_execution. rewrite Hagent, Hinputs, Hcfg.
  unfold the_setup in Hsetup. injection Hsetup as _ Hreg _ _. rewrite Hreg.
  unfold valid_run in Hvalid. rewrite Hvalid.
  exists rid, t, ctx, l, m6.
  split; [reflexivity|]. split; [congruence|]. split; [exact Hvars|reflexivity].
Qed.

End CoreFrames2.
(** ** One step, with its retries *)

Section StepAttempts.

Context {W : Type} `{Host W}.

#[local] Existing Instance M_ret.
#[local] Existing Instance M_bind.

Lemma setup_attempt_step step context :
  preserves (W := W) (attempt_step step context) the_setup.
Proof.
  intros m. destruct (attempt_step_dispatches step context m)
    as (evs & _ & _ & _ & _ & Hs). exact Hs.
Qed.

Lemma policy_of_the_setup (m m' : Machine W) :
  the_setup m' = the_setup m -> retry_policy (engine m') = retry_policy (engine m).
Proof. unfold the_setup. intros Hs. congruence. Qed.

(** How the retry loop ends: with a result of the shape [attempted], or
    with what [get_delay(k)] raises for a retry [k] that is still to
    come. *)
Lemma retry_loop_end step context log t0 mr n :
  forall a le (m : Machine W),
    match fst (retry_loop step context log t0 mr n a le m) with
    | inr sr => attempted step sr
    | inl e =>
        exists k, a + 1 <= k <= mr
                  /\ get_delay_raises (retry_policy (engine m)) k = Some e
    end.
Proof.
  induction n as [|n IH]; intros a le m.
  - rewrite retry_loop_O. destruct (now m) as [t m1]. simpl.
    unfold attempted. simpl. eauto 10.
  - rewrite retry_loop_S.
    pose proof (setup_attempt_step step context m) as Hs1.
    destruct (attempt_step step context m) as [[e|v] m1]; simpl in Hs1.
    + apply policy_of_the_setup in Hs1.
      destruct (a <? mr) eqn:Hlt.
      * apply Z.ltb_lt in Hlt.
        pose proof (wait_before_retry_effect step context log mr a m1) as Hw.
        rewrite Hs1 in Hw.
        destruct (get_delay_raises (retry_policy (engine m)) (a + 1))
          as [e'|] eqn:Eraise.
        -- rewrite Hw. simpl. exists (a + 1). split; [lia|exact Eraise].
        -- destruct Hw as (u & m2 & -> & _ & Hs2 & _).
           specialize (IH (a + 1) (Some e) m2).
           assert (Hp : retry_policy (engine m2) = retry_policy (engine m)).
           { apply policy_of_the_setup in Hs2. congruence. }
           rewrite Hp in IH.
           destruct (fst (retry_loop step context log t0 mr n (a + 1) (Some e) m2))
             as [e'|sr]; [|exact IH].
           destruct IH as (k & Hk & Hr). exists k. split; [lia|exact Hr].
      * apply Z.ltb_ge in Hlt. unfold mret, M_ret.
        specialize (IH (a + 1) (Some e) m1). rewrite Hs1 in IH.
        destruct (fst (retry_loop step context log t0 mr n (a + 1) (Some e) m1))
          as [e'|sr]; [|exact IH].
        destruct IH as (k & Hk & Hr). exists k. split; [lia|exact Hr].
    + destruct (now m1) as [t m2]. simpl. unfold attempted. simpl. eauto 10.
Qed.

Lemma retried_step_shape step context log (m : Machine W) :
  match fst (_execute_step_with_retry step context log m) with
  | inr sr => attempted step sr
  | inl e => delay_error (retry_policy (engine m)) step e
  end.
Proof.
  rewrite execute_step_with_retry_unfold.
  assert (Heng : engine (snd (now m)) = engine m).
  { unfold now, call_world. destruct (datetime_now (world m)). reflexivity. }
  destruct (now m) as [t0 m0]. simpl in Heng. rewrite Heng.
  pose proof (retry_loop_end step context log t0
                (Z.min (WorkflowStep.max_retries step)
                   (max_retries (retry_policy (engine m))))
                (Z.to_nat (Z.min (WorkflowStep.max_retries step)
                             (max_retries (retry_policy (engine m))) + 1))
                0 None m0) as He.
  rewrite Heng in He.
  destruct (fst (retry_loop _ _ _ _ _ _ _ _ m0)) as [e|sr]; [|exact He].
  destruct He as (k & Hk & Hr). exists k. split; [lia|exact Hr].
Qed.

(** A call that raises nothing returns a result. *)
Lemma retried_step_returns step context log (m : Machine W) :
  delays_defined (retry_policy (engine m))
    (budget (retry_policy (engine m)) step) ->
  exists sr,
    fst (_execute_step_with_retry step context log m) = inr sr
    /\ attempted step sr.
Proof.
  intros Hdef. pose proof (retried_step_shape step context log m) as Hs.
  destruct (fst (_execute_step_with_retry step context log m)) as [e|sr].
  - destruct Hs as (k & Hk & Hr). rewrite (Hdef k Hk) in Hr. discriminate.
  - eauto.
Qed.

(** X16. A call of [_execute_step_with_retry] returns a result or raises.
    A result always carries the id of its step and both time stamps, and
    it is either completed without an error or failed without an output:
    it is never skipped, and the fall-backs of [execute] for a result
    without time stamps are never taken.  What the call raises is what
    [get_delay(k)] raises for a retry [k] within the budget of the step,
    so it returns a result whenever [get_delay] raises for none of
    them. *)
Theorem retried_step_result_shape (step : WorkflowStep.t)
    (context : ExecutionContext.t) (log : option string) (m : Machine W) :
  match fst (_execute_step_with_retry step context log m) with
  | inr r =>
      attempted step r
      /\ StepResult.status r <> StepStatus.SKIPPED
      /\ (StepResult.success r = false <-> failed r)
  | inl e =>
      exists k,
        1 <= k <= Z.min (WorkflowStep.max_retries step)
                    (max_retries (retry_policy (engine m)))
        /\ get_delay_raises (retry_policy (engine m)) k = Some e
  end
  /\ (delays_defined (retry_policy (engine m))
        (Z.min (WorkflowStep.max_retries step)
           (max_retries (retry_policy (engine m)))) ->
      exists r, fst (_execute_step_with_retry step context log m) = inr r).
Proof.
  split.
  - pose proof (retried_step_shape step context log m) as Ha.
    destruct (fst (_execute_step_with_retry step context log m)) as [e|r];
      [exact Ha|].
    split; [exact Ha|].
    destruct Ha as (_ & _ & _ & [[Hs _]|[Hs _]]);
      unfold StepResult.success, failed; rewrite Hs;
      (split; [discriminate|]); split; congruence.
  - intros Hdef.
    destruct (retried_step_returns step context log m Hdef) as (sr & Hr & _).
    eauto.
Qed.

(** X17. With a negative retry budget, the smaller of the step's and the
    policy's [max_retries], the step is not attempted at all: the call
    returns a result that is failed, without an error message, with the
    negative budget as its number of retries; nothing is dispatched or
    slept and the engine is left as it was. *)
Theorem negative_budget_never_attempts (step : WorkflowStep.t)
    (context : ExecutionContext.t) (log : option string) (m : Machine W) :
  Z.min (WorkflowStep.max_retries step) (max_retries (retry_policy (engine m))) < 0 ->
  exists r,
    fst (_execute_step_with_retry step context log m) = inr r
    /\ failed r
    /\ StepResult.error r = None
    /\ StepResult.output r = VNone
    /\ StepResult.retries r
       = Z.min (WorkflowStep.max_retries step)
           (max_retries (retry_policy (engine m)))
    /\ trace (snd (_execute_step_with_retry step context log m)) = trace m
    /\ engine (snd (_execute_step_with_retry step context log m)) = engine m.
Proof.
  intros Hneg. rewrite execute_step_with_retry_unfold.
  assert (Hnow : engine (snd (now m)) = engine m /\ trace (snd (now m)) = trace m).
  { unfold now, call_world. destruct (datetime_now (world m)). split; reflexivity. }
  destruct Hnow as [Heng Htr]. destruct (now m) as [t0 m0]. simpl in Heng, Htr.
  rewrite Heng.
  replace (Z.to_nat (Z.min (WorkflowStep.max_retries step)
                       (max_retries (retry_policy (engine m))) + 1)) with O by lia.
  rewrite retry_loop_O.
  assert (Hnow : engine (snd (now m0)) = engine m0 /\ trace (snd (now m0)) = trace m0).
  { unfold now, call_world. destruct (datetime_now (world m0)). split; reflexivity. }
  destruct Hnow as [Heng1 Htr1]. destruct (now m0) as [t1 m1]. simpl in *.
  eexists. split; [reflexivity|].
  unfold failed. simpl. repeat split; congruence.
Qed.

Lemma configuration_error_setup step context (m m' : Machine W) :
  the_setup m' = the_setup m ->
  configuration_error step context m' = configuration_error step context m.
Proof.
  unfold the_setup, configuration_error. intros Hs.
  injection Hs as -> -> _ _. reflexivity.
Qed.

(** An attempt on an engine that lacks what the step needs. *)
Lemma attempt_misconfigured step context e (m : Machine W) :
  (exists resolved,
     _resolve_inputs (WorkflowStep.inputs step) context = inr resolved) ->
  configuration_error step context m = Some e ->
  attempt_step step context m = (inl e, m).
Proof.
  intros [resolved Hr] Hc. unfold attempt_step. rewrite Hr.
  unfold configuration_error in Hc.
  destruct (Py.startswith _ _).
  - unfold _execute_agent_task, mbind, M_bind, mret, M_ret, get_engine.
    destruct (agent_adapter (engine m)); [discriminate|].
    injection Hc as <-. reflexivity.
  - unfold _execute_tool_call, mbind, M_bind, mret, M_ret, get_engine.
    destruct (tool_registry (engine m)) as [registry|].
    + destruct (ToolRegistry.get_tool registry _ _); [discriminate|].
      injection Hc as <-. reflexivity.
    + injection Hc as <-. reflexivity.
Qed.

Lemma retry_loop_misconfigured step context log t0 mr e n :
  (exists resolved,
     _resolve_inputs (WorkflowStep.inputs step) context = inr resolved) ->
  forall a le (m : Machine W),
    configuration_error step context m = Some e ->
    0 <= a ->
    a + Z.of_nat n = mr + 1 ->
    exists evs,
      trace (snd (retry_loop step context log t0 mr n a le m)) = trace m ++ evs
      /\ dispatches evs = 0%nat
      /\ match fst (retry_loop step context log t0 mr n a le m) with
         | inr r =>
             failed r
             /\ StepResult.error r = match n with O => le | S _ => Some e end
             /\ StepResult.retries r = mr
             /\ Z.of_nat (length (sleeps evs))
                = mr + 1 - a - Z.min 1 (Z.of_nat n)
             /\ (forall k, a + 1 <= k <= mr ->
                           get_delay_raises (retry_policy (engine m)) k = None)
         | inl e' =>
             exists k,
               a + 1 <= k <= mr
               /\ get_delay_raises (retry_policy (engine m)) k = Some e'
               /\ (forall j, a + 1 <= j < k ->
                             get_delay_raises (retry_policy (engine m)) j = None)
               /\ Z.of_nat (length (sleeps evs)) = k - 1 - a
         end.
Proof.
  intros Hres. induction n as [|n IH]; intros a le m Hc Ha Hn.
  - rewrite retry_loop_O. destruct (now_frames m) as [Ht _].
    destruct (now m) as [t m1]. simpl in *.
    exists []. rewrite app_nil_r. unfold failed. simpl.
    repeat split; try reflexivity; try congruence; try lia.
  - rewrite retry_loop_S.
    rewrite (attempt_misconfigured step context e m Hres Hc).
    destruct (a <? mr) eqn:Hlt.
    + apply Z.ltb_lt in Hlt.
      pose proof (wait_before_retry_effect step context log mr a m) as Hw.
      destruct (get_delay_raises (retry_policy (engine m)) (a + 1))
        as [e'|] eqn:Eraise.
      * rewrite Hw. exists []. rewrite app_nil_r. simpl.
        split; [reflexivity|]. split; [reflexivity|].
        exists (a + 1). split; [lia|]. split; [exact Eraise|].
        split; [intros j Hj; lia|lia].
      * destruct Hw as (u & m1 & Hw & Ht1 & Hs1 & _).
        rewrite Hw.
        destruct (IH (a + 1) (Some e) m1) as (evs & Ht & Hd & Hend).
        { rewrite (configuration_error_setup step context m m1 Hs1). exact Hc. }
        { lia. }
        { lia. }
        rewrite (policy_of_the_setup m m1 Hs1) in Hend.
        eexists. split; [rewrite Ht, Ht1, <- app_assoc; reflexivity|].
        rewrite dispatches_app, sleeps_app, length_app.
        split; [rewrite Hd; reflexivity|].
        destruct (fst (retry_loop step context log t0 mr n (a + 1) (Some e) m1))
          as [e'|r].
        -- destruct Hend as (k & Hk & Hr & Hbefore & Hsl).
           exists k. split; [lia|]. split; [exact Hr|]. split.
           ++ intros j Hj. destruct (decide (j = a + 1)) as [->|Hne];
                [exact Eraise|apply Hbefore; lia].
           ++ simpl length. lia.
        -- destruct Hend as (Hf & He & Hr & Hsl & Hdef).
           split; [exact Hf|]. split; [rewrite He; destruct n; reflexivity|].
           split; [exact Hr|]. split; [simpl length; lia|].
           intros k Hk. destruct (decide (k = a + 1)) as [->|Hne];
             [exact Eraise|apply Hdef; lia].
    + apply Z.ltb_ge in Hlt. unfold mret, M_ret.
      destruct (IH (a + 1) (Some e) m) as (evs & Ht & Hd & Hend);
        [exact Hc|lia|lia|].
      exists evs. split; [exact Ht|]. split; [exact Hd|].
      destruct (fst (retry_loop step context log t0 mr n (a + 1) (Some e) m))
        as [e'|r].
      * destruct Hend as (k & Hk & _). lia.
      * destruct Hend as (Hf & He & Hr & Hsl & Hdef).
        split; [exact Hf|]. split; [rewrite He; destruct n; reflexivity|].
        split; [exact Hr|]. split; [lia|]. intros k Hk. lia.
Qed.

(** X18. A step that the engine cannot even dispatch, because it has no
    agent adapter for an agent task, no tool registry, or no tool of the
    step's name, is retried like any other failure, and nothing is
    dispatched.  With budgets that are not negative, and as long as
    [get_delay] raises for no retry of the effective budget, the engine
    sleeps once per retry and the result is failed with the configuration
    error and the whole budget as its number of retries.  Otherwise the
    call raises what [get_delay(k)] raises for the first such retry [k],
    after [k - 1] sleeps. *)
Theorem misconfigured_step_uses_up_retries (step : WorkflowStep.t)
    (context : ExecutionContext.t) (log : option string) (e : string)
    (m : Machine W) :
  0 <= WorkflowStep.max_retries step ->
  0 <= max_retries (retry_policy (engine m)) ->
  (exists resolved,
     _resolve_inputs (WorkflowStep.inputs step) context = inr resolved) ->
  configuration_error step context m = Some e ->
  exists evs,
    trace (snd (_execute_step_with_retry step context log m)) = trace m ++ evs
    /\ dispatches evs = 0%nat
    /\ match fst (_execute_step_with_retry step context log m) with
       | inr r =>
           delays_defined (retry_policy (engine m))
             (Z.min (WorkflowStep.max_retries step)
                (max_retries (retry_policy (engine m))))
           /\ failed r
           /\ StepResult.error r = Some e
           /\ StepResult.retries r
              = Z.min (WorkflowStep.max_retries step)
                  (max_retries (retry_policy (engine m)))
           /\ Z.of_nat (length (sleeps evs))
              = Z.min (WorkflowStep.max_retries step)
                  (max_retries (retry_policy (engine m)))
       | inl e' =>
           exists k,
             1 <= k <= Z.min (WorkflowStep.max_retries step)
                         (max_retries (retry_policy (engine m)))
             /\ get_delay_raises (retry_policy (engine m)) k = Some e'
             /\ delays_defined (retry_policy (engine m)) (k - 1)
             /\ Z.of_nat (length (sleeps evs)) = k - 1
       end.
Proof.
  intros Hs Hp Hres Hc. rewrite execute_step_with_retry_unfold.
  assert (Hnow : engine (snd (now m)) = engine m /\ trace (snd (now m)) = trace m).
  { unfold now, call_world. destruct (datetime_now (world m)). split; reflexivity. }
  destruct Hnow as [Heng Htr]. destruct (now m) as [t0 m0]. simpl in Heng, Htr.
  rewrite Heng.
  set (mr := Z.min (WorkflowStep.max_retries step)
               (max_retries (retry_policy (engine m)))).
  destruct (retry_loop_misconfigured step context log t0 mr e
              (Z.to_nat (mr + 1)) Hres 0 None m0)
    as (evs & Ht & Hd & Hend).
  { rewrite (configuration_error_setup step context m m0); [exact Hc|].
    unfold the_setup. rewrite Heng. reflexivity. }
  { lia. }
  { lia. }
  rewrite Heng in Hend.
  exists evs. split; [congruence|]. split; [exact Hd|].
  destruct (fst (retry_loop step context log t0 mr (Z.to_nat (mr + 1)) 0 None m0))
    as [e'|r].
  - destruct Hend as (k & Hk & Hr & Hbefore & Hsl).
    exists k. split; [lia|]. split; [exact Hr|].
    split; [intros j Hj; apply Hbefore; lia|lia].
  - destruct Hend as (Hf & He & Hr & Hsl & Hdef).
    split; [intros k Hk; apply Hdef; lia|]. split; [exact Hf|].
    split.
    { rewrite He. destruct (Z.to_nat (mr + 1)) eqn:E; [lia|reflexivity]. }
    split; [exact Hr|]. lia.
Qed.

End StepAttempts.

Lemma negative_budget_never_attempts_witness :
  exists r,
    fst (_execute_step_with_retry (Demo.step "s0" "t.a" [] None [] (-1))
           Scenario.blank_context None Scenario.flaky) = inr r
    /\ failed r
    /\ StepResult.error r = None
    /\ StepResult.output r = VNone
    /\ StepResult.retries r
       = Z.min (WorkflowStep.max_retries (Demo.step "s0" "t.a" [] None [] (-1)))
           (max_retries (retry_policy (engine Scenario.flaky)))
    /\ trace (snd (_execute_step_with_retry (Demo.step "s0" "t.a" [] None [] (-1))
                     Scenario.blank_context None Scenario.flaky))
       = trace Scenario.flaky
    /\ engine (snd (_execute_step_with_retry (Demo.step "s0" "t.a" [] None [] (-1))
                      Scenario.blank_context None Scenario.flaky))
       = engine Scenario.flaky.
Proof.
  apply (negative_budget_never_attempts (Demo.step "s0" "t.a" [] None [] (-1))
           Scenario.blank_context None Scenario.flaky).
  simpl. lia.
Defined.

Lemma misconfigured_step_uses_up_retries_witness :
  configuration_error (Demo.step "s0" "agent.plan" [] None [] 2)
    Scenario.blank_context Scenario.flaky
  = Some "No agent adapter configured"%string
  /\ exists evs,
       trace (snd (_execute_step_with_retry
                     (Demo.step "s0" "agent.plan" [] None [] 2)
                     Scenario.blank_context None Scenario.flaky))
       = trace Scenario.flaky ++ evs
       /\ dispatches evs = 0%nat
       /\ match fst (_execute_step_with_retry
                       (Demo.step "s0" "agent.plan" [] None [] 2)
                       Scenario.blank_context None Scenario.flaky) with
          | inr r =>
              delays_defined (retry_policy (engine Scenario.flaky))
                (Z.min (WorkflowStep.max_retries
                          (Demo.step "s0" "agent.plan" [] None [] 2))
                   (max_retries (retry_policy (engine Scenario.flaky))))
              /\ failed r
              /\ StepResult.error r = Some "No agent adapter configured"%string
              /\ StepResult.retries r
                 = Z.min (WorkflowStep.max_retries
                            (Demo.step "s0" "agent.plan" [] None [] 2))
                     (max_retries (retry_policy (engine Scenario.flaky)))
              /\ Z.of_nat (length (sleeps evs))
                 = Z.min (WorkflowStep.max_retries
                            (Demo.step "s0" "agent.plan" [] None [] 2))
                     (max_retries (retry_policy (engine Scenario.flaky)))
          | inl e' =>
              exists k,
                1 <= k <= Z.min (WorkflowStep.max_retries
                                   (Demo.step "s0" "agent.plan" [] None [] 2))
                            (max_retries (retry_policy (engine Scenario.flaky)))
                /\ get_delay_raises (retry_policy (engine Scenario.flaky)) k
                   = Some e'
                /\ delays_defined (retry_policy (engine Scenario.flaky)) (k - 1)
                /\ Z.of_nat (length (sleeps evs)) = k - 1
          end.
Proof.
  split; [reflexivity|].
  apply (misconfigured_step_uses_up_retries
           (Demo.step "s0" "agent.plan" [] None [] 2)
           Scenario.blank_context None "No agent adapter configured"
           Scenario.flaky).
  - simpl. lia.
  - simpl. lia.
  - eexists. reflexivity.
  - reflexivity.
Defined.

(** A policy with base 1e308
    raises out of range at [get_delay(3)], so a misconfigured step with a
    budget of 3 raises after two sleeps and returns no result. *)
Example misconfigured_step_can_raise :
  fst (_execute_step_with_retry (Demo.step "s0" "agent.plan" [] None [] 3)
         Scenario.blank_context None
         (Demo.boot (Demo.engine_with []
                       (mkRetryPolicy 3 1 0 (inject_Z (10 ^ 308)) 0) None)))
  = inl "(34, 'Numerical result out of range')"%string
  /\ length (sleeps (trace (snd (_execute_step_with_retry
                                   (Demo.step "s0" "agent.plan" [] None [] 3)
                                   Scenario.blank_context None
                                   (Demo.boot
                                      (Demo.engine_with []
                                         (mkRetryPolicy 3 1 0
                                            (inject_Z (10 ^ 308)) 0) None))))))
     = 2%nat.
Proof. split; vm_compute; reflexivity. Qed.

(** ** One iteration of the step loop *)

Section StepFrames.

Context {W : Type} `{Host W}.

#[local] Existing Instance M_ret.
#[local] Existing Instance M_bind.

(** An observation [f] of the machine that depends neither on the world
    nor on the trace nor on the running flag, and that logging to [log]
    leaves alone. *)
Variables (X : Type) (f : Machine W -> X) (log : option string).
Hypothesis f_world : forall e w w' t, f (mkMachine e w t) = f (mkMachine e w' t).
Hypothesis f_trace : forall e w t t', f (mkMachine e w t) = f (mkMachine e w t').
Hypothesis f_running : forall b, preserves (W := W) (set_running b) f.
Hypothesis f_log : forall e, preserves (W := W) (log_append log e) f.

Ltac frame_f :=
  repeat first
    [ apply f_running
    | apply f_log
    | apply preserves_bind; [|intros ?]
    | apply preserves_ret
    | apply preserves_get_engine
    | apply preserves_call_world; exact f_world
    | apply preserves_emit; exact f_trace
    | match goal with
      | |- preserves (match ?x with _ => _ end) _ => destruct x eqn:?
      | |- preserves (if ?x then _ else _) _ => destruct x eqn:?
      end ].

Lemma frame_deliver_cancel b : preserves (W := W) (deliver_cancel b) f.
Proof. unfold deliver_cancel, cancel. frame_f. Qed.

Lemma frame_policy_get_delay p a : preserves (W := W) (policy_get_delay p a) f.
Proof. unfold policy_get_delay. frame_f. Qed.

Lemma frame_attempt_step step context :
  preserves (W := W) (attempt_step step context) f.
Proof.
  unfold attempt_step, _execute_agent_task, _execute_tool_call.
  frame_f; apply frame_deliver_cancel.
Qed.

Lemma frame_wait_before_retry step context mr a :
  preserves (W := W) (wait_before_retry step context log mr a) f.
Proof.
  unfold wait_before_retry. frame_f.
  - apply frame_policy_get_delay.
  - apply frame_deliver_cancel.
Qed.

Lemma frame_retry_loop step context t0 mr n :
  forall a le, preserves (W := W) (retry_loop step context log t0 mr n a le) f.
Proof.
  induction n as [|n IH]; intros a le; simpl.
  - frame_f.
  - apply preserves_bind; [apply frame_attempt_step|]. intros [e|v].
    + apply preserves_bind; [|intros [e'|]; [apply preserves_ret|apply IH]].
      destruct (a <? mr); [apply frame_wait_before_retry|apply preserves_ret].
    + frame_f.
Qed.

Lemma frame_execute_step_with_retry step context :
  preserves (W := W) (_execute_step_with_retry step context log) f.
Proof. unfold _execute_step_with_retry. frame_f. apply frame_retry_loop. Qed.

Lemma frame_log_step_completion i step sr :
  preserves (W := W) (log_step_completion log i step sr) f.
Proof. unfold log_step_completion. frame_f. Qed.

End StepFrames.

Section LoopBody.

Context {W : Type} `{Host W}.

#[local] Existing Instance M_ret.
#[local] Existing Instance M_bind.

Lemma store_execute_step_with_retry step context log :
  preserves (W := W) (_execute_step_with_retry step context log) the_store.
Proof.
  apply frame_execute_step_with_retry; try reflexivity.
  - apply store_set_running.
  - intros e. apply store_log_append.
Qed.

Lemma store_log_step_completion log i step sr :
  preserves (W := W) (log_step_completion log i step sr) the_store.
Proof.
  apply frame_log_step_completion. intros e. apply store_log_append.
Qed.

(** The iteration for a step whose conditions do not hold. *)
Lemma loop_body_skip wf rid log i step context rs (m : Machine W) :
  _evaluate_conditions (WorkflowStep.conditions step)
    (ExecutionContext.set_current_step_index context i) = false ->
  loop_body wf rid log i step context rs m
  = let '(_, m1) :=
      log_append log (LogEntry.step_started (WorkflowStep.name step) i) m in
    let '(t1, m2) := now m1 in
    let '(t2, m3) := now m2 in
    (Next (ExecutionContext.set_current_step_index context i)
       (rs ++ [skipped step t1 t2]), m3).
Proof.
  intros Hc. unfold loop_body. rewrite Hc. simpl.
  unfold mbind, M_bind, mret, M_ret.
  destruct (log_append log _ m) as [[] m1].
  destruct (now m1) as [t1 m2]. destruct (now m2) as [t2 m3]. reflexivity.
Qed.

(** The iteration for a step whose conditions hold. *)
Lemma loop_body_run wf rid log i step context rs (m : Machine W) :
  _evaluate_conditions (WorkflowStep.conditions step)
    (ExecutionContext.set_current_step_index context i) = true ->
  loop_body wf rid log i step context rs m
  = let ctx := ExecutionContext.set_current_step_index context i in
    let '(_, m1) :=
      log_append log (LogEntry.step_started (WorkflowStep.name step) i) m in
    let '(r, m2) := _execute_step_with_retry step ctx log m1 in
    match r with
    | inl e => (Raise e ctx rs, m2)
    | inr sr =>
        let '(_, m3) := save_step_checkpoint rid i step sr m2 in
        let '(_, m4) := log_step_completion log i step sr m3 in
        (if negb (StepResult.success sr) then
           match Workflow.error_handling wf with
           | ErrorHandling.STOP =>
               Break (mkLoopExit (store_output step sr ctx) (rs ++ [sr])
                        WorkflowStatus.FAILED
                        (Some ("Step '" +:+ WorkflowStep.id step +:+ "' failed: "
                               +:+ str_opt (StepResult.error sr))))
           | ErrorHandling.ROLLBACK =>
               Break (mkLoopExit (store_output step sr ctx) (rs ++ [sr])
                        WorkflowStatus.FAILED
                        (Some ("Step '" +:+ WorkflowStep.id step
                               +:+ "' failed, rollback triggered")))
           | ErrorHandling.CONTINUE =>
               Next (store_output step sr ctx) (rs ++ [sr])
           end
         else Next (store_output step sr ctx) (rs ++ [sr]), m4)
    end.
Proof.
  intros Hc. unfold loop_body. rewrite Hc. simpl.
  unfold mbind, M_bind, mret, M_ret, _rollback.
  destruct (log_append log _ m) as [[] m1].
  destruct (_execute_step_with_retry step _ log m1) as [[e|sr] m2];
    [reflexivity|].
  destruct (save_step_checkpoint rid i step sr m2) as [[] m3].
  destruct (log_step_completion log i step sr m3) as [[] m4].
  destruct (negb (StepResult.success sr)); [|reflexivity].
  destruct (Workflow.error_handling wf); reflexivity.
Qed.

(** What the iteration hands on for a result [sr] of its step. *)
Lemma loop_control_of wf step sr ctx rs :
  control_results
    (if negb (StepResult.success sr) then
       match Workflow.error_handling wf with
       | ErrorHandling.STOP =>
           Break (mkLoopExit (store_output step sr ctx) (rs ++ [sr])
                    WorkflowStatus.FAILED
                    (Some ("Step '" +:+ WorkflowStep.id step +:+ "' failed: "
                           +:+ str_opt (StepResult.error sr))))
       | ErrorHandling.ROLLBACK =>
           Break (mkLoopExit (store_output step sr ctx) (rs ++ [sr])
                    WorkflowStatus.FAILED
                    (Some ("Step '" +:+ WorkflowStep.id step
                           +:+ "' failed, rollback triggered")))
       | ErrorHandling.CONTINUE => Next (store_output step sr ctx) (rs ++ [sr])
       end
     else Next (store_output step sr ctx) (rs ++ [sr])) = rs ++ [sr]
  /\ control_context
       (if negb (StepResult.success sr) then
          match Workflow.error_handling wf with
          | ErrorHandling.STOP =>
              Break (mkLoopExit (store_output step sr ctx) (rs ++ [sr])
                       WorkflowStatus.FAILED
                       (Some ("Step '" +:+ WorkflowStep.id step +:+ "' failed: "
                              +:+ str_opt (StepResult.error sr))))
          | ErrorHandling.ROLLBACK =>
              Break (mkLoopExit (store_output step sr ctx) (rs ++ [sr])
                       WorkflowStatus.FAILED
                       (Some ("Step '" +:+ WorkflowStep.id step
                              +:+ "' failed, rollback triggered")))
          | ErrorHandling.CONTINUE => Next (store_output step sr ctx) (rs ++ [sr])
          end
        else Next (store_output step sr ctx) (rs ++ [sr]))
     = store_output step sr ctx
  /\ forall e c rs',
       (if negb (StepResult.success sr) then
          match Workflow.error_handling wf with
          | ErrorHandling.STOP =>
              Break (mkLoopExit (store_output step sr ctx) (rs ++ [sr])
                       WorkflowStatus.FAILED
                       (Some ("Step '" +:+ WorkflowStep.id step +:+ "' failed: "
                              +:+ str_opt (StepResult.error sr))))
          | ErrorHandling.ROLLBACK =>
              Break (mkLoopExit (store_output step sr ctx) (rs ++ [sr])
                       WorkflowStatus.FAILED
                       (Some ("Step '" +:+ WorkflowStep.id step
                              +:+ "' failed, rollback triggered")))
          | ErrorHandling.CONTINUE => Next (store_output step sr ctx) (rs ++ [sr])
          end
        else Next (store_output step sr ctx) (rs ++ [sr]))
       <> Raise e c rs'.
Proof.
  destruct (negb (StepResult.success sr));
    [destruct (Workflow.error_handling wf)|];
    (split; [reflexivity|]; split; [reflexivity|]; intros; discriminate).
Qed.

Lemma now_pure {X} (f : Machine W -> X) (m : Machine W) :
  (forall e w w' t, f (mkMachine e w t) = f (mkMachine e w' t)) ->
  f (snd (now m)) = f m.
Proof. intros Hf. apply (preserves_call_world datetime_now f Hf). Qed.

(** X19. A step whose conditions do not hold is passed over without a
    record: the loop hands on a skipped result and the context as it
    was, apart from the step index; no checkpoint is saved, nothing is
    dispatched, and the log gets the [step_started] entry only. *)
Theorem skipped_step_leaves_no_record (wf : Workflow.t) (rid : string)
    (log : option string) (i : Z) (step : WorkflowStep.t)
    (context : ExecutionContext.t) (rs : list StepResult.t) (m : Machine W) :
  _evaluate_conditions (WorkflowStep.conditions step)
    (ExecutionContext.set_current_step_index context i) = false ->
  (exists t1 t2,
     fst (loop_body wf rid log i step context rs m)
     = Next (ExecutionContext.set_current_step_index context i)
         (rs ++ [skipped step t1 t2]))
  /\ the_store (snd (loop_body wf rid log i step context rs m)) = the_store m
  /\ the_core (snd (loop_body wf rid log i step context rs m)) = the_core m
  /\ trace (snd (loop_body wf rid log i step context rs m)) = trace m
  /\ the_logger (snd (loop_body wf rid log i step context rs m))
     = the_logger
         (snd (log_append log (LogEntry.step_started (WorkflowStep.name step) i) m)).
Proof.
  intros Hc. rewrite (loop_body_skip wf rid log i step context rs m Hc).
  pose proof (store_log_append log
                (LogEntry.step_started (WorkflowStep.name step) i) m) as Hs.
  pose proof (core_log_append log
                (LogEntry.step_started (WorkflowStep.name step) i) m) as Hk.
  pose proof (trace_log_append log
                (LogEntry.step_started (WorkflowStep.name step) i) m) as Ht.
  destruct (log_append log _ m) as [[] m1]. simpl in *.
  pose proof (now_pure the_store m1 (fun _ _ _ _ => eq_refl)) as Hs1.
  pose proof (now_pure the_core m1 (fun _ _ _ _ => eq_refl)) as Hk1.
  pose proof (now_pure trace m1 (fun _ _ _ _ => eq_refl)) as Ht1.
  pose proof (now_pure the_logger m1 (fun _ _ _ _ => eq_refl)) as Hl1.
  destruct (now m1) as [t1 m2]. simpl in *.
  pose proof (now_pure the_store m2 (fun _ _ _ _ => eq_refl)) as Hs2.
  pose proof (now_pure the_core m2 (fun _ _ _ _ => eq_refl)) as Hk2.
  pose proof (now_pure trace m2 (fun _ _ _ _ => eq_refl)) as Ht2.
  pose proof (now_pure the_logger m2 (fun _ _ _ _ => eq_refl)) as Hl2.
  destruct (now m2) as [t2 m3]. simpl in *.
  split; [eauto|]. repeat split; congruence.
Qed.

(** What [save_step_checkpoint] saves. *)
Lemma save_step_checkpoint_store rid i step sr store (m : Machine W) :
  the_store m = Some store ->
  is_Some (StepResult.started_at sr) ->
  exists started,
    StepResult.started_at sr = Some started
    /\ the_store (snd (save_step_checkpoint rid i step sr m))
       = Some (StateStore.save_checkpoint store
                 (checkpoint_of rid i step sr started)).
Proof.
  unfold the_store. intros Hs [started Hst].
  exists started. split; [exact Hst|].
  unfold save_step_checkpoint, mbind, M_bind, mret, M_ret, get_engine.
  rewrite Hs, Hst. destruct m as [[] ? ?]. reflexivity.
Qed.

(** X20. A step that is run leaves one checkpoint, unless its retries
    raise: with a state store and a step whose conditions hold, either
    the iteration raises what [get_delay(k)] raises for a retry [k]
    within the budget of the step, and then no result is appended and the
    store is as it was; or it appends the result of the step and saves,
    for the run and the index of the step, a checkpoint whose status is
    completed or failed as the result is, with the result's error,
    retries and time stamps, and with the output only when the output is
    truthy: an output such as [0], [""] or [[]] is not stored. *)
Theorem run_step_saves_checkpoint (wf : Workflow.t) (rid : string)
    (log : option string) (i : Z) (step : WorkflowStep.t)
    (context : ExecutionContext.t) (rs : list StepResult.t)
    (store : StateStore.t) (m : Machine W) :
  the_store m = Some store ->
  _evaluate_conditions (WorkflowStep.conditions step)
    (ExecutionContext.set_current_step_index context i) = true ->
  (exists e,
     fst (loop_body wf rid log i step context rs m)
     = Raise e (ExecutionContext.set_current_step_index context i) rs
     /\ delay_error (retry_policy (engine m)) step e
     /\ the_store (snd (loop_body wf rid log i step context rs m)) = Some store)
  \/ (exists sr started,
        control_results (fst (loop_body wf rid log i step context rs m))
        = rs ++ [sr]
        /\ attempted step sr
        /\ StepResult.started_at sr = Some started
        /\ the_store (snd (loop_body wf rid log i step context rs m))
           = Some (StateStore.save_checkpoint store
                     (checkpoint_of rid i step sr started))
        /\ StepCheckpoint.status (checkpoint_of rid i step sr started)
           = (if StepResult.success sr then ExecutionStatus.COMPLETED
              else ExecutionStatus.FAILED)
        /\ StepCheckpoint.outputs (checkpoint_of rid i step sr started)
           = (if Py.truthy (StepResult.output sr)
              then Some (StepResult.output sr) else None)).
Proof.
  intros Hstore Hc. rewrite (loop_body_run wf rid log i step context rs m Hc).
  cbv zeta.
  pose proof (store_log_append log
                (LogEntry.step_started (WorkflowStep.name step) i) m) as Hs1.
  pose proof (setup_log_append log
                (LogEntry.step_started (WorkflowStep.name step) i) m) as Hp1.
  destruct (log_append log _ m) as [[] m1]. simpl in Hs1, Hp1.
  apply policy_of_the_setup in Hp1.
  pose proof (store_execute_step_with_retry step
                (ExecutionContext.set_current_step_index context i) log m1) as Hs2.
  pose proof (retried_step_shape step
              (ExecutionContext.set_current_step_index context i) log m1) as Ha.
  rewrite Hp1 in Ha.
  destruct (_execute_step_with_retry step _ log m1) as [[e|sr] m2];
    simpl in Hs2, Ha.
  { left. exists e. simpl. split; [reflexivity|]. split; [exact Ha|congruence]. }
  right.
  assert (Hst : the_store m2 = Some store) by congruence.
  pose proof Ha as (_ & Hstarted & _).
  destruct (save_step_checkpoint_store rid i step sr store m2 Hst Hstarted)
    as (started & Hsa & Hs3).
  destruct (save_step_checkpoint rid i step sr m2) as [[] m3]. simpl in Hs3.
  pose proof (store_log_step_completion log i step sr m3) as Hs4.
  destruct (log_step_completion log i step sr m3) as [[] m4]. simpl in Hs4.
  exists sr, started.
  split; [apply loop_control_of|].
  split; [exact Ha|]. split; [exact Hsa|].
  split; [simpl; congruence|]. split; reflexivity.
Qed.

Lemma store_output_unbound step sr context :
  StepResult.output sr = VNone -> store_output step sr context = context.
Proof.
  intros Ho. unfold store_output. rewrite Ho.
  destruct (WorkflowStep.output_variable step); reflexivity.
Qed.

(** X21. The variables change only when a step completes: an iteration
    for a skipped step or for a step that fails hands on the variables
    as they were; one for a step that completes binds the step's output
    variable, when it has one, to the output, unless the output is
    [None].  An output that is falsy but not [None] is bound.  An
    iteration whose step raises appends no result and leaves the context
    as it was, apart from the step index. *)
Theorem variables_change_on_completion (wf : Workflow.t) (rid : string)
    (log : option string) (i : Z) (step : WorkflowStep.t)
    (context : ExecutionContext.t) (rs : list StepResult.t) (m : Machine W) :
  (exists e,
     fst (loop_body wf rid log i step context rs m)
     = Raise e (ExecutionContext.set_current_step_index context i) rs
     /\ delay_error (retry_policy (engine m)) step e)
  \/ exists sr,
    control_results (fst (loop_body wf rid log i step context rs m)) = rs ++ [sr]
    /\ (StepResult.status sr <> StepStatus.COMPLETED ->
        ExecutionContext.variables
          (control_context (fst (loop_body wf rid log i step context rs m)))
        = ExecutionContext.variables context)
    /\ (StepResult.status sr = StepStatus.COMPLETED ->
        ExecutionContext.variables
          (control_context (fst (loop_body wf rid log i step context rs m)))
        = match WorkflowStep.output_variable step with
          | None => ExecutionContext.variables context
          | Some name =>
              if String.eqb name "" then ExecutionContext.variables context
              else match StepResult.output sr with
                   | VNone => ExecutionContext.variables context
                   | v => <[name := v]> (ExecutionContext.variables context)
                   end
          end).
Proof.
  destruct (_evaluate_conditions (WorkflowStep.conditions step)
              (ExecutionContext.set_current_step_index context i)) eqn:Hc.
  - rewrite (loop_body_run wf rid log i step context rs m Hc). cbv zeta.
    pose proof (setup_log_append log
                  (LogEntry.step_started (WorkflowStep.name step) i) m) as Hp1.
    destruct (log_append log _ m) as [[] m1]. simpl in Hp1.
    apply policy_of_the_setup in Hp1.
    pose proof (retried_step_shape step
                (ExecutionContext.set_current_step_index context i) log m1) as Ha.
    rewrite Hp1 in Ha.
    destruct (_execute_step_with_retry step _ log m1) as [[e|sr] m2]; simpl in Ha.
    { left. exists e. split; [reflexivity|exact Ha]. }
    right.
    destruct (save_step_checkpoint rid i step sr m2) as [[] m3].
    destruct (log_step_completion log i step sr m3) as [[] m4].
    exists sr.
    destruct (loop_control_of wf step sr
                (ExecutionContext.set_current_step_index context i) rs)
      as (Hr & Hx & _).
    simpl fst. rewrite Hr, Hx.
    split; [reflexivity|]. split.
    + intros Hn. destruct Ha as (_ & _ & _ & [[Hs _]|[_ Ho]]); [congruence|].
      rewrite (store_output_unbound step sr _ Ho). reflexivity.
    + intros _. unfold store_output.
      destruct (WorkflowStep.output_variable step) as [name|]; [|reflexivity].
      destruct (StepResult.output sr); try reflexivity;
        destruct (String.eqb name ""); reflexivity.
  - right. rewrite (loop_body_skip wf rid log i step context rs m Hc).
    destruct (log_append log _ m) as [[] m1].
    destruct (now m1) as [t1 m2]. destruct (now m2) as [t2 m3].
    exists (skipped step t1 t2). simpl.
    split; [reflexivity|]. split; [reflexivity|]. discriminate.
Qed.

End LoopBody.

(** ** The step loop and the run as a whole *)

Section Outcomes.

Context {W : Type} `{Host W}.

#[local] Existing Instance M_ret.
#[local] Existing Instance M_bind.

Lemma store_output_agent step sr context :
  ExecutionContext.agent_name (store_output step sr context)
  = ExecutionContext.agent_name context.
Proof.
  unfold store_output.
  destruct (WorkflowStep.output_variable step) as [name|]; [|reflexivity].
  destruct (StepResult.output sr); try reflexivity;
    destruct (String.eqb name ""); reflexivity.
Qed.

(** What one iteration hands on. *)
Lemma loop_body_outcome wf rid log i step context rs (m : Machine W) :
  ExecutionContext.agent_name
    (control_context (fst (loop_body wf rid log i step context rs m)))
  = ExecutionContext.agent_name context
  /\ match fst (loop_body wf rid log i step context rs m) with
     | Break x =>
         exists sr,
           exit_step_results x = rs ++ [sr]
           /\ StepResult.step_id sr = WorkflowStep.id step
           /\ failed sr
           /\ Workflow.error_handling wf <> ErrorHandling.CONTINUE
           /\ exit_final_status x = WorkflowStatus.FAILED
           /\ exit_error_message x
              = Some (failure_message (Workflow.error_handling wf) sr)
     | Next _ rs' =>
         exists sr,
           rs' = rs ++ [sr]
           /\ StepResult.step_id sr = WorkflowStep.id step
           /\ (failed sr -> Workflow.error_handling wf = ErrorHandling.CONTINUE)
     | Raise e _ rs' =>
         rs' = rs /\ delay_error (retry_policy (engine m)) step e
     end.
Proof.
  destruct (_evaluate_conditions (WorkflowStep.conditions step)
              (ExecutionContext.set_current_step_index context i)) eqn:Hc.
  - rewrite (loop_body_run wf rid log i step context rs m Hc). cbv zeta.
    pose proof (setup_log_append log
                  (LogEntry.step_started (WorkflowStep.name step) i) m) as Hp1.
    destruct (log_append log _ m) as [[] m1]. simpl in Hp1.
    apply policy_of_the_setup in Hp1.
    pose proof (retried_step_shape step
                  (ExecutionContext.set_current_step_index context i) log m1) as Ha.
    rewrite Hp1 in Ha.
    destruct (_execute_step_with_retry step _ log m1) as [[e|sr] m2]; simpl in Ha.
    { simpl. auto. }
    destruct (save_step_checkpoint rid i step sr m2) as [[] m3].
    destruct (log_step_completion log i step sr m3) as [[] m4].
    destruct Ha as (Hid & _ & _ & Hst). simpl fst.
    unfold StepResult.success, failed.
    destruct Hst as [[Hs _]|[Hs _]]; rewrite Hs; simpl.
    + split; [rewrite store_output_agent; reflexivity|].
      exists sr. split; [reflexivity|]. split; [exact Hid|]. congruence.
    + destruct (Workflow.error_handling wf) eqn:Eh; simpl;
        (split; [rewrite store_output_agent; reflexivity|]); exists sr.
      * split; [reflexivity|]. split; [exact Hid|]. auto.
      * split; [reflexivity|]. split; [exact Hid|]. split; [exact Hs|].
        split; [discriminate|]. split; [reflexivity|]. rewrite Hid. reflexivity.
      * split; [reflexivity|]. split; [exact Hid|]. split; [exact Hs|].
        split; [discriminate|]. split; [reflexivity|]. rewrite Hid. reflexivity.
  - rewrite (loop_body_skip wf rid log i step context rs m Hc).
    destruct (log_append log _ m) as [[] m1].
    destruct (now m1) as [t1 m2]. destruct (now m2) as [t2 m3]. simpl.
    split; [reflexivity|]. exists (skipped step t1 t2).
    split; [reflexivity|]. split; [reflexivity|]. unfold failed. discriminate.
Qed.

Lemma pending_before start i step rest :
  i < start -> pending start i (step :: rest) = pending start (i + 1) rest.
Proof.
  intros Hlt. unfold pending.
  replace (Z.to_nat (start - i)) with (S (Z.to_nat (start - (i + 1)))) by lia.
  reflexivity.
Qed.

Lemma pending_from start i steps : start <= i -> pending start i steps = steps.
Proof.
  intros Hle. unfold pending.
  replace (Z.to_nat (start - i)) with O by lia. reflexivity.
Qed.

Lemma run_outcome_cons p eh step rest sr new status error :
  StepResult.step_id sr = WorkflowStep.id step ->
  (failed sr -> eh = ErrorHandling.CONTINUE) ->
  run_outcome p eh rest new status error ->
  run_outcome p eh (step :: rest) (sr :: new) status error.
Proof.
  intros Hid Hf [Hids Hst]. split.
  - simpl. rewrite Hid, Hids. reflexivity.
  - destruct status.
    + destruct Hst as (Hlen & He & Hall). split; [simpl; lia|]. split; [exact He|].
      intros Hne. constructor; [intros Hs; apply Hne, Hf, Hs|apply Hall, Hne].
    + destruct Hst as [(Hne & before & r & -> & Hr & Hb & He)
                      |(step' & e & Hl & Hd & He & Hall)].
      * left. split; [exact Hne|]. exists (sr :: before), r.
        split; [reflexivity|]. split; [exact Hr|]. split; [|exact He].
        constructor; [intros Hs; apply Hne, Hf, Hs|exact Hb].
      * right. exists step', e. split; [exact Hl|]. split; [exact Hd|].
        split; [exact He|]. intros Hne.
        constructor; [intros Hs; apply Hne, Hf, Hs|apply Hall, Hne].
Qed.

(** The step loop from index [i]: the results it appends and how it
    ends. *)
Lemma step_loop_outcome wf rid start log steps :
  forall i context rs (m : Machine W),
    ExecutionContext.agent_name
      (exit_context (fst (step_loop wf rid start log i steps context rs m)))
    = ExecutionContext.agent_name context
    /\ exists new,
         exit_step_results (fst (step_loop wf rid start log i steps context rs m))
         = rs ++ new
         /\ run_outcome (retry_policy (engine m)) (Workflow.error_handling wf)
              (pending start i steps) new
              (exit_final_status
                 (fst (step_loop wf rid start log i steps context rs m)))
              (exit_error_message
                 (fst (step_loop wf rid start log i steps context rs m))).
Proof.
  induction steps as [|step rest IH]; intros i context rs m.
  - simpl. split; [reflexivity|]. exists []. rewrite app_nil_r.
    split; [reflexivity|]. unfold pending. rewrite drop_nil.
    split; [reflexivity|]. split; [reflexivity|]. split; [reflexivity|].
    intros _. constructor.
  - cbn [step_loop]. destruct (i <? start) eqn:Hlt.
    + apply Z.ltb_lt in Hlt. rewrite pending_before by exact Hlt. apply IH.
    + apply Z.ltb_ge in Hlt. rewrite pending_from by exact Hlt.
      unfold mbind, M_bind.
      pose proof (loop_body_outcome wf rid log i step context rs m) as [Hag Hb].
      pose proof (core_loop_body wf rid log i step context rs m) as Hcore.
      destruct (loop_body wf rid log i step context rs m)
        as [[x|c' rs'|e c' rs'] m1]; simpl in Hag, Hb, Hcore.
      * destruct Hb as (sr & Hr & Hid & Hf & Hne & Hs & He). simpl.
        split; [exact Hag|]. exists [sr]. split; [exact Hr|].
        rewrite Hs, He. split; [simpl; rewrite Hid; reflexivity|].
        left. split; [exact Hne|]. exists [], sr.
        split; [reflexivity|]. split; [exact Hf|]. split; [constructor|reflexivity].
      * destruct Hb as (sr & -> & Hid & Hf).
        destruct (IH (i + 1) c' (rs ++ [sr]) m1) as (Hag' & new & Hr & Ho).
        split; [congruence|]. exists (sr :: new).
        split; [rewrite Hr, <- app_assoc; reflexivity|].
        rewrite pending_from in Ho by lia.
        assert (Hp : retry_policy (engine m1) = retry_policy (engine m)).
        { apply policy_of_the_setup. unfold the_core in Hcore. congruence. }
        rewrite Hp in Ho.
        apply run_outcome_cons; assumption.
      * destruct Hb as (-> & Hd). simpl.
        split; [exact Hag|]. exists []. rewrite app_nil_r.
        split; [reflexivity|]. split; [reflexivity|].
        right. exists step, e. split; [reflexivity|]. split; [exact Hd|].
        split; [reflexivity|]. intros _. constructor.
Qed.

(** [run_steps], call by call. *)
Lemma run_steps_unfold wf rid start t ctx l (m : Machine W) :
  run_steps wf rid start t ctx l m
  = let '(x, m1) :=
      step_loop wf rid start l 0 (Workflow.steps wf) ctx []
        (snd (set_running true m)) in
    let m2 := snd (set_running false m1) in
    let '(_, m3) :=
      match circuit_breaker (engine m2) with
      | Some cb =>
          match exit_final_status x with
          | WorkflowStatus.COMPLETED =>
              set_circuit_breaker (CB.record_success cb) m2
          | WorkflowStatus.FAILED =>
              let '(t1, m') := now m2 in
              set_circuit_breaker (CB.record_failure cb (timestamp t1)) m'
          end
      | None => (tt, m2)
      end in
    let success :=
      match exit_final_status x with
      | WorkflowStatus.COMPLETED => true
      | WorkflowStatus.FAILED => false
      end in
    let '(_, m4) :=
      _finalize_execution rid success (exit_error_message x) l
        (if success then Some (ExecutionContext.variables (exit_context x))
         else None) m3 in
    let '(t', m5) := now m4 in
    (WorkflowResult.mk rid (Workflow.id wf)
       (ExecutionContext.agent_name (exit_context x)) (exit_final_status x)
       (exit_step_results x)
       (Some (ExecutionContext.variables (exit_context x)))
       (exit_error_message x) t t', m5).
Proof.
  unfold run_steps, mbind, M_bind, mret, M_ret, get_engine.
  destruct (set_running true m) as [[] m0]. cbn [snd].
  destruct (step_loop wf rid start l 0 (Workflow.steps wf) ctx [] m0) as [x m1].
  destruct (set_running false m1) as [[] m2]. cbn [snd].
  destruct (circuit_breaker (engine m2)) as [cb|].
  - destruct (exit_final_status x).
    + destruct (set_circuit_breaker (CB.record_success cb) m2) as [[] m3].
      run_calls. reflexivity.
    + destruct (now m2) as [t1 m'].
      destruct (set_circuit_breaker _ m') as [[] m3].
      run_calls. reflexivity.
  - run_calls. reflexivity.
Qed.

Lemma set_running_sets b (m : Machine W) :
  the_running (snd (set_running b m)) = b.
Proof. destruct m as [[] ? ?]. reflexivity. Qed.

Lemma set_circuit_breaker_sets cb (m : Machine W) :
  the_breaker (snd (set_circuit_breaker cb m)) = Some cb.
Proof. destruct m as [[] ? ?]. reflexivity. Qed.

Lemma now_keeps {X} (f : WorkflowEngine W -> X) (m : Machine W) :
  f (engine (snd (now m))) = f (engine m).
Proof. unfold now, call_world. destruct (datetime_now (world m)). reflexivity. Qed.

(** After [run_steps] the engine is not running. *)
Lemma run_steps_idle wf rid start t ctx l (m : Machine W) :
  the_running (snd (run_steps wf rid start t ctx l m)) = false.
Proof.
  rewrite run_steps_unfold.
  destruct (step_loop wf rid start l 0 (Workflow.steps wf) ctx []
              (snd (set_running true m))) as [x m1].
  cbv zeta.
  pose proof (set_running_sets false m1) as H2.
  set (m2 := snd (set_running false m1)) in *.
  assert (H3 : the_running
                 (snd (match circuit_breaker (engine m2) with
                       | Some cb =>
                           match exit_final_status x with
                           | WorkflowStatus.COMPLETED =>
                               set_circuit_breaker (CB.record_success cb) m2
                           | WorkflowStatus.FAILED =>
                               let '(t1, m') := now m2 in
                               set_circuit_breaker
                                 (CB.record_failure cb (timestamp t1)) m'
                           end
                       | None => (tt, m2)
                       end)) = false).
  { destruct (circuit_breaker (engine m2)) as [cb|]; [|exact H2].
    destruct (exit_final_status x).
    - rewrite running_set_circuit_breaker. exact H2.
    - pose proof (now_keeps _running m2) as Hn.
      destruct (now m2) as [t1 m']. rewrite running_set_circuit_breaker.
      simpl in Hn. unfold the_running. congruence. }
  destruct (match circuit_breaker (engine m2) with
            | Some _ => _ | None => _ end) as [[] m3].
  simpl in H3.
  match goal with
  | |- context [_finalize_execution ?a ?b ?c ?d ?e m3] =>
      pose proof (running_finalize a b c d e m3) as H4;
      destruct (_finalize_execution a b c d e m3) as [[] m4]
  end.
  simpl in H4.
  pose proof (now_keeps _running m4) as H5.
  destruct (now m4) as [t' m5]. simpl in *. unfold the_running in *. congruence.
Qed.

(** What [run_steps] tells the breaker. *)
Lemma run_steps_breaker wf rid start t ctx l (m : Machine W) :
  match the_breaker m with
  | None => the_breaker (snd (run_steps wf rid start t ctx l m)) = None
  | Some cb =>
      match WorkflowResult.status (fst (run_steps wf rid start t ctx l m)) with
      | WorkflowStatus.COMPLETED =>
          the_breaker (snd (run_steps wf rid start t ctx l m))
          = Some (CB.record_success cb)
      | WorkflowStatus.FAILED =>
          exists t1,
            the_breaker (snd (run_steps wf rid start t ctx l m))
            = Some (CB.record_failure cb t1)
      end
  end.
Proof.
  rewrite run_steps_unfold.
  pose proof (breaker_set_running true m) as H0.
  pose proof (core_step_loop wf rid start l (Workflow.steps wf) 0 ctx []
                (snd (set_running true m))) as H1.
  destruct (step_loop wf rid start l 0 (Workflow.steps wf) ctx []
              (snd (set_running true m))) as [x m1].
  cbv zeta. cbn [snd] in H1.
  pose proof (breaker_set_running false m1) as H2.
  set (m2 := snd (set_running false m1)) in *.
  assert (Hb : the_breaker m2 = the_breaker m).
  { pose proof (f_equal snd H1 : the_breaker m1
                                 = the_breaker (snd (set_running true m))) as H1'.
    congruence. }
  unfold the_breaker in Hb at 1.
  destruct (the_breaker m) as [cb|] eqn:Ecb; rewrite Hb.
  - destruct (exit_final_status x) eqn:Est.
    + pose proof (set_circuit_breaker_sets (CB.record_success cb) m2) as H3.
      destruct (set_circuit_breaker (CB.record_success cb) m2) as [[] m3].
      simpl in H3.
      match goal with
      | |- context [_finalize_execution ?a ?b ?c ?d ?e m3] =>
          pose proof (breaker_finalize a b c d e m3) as H4;
          destruct (_finalize_execution a b c d e m3) as [[] m4]
      end.
      simpl in H4.
      pose proof (now_keeps circuit_breaker m4) as H5.
      destruct (now m4) as [t' m5]. simpl in *. unfold the_breaker in *. congruence.
    + destruct (now m2) as [t1 m'].
      pose proof (set_circuit_breaker_sets
                    (CB.record_failure cb (timestamp t1)) m') as H3.
      destruct (set_circuit_breaker _ m') as [[] m3]. simpl in H3.
      match goal with
      | |- context [_finalize_execution ?a ?b ?c ?d ?e m3] =>
          pose proof (breaker_finalize a b c d e m3) as H4;
          destruct (_finalize_execution a b c d e m3) as [[] m4]
      end.
      simpl in H4.
      pose proof (now_keeps circuit_breaker m4) as H5.
      destruct (now m4) as [t' m5]. simpl in *. exists (timestamp t1).
      unfold the_breaker in *. congruence.
  - match goal with
    | |- context [_finalize_execution ?a ?b ?c ?d ?e m2] =>
        pose proof (breaker_finalize a b c d e m2) as H4;
        destruct (_finalize_execution a b c d e m2) as [[] m4]
    end.
    simpl in H4.
    pose proof (now_keeps circuit_breaker m4) as H5.
    destruct (now m4) as [t' m5]. simpl in *. unfold the_breaker in *. congruence.
Qed.

(** The result of [run_steps]. *)
Lemma run_steps_outcome wf rid start t ctx l (m : Machine W) :
  WorkflowResult.agent_name (fst (run_steps wf rid start t ctx l m))
  = ExecutionContext.agent_name ctx
  /\ run_outcome (retry_policy (engine m)) (Workflow.error_handling wf)
       (pending start 0 (Workflow.steps wf))
       (WorkflowResult.step_results (fst (run_steps wf rid start t ctx l m)))
       (WorkflowResult.status (fst (run_steps wf rid start t ctx l m)))
       (WorkflowResult.error (fst (run_steps wf rid start t ctx l m))).
Proof.
  destruct (run_steps_result wf rid start t ctx l m) as (x & m1 & t' & Hl & ->).
  destruct (step_loop_outcome wf rid start l (Workflow.steps wf) 0 ctx []
              (snd (set_running true m))) as (Hag & new & Hr & Ho).
  assert (Hp : retry_policy (engine (snd (set_running true m)))
               = retry_policy (engine m)).
  { apply policy_of_the_setup, setup_set_running. }
  rewrite Hl in Hag, Hr, Ho. rewrite Hp in Ho. simpl in *.
  split; [exact Hag|]. rewrite Hr. exact Ho.
Qed.

(** [execute] on a run that the gate admits, that raises nothing and that
    passes validation: its result. *)
Lemma execute_outcome wf inputs agent resume (m : Machine W) :
  fst (gate m) = true ->
  fresh_run wf resume (snd (gate m)) ->
  valid_run wf inputs m ->
  exists r,
    fst (execute wf inputs agent resume m) = inr r
    /\ run_outcome (retry_policy (engine m)) (Workflow.error_handling wf)
         (pending (start_point wf resume m) 0 (Workflow.steps wf))
         (WorkflowResult.step_results r) (WorkflowResult.status r)
         (WorkflowResult.error r).
Proof.
  intros Hg Hf Hv.
  destruct (execute_valid wf inputs agent resume m Hg Hf Hv)
    as (rid & t & ctx & l & m6 & Hp & _ & _ & ->).
  pose proof (setup_prepare wf inputs resume (snd (gate m))) as Hs.
  rewrite Hp in Hs. simpl in Hs. rewrite setup_gate in Hs.
  apply policy_of_the_setup in Hs. rewrite <- Hs.
  eexists. split; [reflexivity|]. apply run_steps_outcome.
Qed.

(** A step among the pending ones whose retries raise, when the delays
    of all of them are defined: impossible. *)
Lemma no_delay_error p steps n step e :
  delays_defined_for p steps ->
  steps !! n = Some step ->
  delay_error p step e -> False.
Proof.
  intros Hd Hl (k & Hk & Hr).
  unfold delays_defined_for in Hd. rewrite Forall_lookup in Hd.
  rewrite (Hd n step Hl k Hk) in Hr. discriminate.
Qed.

(** X22. The results of a run follow its steps: [execute] returns one
    result per step, in the order of the steps and under their ids, from
    the start point as far as the run got. *)
Theorem results_follow_steps (wf : Workflow.t)
    (inputs : option (gmap string value)) (agent resume : option string)
    (m : Machine W) :
  fst (gate m) = true ->
  fresh_run wf resume (snd (gate m)) ->
  valid_run wf inputs m ->
  exists r,
    fst (execute wf inputs agent resume m) = inr r
    /\ (length (WorkflowResult.step_results r)
        <= length (pending (start_point wf resume m) 0 (Workflow.steps wf)))%nat
    /\ map StepResult.step_id (WorkflowResult.step_results r)
       = map WorkflowStep.id
           (take (length (WorkflowResult.step_results r))
              (pending (start_point wf resume m) 0 (Workflow.steps wf))).
Proof.
  intros Hg Hf Hv.
  destruct (execute_outcome wf inputs agent resume m Hg Hf Hv) as (r & Hr & Hids & _).
  exists r. split; [exact Hr|]. split; [|exact Hids].
  apply (f_equal length) in Hids. rewrite !length_map, length_take in Hids. lia.
Qed.

(** X23. Under the error handling [continue] a run never fails because
    a step failed: [execute] returns a completed result without an
    error, with one result for every step from the start point, failed
    ones included.  The one failed outcome is that the retries of a step
    raise what [get_delay] raises: the result is then failed with an
    "Unexpected error" and holds the results of the steps before that
    step.  It does not arise when [get_delay] raises for no retry of the
    steps to run. *)
Theorem continue_runs_every_step (wf : Workflow.t)
    (inputs : option (gmap string value)) (agent resume : option string)
    (m : Machine W) :
  fst (gate m) = true ->
  fresh_run wf resume (snd (gate m)) ->
  valid_run wf inputs m ->
  Workflow.error_handling wf = ErrorHandling.CONTINUE ->
  exists r,
    fst (execute wf inputs agent resume m) = inr r
    /\ match WorkflowResult.status r with
       | WorkflowStatus.COMPLETED =>
           WorkflowResult.error r = None
           /\ map StepResult.step_id (WorkflowResult.step_results r)
              = map WorkflowStep.id
                  (pending (start_point wf resume m) 0 (Workflow.steps wf))
       | WorkflowStatus.FAILED =>
           exists step e,
             pending (start_point wf resume m) 0 (Workflow.steps wf)
               !! length (WorkflowResult.step_results r) = Some step
             /\ delay_error (retry_policy (engine m)) step e
             /\ WorkflowResult.error r = Some ("Unexpected error: " +:+ e)
             /\ map StepResult.step_id (WorkflowResult.step_results r)
                = map WorkflowStep.id
                    (take (length (WorkflowResult.step_results r))
                       (pending (start_point wf resume m) 0 (Workflow.steps wf)))
       end
    /\ (delays_defined_for (retry_policy (engine m))
          (pending (start_point wf resume m) 0 (Workflow.steps wf)) ->
        WorkflowResult.status r = WorkflowStatus.COMPLETED).
Proof.
  intros Hg Hf Hv Hc.
  destruct (execute_outcome wf inputs agent resume m Hg Hf Hv)
    as (r & Hr & Hids & Hst).
  exists r. split; [exact Hr|].
  destruct (WorkflowResult.status r).
  - destruct Hst as (Hlen & He & _). split; [|reflexivity].
    split; [exact He|]. rewrite Hids, Hlen, firstn_all. reflexivity.
  - destruct Hst as [(Hne & _)|(step & e & Hl & Hd & He & _)]; [congruence|].
    split; [exists step, e; auto|].
    intros Hdef. destruct (no_delay_error _ _ _ _ _ Hdef Hl Hd).
Qed.

(** X24. Under the error handling [stop] or [rollback] the first failed
    step ends the run: a failed result is the last one, none before it
    failed, and the error names the step, with the step's error under
    [stop] and with "rollback triggered" under [rollback]; a completed
    result has a result for every step from the start point, none of
    them failed.  The one other failed outcome is that the retries of a
    step raise what [get_delay] raises: the result is then failed with
    an "Unexpected error" and holds the results of the steps before that
    step, none of them failed. *)
Theorem first_failure_ends_run (wf : Workflow.t)
    (inputs : option (gmap string value)) (agent resume : option string)
    (m : Machine W) :
  fst (gate m) = true ->
  fresh_run wf resume (snd (gate m)) ->
  valid_run wf inputs m ->
  Workflow.error_handling wf <> ErrorHandling.CONTINUE ->
  exists r,
    fst (execute wf inputs agent resume m) = inr r
    /\ match WorkflowResult.status r with
       | WorkflowStatus.COMPLETED =>
           WorkflowResult.error r = None
           /\ length (WorkflowResult.step_results r)
              = length (pending (start_point wf resume m) 0 (Workflow.steps wf))
           /\ Forall (fun sr => ~ failed sr) (WorkflowResult.step_results r)
       | WorkflowStatus.FAILED =>
           (exists before sr,
              WorkflowResult.step_results r = before ++ [sr]
              /\ failed sr
              /\ Forall (fun sr => ~ failed sr) before
              /\ WorkflowResult.error r
                 = Some (failure_message (Workflow.error_handling wf) sr))
           \/ (exists step e,
                 pending (start_point wf resume m) 0 (Workflow.steps wf)
                   !! length (WorkflowResult.step_results r) = Some step
                 /\ delay_error (retry_policy (engine m)) step e
                 /\ WorkflowResult.error r = Some ("Unexpected error: " +:+ e)
                 /\ Forall (fun sr => ~ failed sr) (WorkflowResult.step_results r))
       end.
Proof.
  intros Hg Hf Hv Hc.
  destruct (execute_outcome wf inputs agent resume m Hg Hf Hv)
    as (r & Hr & Hids & Hst).
  exists r. split; [exact Hr|].
  destruct (WorkflowResult.status r).
  - destruct Hst as (Hlen & He & Hall). auto.
  - destruct Hst as [(_ & Hex)|(step & e & Hl & Hd & He & Hall)].
    + left. exact Hex.
    + right. exists step, e. auto.
Qed.

(** X25. The outcome of a run reaches the breaker once: a run that gets
    past the gate and validation ends with one [record_success] on the
    breaker when its result is completed and with one [record_failure]
    when it is failed, on the breaker as the gate's [can_execute()] left
    it; so a failed run counts one failure more. *)
Theorem run_outcome_reaches_breaker (wf : Workflow.t)
    (inputs : option (gmap string value)) (agent resume : option string)
    (cb : CircuitBreaker) (m : Machine W) :
  fst (gate m) = true ->
  fresh_run wf resume (snd (gate m)) ->
  valid_run wf inputs m ->
  the_breaker (snd (gate m)) = Some cb ->
  exists r,
    fst (execute wf inputs agent resume m) = inr r
    /\ match WorkflowResult.status r with
       | WorkflowStatus.COMPLETED =>
           the_breaker (snd (execute wf inputs agent resume m))
           = Some (CB.record_success cb)
       | WorkflowStatus.FAILED =>
           exists t1 cb',
             the_breaker (snd (execute wf inputs agent resume m)) = Some cb'
             /\ cb' = CB.record_failure cb t1
             /\ _failure_count cb' = _failure_count cb + 1
             /\ _last_failure_time cb' = Some t1
       end.
Proof.
  intros Hg Hf Hv Hb.
  destruct (execute_valid wf inputs agent resume m Hg Hf Hv)
    as (rid & t & ctx & l & m6 & Hp & _ & _ & Hex).
  rewrite Hex. simpl.
  pose proof (breaker_prepare wf inputs resume (snd (gate m))) as Hbp.
  rewrite Hp in Hbp. simpl in Hbp.
  pose proof (run_steps_breaker wf rid (start_point wf resume m) t ctx l m6) as Hrb.
  rewrite Hbp, Hb in Hrb.
  eexists. split; [reflexivity|].
  destruct (WorkflowResult.status _); [exact Hrb|].
  destruct Hrb as [t1 Hrb]. exists t1, (CB.record_failure cb t1).
  split; [exact Hrb|]. split; [reflexivity|]. split; reflexivity.
Qed.

(** X26. The [agent_name] argument of [execute] has no effect on a run
    that gets past the gate: the result names the agent of the engine's
    configuration, ["opencode"] when none is configured, and [execute]
    returns the same result and leaves the same machine whatever
    [agent_name] is passed. *)
Theorem agent_override_is_ignored (wf : Workflow.t)
    (inputs : option (gmap string value)) (agent resume : option string)
    (m : Machine W) :
  fst (gate m) = true ->
  fresh_run wf resume (snd (gate m)) ->
  (exists r,
     fst (execute wf inputs agent resume m) = inr r
     /\ WorkflowResult.agent_name r
        = default "opencode"%string (config_agent_primary (engine m)))
  /\ forall agent',
       execute wf inputs agent' resume m = execute wf inputs agent resume m.
Proof.
  intros Hg Hf. split.
  - rewrite (execute_via_prepare wf inputs agent resume m Hg).
    pose proof (prepare_result wf inputs resume (snd (gate m))) as Hp.
    pose proof (setup_gate m) as Hs0.
    destruct (prepare wf inputs resume (snd (gate m)))
      as [[[[[[rid start] t] ctx] l] created] m6].
    simpl in Hp. destruct Hp as (_ & _ & Hagent & _ & _ & Hcreated).
    rewrite (Hcreated Hf).
    assert (Hcfg : config_agent_primary (engine (snd (gate m)))
                   = config_agent_primary (engine m)).
    { unfold the_setup in Hs0. injection Hs0 as _ _ Hc _. exact Hc. }
    rewrite Hcfg in Hagent.
    destruct (_validate_execution (engine m6) wf ctx) as [|e es].
    + eexists. split; [reflexivity|].
      destruct (run_steps_outcome wf rid start t ctx l m6) as [Ha _].
      simpl. congruence.
    + eexists. split; [reflexivity|].
      unfold fail_validation, mbind, M_bind, mret, M_ret.
      run_calls. simpl. exact Hagent.
  - intros agent'.
    rewrite (execute_via_prepare wf inputs agent resume m Hg).
    rewrite (execute_via_prepare wf inputs agent' resume m Hg). reflexivity.
Qed.

(** X27. [execute] never leaves the engine marked as running: on an
    engine that is not running, as the constructor leaves it, the flag is
    clear again when [execute] returns or raises, whichever way the run
    ends. *)
Theorem execute_ends_idle (wf : Workflow.t)
    (inputs : option (gmap string value)) (agent resume : option string)
    (m : Machine W) :
  the_running m = false ->
  the_running (snd (execute wf inputs agent resume m)) = false.
Proof.
  intros Hidle. pose proof (running_gate m) as Hg0.
  destruct (fst (gate m)) eqn:Hg.
  - rewrite (execute_via_prepare wf inputs agent resume m Hg).
    pose proof (running_prepare wf inputs resume (snd (gate m))) as Hp.
    destruct (prepare wf inputs resume (snd (gate m)))
      as [[[[[[rid start] t] ctx] l] created] m6].
    simpl in Hp.
    destruct created as [e|]; [simpl; congruence|].
    destruct (_validate_execution (engine m6) wf ctx) as [|e es]; simpl.
    + apply run_steps_idle.
    + rewrite running_fail_validation. congruence.
  - rewrite (execute_refused wf inputs agent resume m Hg). simpl.
    rewrite running_refuse. congruence.
Qed.

End Outcomes.

(** ** The further properties, on runs *)

Lemma skipped_step_leaves_no_record_witness :
  (exists t1 t2,
     fst (loop_body Scenario.guarded_by_word "r" None 0 Scenario.never_step
            Scenario.blank_context [] Scenario.plain)
     = Next (ExecutionContext.set_current_step_index Scenario.blank_context 0)
         ([] ++ [skipped Scenario.never_step t1 t2]))
  /\ the_store (snd (loop_body Scenario.guarded_by_word "r" None 0
                       Scenario.never_step Scenario.blank_context [] Scenario.plain))
     = the_store Scenario.plain
  /\ the_core (snd (loop_body Scenario.guarded_by_word "r" None 0
                      Scenario.never_step Scenario.blank_context [] Scenario.plain))
     = the_core Scenario.plain
  /\ trace (snd (loop_body Scenario.guarded_by_word "r" None 0
                   Scenario.never_step Scenario.blank_context [] Scenario.plain))
     = trace Scenario.plain
  /\ the_logger (snd (loop_body Scenario.guarded_by_word "r" None 0
                        Scenario.never_step Scenario.blank_context [] Scenario.plain))
     = the_logger
         (snd (log_append None
                 (LogEntry.step_started (WorkflowStep.name Scenario.never_step) 0)
                 Scenario.plain)).
Proof.
  apply (skipped_step_leaves_no_record Scenario.guarded_by_word "r" None 0
           Scenario.never_step Scenario.blank_context [] Scenario.plain).
  vm_compute. reflexivity.
Defined.

Lemma run_step_saves_checkpoint_witness :
  the_store Scenario.plain = Some StateStore.empty
  /\ ((exists e,
         fst (loop_body Scenario.one_step "r" None 0
                (Demo.step "s0" "t.a" [] (Some "a"%string) [] 3)
                Scenario.blank_context [] Scenario.plain)
         = Raise e (ExecutionContext.set_current_step_index Scenario.blank_context 0)
             []
         /\ delay_error (retry_policy (engine Scenario.plain))
              (Demo.step "s0" "t.a" [] (Some "a"%string) [] 3) e
         /\ the_store
              (snd (loop_body Scenario.one_step "r" None 0
                      (Demo.step "s0" "t.a" [] (Some "a"%string) [] 3)
                      Scenario.blank_context [] Scenario.plain))
            = Some StateStore.empty)
      \/ (exists sr started,
            control_results
              (fst (loop_body Scenario.one_step "r" None 0
                      (Demo.step "s0" "t.a" [] (Some "a"%string) [] 3)
                      Scenario.blank_context [] Scenario.plain))
            = [] ++ [sr]
            /\ attempted (Demo.step "s0" "t.a" [] (Some "a"%string) [] 3) sr
            /\ StepResult.started_at sr = Some started
            /\ the_store
                 (snd (loop_body Scenario.one_step "r" None 0
                         (Demo.step "s0" "t.a" [] (Some "a"%string) [] 3)
                         Scenario.blank_context [] Scenario.plain))
               = Some (StateStore.save_checkpoint StateStore.empty
                         (checkpoint_of "r" 0
                            (Demo.step "s0" "t.a" [] (Some "a"%string) [] 3)
                            sr started))
            /\ StepCheckpoint.status
                 (checkpoint_of "r" 0
                    (Demo.step "s0" "t.a" [] (Some "a"%string) [] 3) sr started)
               = (if StepResult.success sr then ExecutionStatus.COMPLETED
                  else ExecutionStatus.FAILED)
            /\ StepCheckpoint.outputs
                 (checkpoint_of "r" 0
                    (Demo.step "s0" "t.a" [] (Some "a"%string) [] 3) sr started)
               = (if Py.truthy (StepResult.output sr)
                  then Some (StepResult.output sr) else None))).
Proof.
  split; [reflexivity|].
  apply (run_step_saves_checkpoint Scenario.one_step "r" None 0
           (Demo.step "s0" "t.a" [] (Some "a"%string) [] 3)
           Scenario.blank_context [] StateStore.empty Scenario.plain).
  - reflexivity.
  - reflexivity.
Defined.

(** The step of the run above is saved with its output. *)
Example run_step_checkpoint_saved :
  (StepCheckpoint.outputs
     <$> (the_store
            (snd (loop_body Scenario.one_step "r" None 0
                    (Demo.step "s0" "t.a" [] (Some "a"%string) [] 3)
                    Scenario.blank_context [] Scenario.plain))
          ≫= fun store => StateStore.checkpoints store !! ("r"%string, 0)))
  = Some (Some (VStr "x")).
Proof. vm_compute. reflexivity. Qed.

Lemma results_follow_steps_witness :
  fst (gate Cases.failing) = true
  /\ valid_run Cases.strict None Cases.failing
  /\ exists r,
       fst (execute Cases.strict None None None Cases.failing) = inr r
       /\ (length (WorkflowResult.step_results r)
           <= length (pending (start_point Cases.strict None Cases.failing) 0
                        (Workflow.steps Cases.strict)))%nat
       /\ map StepResult.step_id (WorkflowResult.step_results r)
          = map WorkflowStep.id
              (take (length (WorkflowResult.step_results r))
                 (pending (start_point Cases.strict None Cases.failing) 0
                    (Workflow.steps Cases.strict))).
Proof.
  split; [reflexivity|]. split; [reflexivity|].
  apply (results_follow_steps Cases.strict None None None Cases.failing).
  - reflexivity.
  - vm_compute. reflexivity.
  - reflexivity.
Defined.

Lemma continue_runs_every_step_witness :
  Workflow.error_handling Cases.lenient = ErrorHandling.CONTINUE
  /\ exists r,
       fst (execute Cases.lenient None None None Cases.failing) = inr r
       /\ match WorkflowResult.status r with
          | WorkflowStatus.COMPLETED =>
              WorkflowResult.error r = None
              /\ map StepResult.step_id (WorkflowResult.step_results r)
                 = map WorkflowStep.id
                     (pending (start_point Cases.lenient None Cases.failing) 0
                        (Workflow.steps Cases.lenient))
          | WorkflowStatus.FAILED =>
              exists step e,
                pending (start_point Cases.lenient None Cases.failing) 0
                  (Workflow.steps Cases.lenient)
                  !! length (WorkflowResult.step_results r) = Some step
                /\ delay_error (retry_policy (engine Cases.failing)) step e
                /\ WorkflowResult.error r = Some ("Unexpected error: " +:+ e)
                /\ map StepResult.step_id (WorkflowResult.step_results r)
                   = map WorkflowStep.id
                       (take (length (WorkflowResult.step_results r))
                          (pending (start_point Cases.lenient None Cases.failing) 0
                             (Workflow.steps Cases.lenient)))
          end
       /\ (delays_defined_for (retry_policy (engine Cases.failing))
             (pending (start_point Cases.lenient None Cases.failing) 0
                (Workflow.steps Cases.lenient)) ->
           WorkflowResult.status r = WorkflowStatus.COMPLETED).
Proof.
  split; [reflexivity|].
  apply (continue_runs_every_step Cases.lenient None None None Cases.failing).
  - reflexivity.
  - vm_compute. reflexivity.
  - reflexivity.
  - reflexivity.
Defined.

(** The run of the two steps under [continue]: the first result is failed,
    the second completed, and the run is completed. *)
Example continue_keeps_failed_results :
  exists r,
    fst (execute Cases.lenient None None None Cases.failing) = inr r
    /\ WorkflowResult.status r = WorkflowStatus.COMPLETED
    /\ map StepResult.status (WorkflowResult.step_results r)
       = [StepStatus.FAILED; StepStatus.COMPLETED].
Proof. eexists. split; [vm_compute; reflexivity|]. split; reflexivity. Qed.

Lemma first_failure_ends_run_witness :
  Workflow.error_handling Cases.strict <> ErrorHandling.CONTINUE
  /\ exists r,
       fst (execute Cases.strict None None None Cases.failing) = inr r
       /\ match WorkflowResult.status r with
          | WorkflowStatus.COMPLETED =>
              WorkflowResult.error r = None
              /\ length (WorkflowResult.step_results r)
                 = length (pending (start_point Cases.strict None Cases.failing) 0
                             (Workflow.steps Cases.strict))
              /\ Forall (fun sr => ~ failed sr) (WorkflowResult.step_results r)
          | WorkflowStatus.FAILED =>
              (exists before sr,
                 WorkflowResult.step_results r = before ++ [sr]
                 /\ failed sr
                 /\ Forall (fun sr => ~ failed sr) before
                 /\ WorkflowResult.error r
                    = Some (failure_message (Workflow.error_handling Cases.strict)
                              sr))
              \/ (exists step e,
                    pending (start_point Cases.strict None Cases.failing) 0
                      (Workflow.steps Cases.strict)
                      !! length (WorkflowResult.step_results r) = Some step
                    /\ delay_error (retry_policy (engine Cases.failing)) step e
                    /\ WorkflowResult.error r = Some ("Unexpected error: " +:+ e)
                    /\ Forall (fun sr => ~ failed sr)
                         (WorkflowResult.step_results r))
          end.
Proof.
  split; [discriminate|].
  apply (first_failure_ends_run Cases.strict None None None Cases.failing).
  - reflexivity.
  - vm_compute. reflexivity.
  - reflexivity.
  - discriminate.
Defined.

(** The run of the two steps under [stop]: it ends with the failed first
    step, and the second step is not run. *)
Example stop_ends_at_first_step :
  exists r,
    fst (execute Cases.strict None None None Cases.failing) = inr r
    /\ WorkflowResult.status r = WorkflowStatus.FAILED
    /\ map StepResult.step_id (WorkflowResult.step_results r) = ["s0"%string]
    /\ WorkflowResult.error r = Some "Step 's0' failed: boom"%string.
Proof.
  eexists. split; [vm_compute; reflexivity|]. repeat split; reflexivity.
Qed.

Lemma run_outcome_reaches_breaker_witness :
  the_breaker (snd (gate Cases.failing)) = Some (CB.init 2 30 3)
  /\ exists r,
       fst (execute Cases.strict None None None Cases.failing) = inr r
       /\ match WorkflowResult.status r with
          | WorkflowStatus.COMPLETED =>
              the_breaker (snd (execute Cases.strict None None None Cases.failing))
              = Some (CB.record_success (CB.init 2 30 3))
          | WorkflowStatus.FAILED =>
              exists t1 cb',
                the_breaker (snd (execute Cases.strict None None None Cases.failing))
                = Some cb'
                /\ cb' = CB.record_failure (CB.init 2 30 3) t1
                /\ _failure_count cb' = _failure_count (CB.init 2 30 3) + 1
                /\ _last_failure_time cb' = Some t1
          end.
Proof.
  split; [reflexivity|].
  apply (run_outcome_reaches_breaker Cases.strict None None None
           (CB.init 2 30 3) Cases.failing).
  - reflexivity.
  - vm_compute. reflexivity.
  - reflexivity.
  - reflexivity.
Defined.

Lemma agent_override_is_ignored_witness :
  (exists r,
     fst (execute Scenario.one_step None (Some "claude"%string) None Scenario.plain)
     = inr r
     /\ WorkflowResult.agent_name r
        = default "opencode"%string (config_agent_primary (engine Scenario.plain)))
  /\ forall agent',
       execute Scenario.one_step None agent' None Scenario.plain
       = execute Scenario.one_step None (Some "claude"%string) None Scenario.plain.
Proof.
  apply (agent_override_is_ignored Scenario.one_step None (Some "claude"%string)
           None Scenario.plain).
  - reflexivity.
  - vm_compute. reflexivity.
Defined.

Lemma execute_ends_idle_witness :
  the_running Cases.constructed = false
  /\ the_running (snd (execute Scenario.one_step None None None Cases.constructed))
     = false.
Proof.
  split; [reflexivity|].
  apply (execute_ends_idle Scenario.one_step None None None Cases.constructed).
  reflexivity.
Defined.

(** A run whose retries raise: the tool fails, the policy has base 1e308,
    and [get_delay(3)] is out of range.  Under [continue] as under [stop]
    the run is failed with an "Unexpected error" after two sleeps, and it
    has no step result. *)
Example raising_retries_fail_the_run :
  (exists r,
     fst (execute Cases.eager_continue None None None Cases.overflowing) = inr r
     /\ WorkflowResult.status r = WorkflowStatus.FAILED
     /\ WorkflowResult.step_results r = []
     /\ WorkflowResult.error r
        = Some "Unexpected error: (34, 'Numerical result out of range')"%string)
  /\ (exists r,
        fst (execute Cases.eager_stop None None None Cases.overflowing) = inr r
        /\ WorkflowResult.status r = WorkflowStatus.FAILED
        /\ WorkflowResult.step_results r = []
        /\ WorkflowResult.error r
           = Some "Unexpected error: (34, 'Numerical result out of range')"%string)
  /\ length (sleeps (trace (snd (execute Cases.eager_stop None None None
                                   Cases.overflowing))))
     = 2%nat
  /\ the_running (snd (execute Cases.eager_stop None None None Cases.overflowing))
     = false.
Proof.
  split; [|split; [|split]].
  - eexists. split; [vm_compute; reflexivity|]. repeat split; reflexivity.
  - eexists. split; [vm_compute; reflexivity|]. repeat split; reflexivity.
  - vm_compute. reflexivity.
  - vm_compute. reflexivity.
Qed.

(** ** The cost of a run *)

Section Bounds.

Context {W : Type} `{Host W}.

#[local] Existing Instance M_ret.
#[local] Existing Instance M_bind.

Lemma policy_of_setup (m m' : Machine W) :
  the_setup m' = the_setup m -> retry_policy (engine m') = retry_policy (engine m).
Proof. unfold the_setup. intros Hs. injection Hs as _ _ _ Hp. exact Hp. Qed.

(** Code that neither writes to the trace nor to the set-up. *)
Lemma bounded_quiet {A} p (c : M A) :
  preserves (W := W) c trace -> preserves c the_setup -> bounded p c 0 0.
Proof.
  intros Ht Hs m Hp. exists []. rewrite Ht, app_nil_r.
  split; [reflexivity|]. split; [rewrite (policy_of_setup _ _ (Hs m)); exact Hp|].
  split; [reflexivity|]. split; [reflexivity|constructor].
Qed.

Lemma bounded_ret {A} p (a : A) : bounded (W := W) p (mret a) 0 0.
Proof. apply bounded_quiet; apply preserves_ret. Qed.

Lemma bounded_bind {A B} p (c : M A) (k : A -> M B) d1 s1 d2 s2 :
  bounded (W := W) p c d1 s1 ->
  (forall a, bounded p (k a) d2 s2) ->
  bounded p (c ≫= k) (d1 + d2) (s1 + s2).
Proof.
  intros Hc Hk m Hp. unfold mbind, M_bind.
  destruct (Hc m Hp) as (e1 & Ht1 & Hp1 & Hd1 & Hs1 & Hf1).
  destruct (c m) as [a m1]. simpl in Ht1, Hp1.
  destruct (Hk a m1 Hp1) as (e2 & Ht2 & Hp2 & Hd2 & Hs2 & Hf2).
  exists (e1 ++ e2). rewrite Ht2, Ht1, app_assoc.
  split; [reflexivity|]. split; [exact Hp2|].
  rewrite dispatches_app, sleeps_app, length_app.
  split; [lia|]. split; [lia|]. apply Forall_app. auto.
Qed.

Lemma bounded_weaken {A} p (c : M A) d s d' s' :
  (d <= d')%nat -> (s <= s')%nat -> bounded (W := W) p c d s -> bounded p c d' s'.
Proof.
  intros Hd Hs Hc m Hp. destruct (Hc m Hp) as (evs & Ht & Hp' & Hd' & Hs' & Hf).
  exists evs. split; [exact Ht|]. split; [exact Hp'|].
  split; [lia|]. split; [lia|exact Hf].
Qed.

Lemma bounded_after_quiet {A B} p (c : M A) (k : A -> M B) d s :
  bounded (W := W) p c 0 0 ->
  (forall a, bounded p (k a) d s) ->
  bounded p (c ≫= k) d s.
Proof.
  intros Hc Hk. apply (bounded_weaken p _ (0 + d) (0 + s)); [lia|lia|].
  apply bounded_bind; assumption.
Qed.

Lemma bounded_then_quiet {A B} p (c : M A) (k : A -> M B) d s :
  bounded (W := W) p c d s ->
  (forall a, bounded p (k a) 0 0) ->
  bounded p (c ≫= k) d s.
Proof.
  intros Hc Hk. apply (bounded_weaken p _ (d + 0) (s + 0)); [lia|lia|].
  apply bounded_bind; assumption.
Qed.

Lemma bounded_more {A} p (c : M A) d s :
  bounded (W := W) p c 0 0 -> bounded p c d s.
Proof. apply bounded_weaken; lia. Qed.

Lemma capped_without_sleep p evs : sleeps evs = [] -> Forall (is_capped p) evs.
Proof.
  induction evs as [|e evs IH]; intros Hs; [constructor|].
  unfold sleeps in Hs. simpl in Hs.
  destruct e; simpl in Hs; try discriminate;
    (constructor; [exact I|apply IH; exact Hs]).
Qed.

Lemma bounded_attempt_step p step context :
  bounded (W := W) p (attempt_step step context) 1 0.
Proof.
  intros m Hp.
  destruct (attempt_step_dispatches step context m)
    as (evs & Ht & Hsl & Hd & _ & Hs).
  exists evs. split; [exact Ht|].
  split; [rewrite (policy_of_setup _ _ Hs); exact Hp|].
  split; [exact Hd|]. split; [rewrite Hsl; reflexivity|].
  apply capped_without_sleep, Hsl.
Qed.

Lemma bounded_wait_before_retry p step context log mr a :
  bounded (W := W) p (wait_before_retry step context log mr a) 0 1.
Proof.
  intros m Hp.
  pose proof (wait_before_retry_effect step context log mr a m) as Hw.
  destruct (get_delay_raises (retry_policy (engine m)) (a + 1)) as [e|].
  { rewrite Hw. simpl. exists []. rewrite app_nil_r.
    split; [reflexivity|]. split; [exact Hp|].
    split; [unfold dispatches; simpl; lia|]. split; [simpl; lia|constructor]. }
  destruct Hw as (u & m1 & Hw & Ht & Hs & _).
  rewrite Hw. simpl. eexists. split; [exact Ht|].
  split; [rewrite (policy_of_setup _ _ Hs); exact Hp|].
  split; [reflexivity|]. split; [reflexivity|].
  constructor; [|constructor]. simpl. rewrite Hp.
  unfold get_delay. apply pymin_le_r.
Qed.

(** The retry loop with [n] iterations left at attempt index [a]: at most
    [n] attempts, and a wait only while [a] is below the budget. *)
Lemma bounded_retry_loop p step context log t0 mr n :
  forall a le,
    bounded (W := W) p (retry_loop step context log t0 mr n a le)
      n (Z.to_nat (mr - a)).
Proof.
  induction n as [|n IH]; intros a le; cbn [retry_loop].
  - apply bounded_more, bounded_quiet; frame.
  - apply (bounded_weaken p _ (1 + n) (0 + Z.to_nat (mr - a))); [lia|lia|].
    apply bounded_bind; [apply bounded_attempt_step|].
    intros [e|v].
    + destruct (a <? mr) eqn:Hlt.
      * apply Z.ltb_lt in Hlt.
        apply (bounded_weaken p _ (0 + n) (1 + Z.to_nat (mr - (a + 1))));
          [lia|lia|].
        apply bounded_bind; [apply bounded_wait_before_retry|].
        intros [e'|]; [apply bounded_more, bounded_quiet; frame|apply IH].
      * apply Z.ltb_ge in Hlt.
        apply bounded_after_quiet; [apply bounded_ret|].
        intros [e'|]; [apply bounded_more, bounded_quiet; frame|].
        apply (bounded_weaken p _ n (Z.to_nat (mr - (a + 1)))); [lia|lia|].
        apply IH.
    + apply bounded_more, bounded_quiet; frame.
Qed.

Lemma bounded_execute_step_with_retry p step context log :
  bounded (W := W) p (_execute_step_with_retry step context log)
    (Z.to_nat (budget p step + 1)) (Z.to_nat (budget p step)).
Proof.
  intros m Hp. rewrite execute_step_with_retry_unfold.
  assert (Hnow : engine (snd (now m)) = engine m /\ trace (snd (now m)) = trace m).
  { unfold now, call_world. destruct (datetime_now (world m)). split; reflexivity. }
  destruct Hnow as [Heng Htr]. destruct (now m) as [t0 m0]. simpl in Heng, Htr.
  rewrite Heng, Hp. fold (budget p step).
  destruct (bounded_retry_loop p step context log t0 (budget p step)
              (Z.to_nat (budget p step + 1)) 0 None m0)
    as (evs & Ht & Hp' & Hd & Hs & Hf); [congruence|].
  exists evs. split; [congruence|]. split; [exact Hp'|].
  split; [exact Hd|]. split; [|exact Hf].
  replace (budget p step - 0) with (budget p step) in Hs by lia. exact Hs.
Qed.

Lemma setup_save_step_checkpoint rid i step sr :
  preserves (W := W) (save_step_checkpoint rid i step sr) the_setup.
Proof. unfold save_step_checkpoint. frame. Qed.

Lemma setup_log_step_completion l i step sr :
  preserves (W := W) (log_step_completion l i step sr) the_setup.
Proof. unfold log_step_completion. frame; apply setup_log_append. Qed.

Lemma bounded_loop_body p wf rid log i step context rs :
  bounded (W := W) p (loop_body wf rid log i step context rs)
    (Z.to_nat (budget p step + 1)) (Z.to_nat (budget p step)).
Proof.
  unfold loop_body.
  apply bounded_after_quiet;
    [apply bounded_quiet; [apply trace_log_append|apply setup_log_append]|].
  intros _. destruct (negb _).
  - apply bounded_more, bounded_quiet; frame.
  - apply bounded_then_quiet; [apply bounded_execute_step_with_retry|].
    intros [e|sr]; [apply bounded_quiet; frame|].
    apply bounded_after_quiet;
      [apply bounded_quiet;
         [apply trace_save_step_checkpoint|apply setup_save_step_checkpoint]|].
    intros _.
    apply bounded_after_quiet;
      [apply bounded_quiet;
         [apply trace_log_step_completion|apply setup_log_step_completion]|].
    intros _. unfold _rollback.
    apply bounded_quiet; frame.
Qed.

Lemma bounded_step_loop p wf rid start log steps :
  forall i context rs,
    bounded (W := W) p (step_loop wf rid start log i steps context rs)
      (attempts_bound p steps) (waits_bound p steps).
Proof.
  induction steps as [|step rest IH]; intros i context rs; cbn [step_loop].
  - apply bounded_ret.
  - cbn [attempts_bound waits_bound foldr].
    fold (attempts_bound p rest). fold (waits_bound p rest).
    destruct (i <? start).
    + eapply bounded_weaken; [| |apply IH]; lia.
    + apply bounded_bind; [apply bounded_loop_body|].
      intros [x|c' rs'|e c' rs'].
      * apply bounded_more, bounded_ret.
      * apply IH.
      * apply bounded_more, bounded_ret.
Qed.

Lemma bounded_run_steps p wf rid start t ctx l :
  bounded (W := W) p (run_steps wf rid start t ctx l)
    (attempts_bound p (Workflow.steps wf)) (waits_bound p (Workflow.steps wf)).
Proof.
  unfold run_steps.
  apply bounded_after_quiet; [apply bounded_quiet; frame|]. intros _.
  apply bounded_then_quiet; [apply bounded_step_loop|]. intros x.
  apply bounded_quiet.
  - frame. apply trace_finalize.
  - frame. apply setup_finalize.
Qed.

Lemma setup_refuse wf a r : preserves (W := W) (refuse wf a r) the_setup.
Proof. unfold refuse. frame. apply setup_generate_run_id. Qed.

Lemma setup_fail_validation wf r t c l v :
  preserves (W := W) (fail_validation wf r t c l v) the_setup.
Proof. unfold fail_validation. frame. apply setup_finalize. Qed.

(** What [execute] asks of the world, on an engine with the policy [p]. *)
Lemma bounded_execute p wf inputs agent resume :
  bounded (W := W) p (execute wf inputs agent resume)
    (attempts_bound p (Workflow.steps wf)) (waits_bound p (Workflow.steps wf)).
Proof.
  unfold execute.
  apply bounded_after_quiet;
    [apply bounded_quiet; [apply trace_gate|apply setup_gate]|].
  intros allowed. destruct (negb allowed).
  - apply bounded_more, bounded_quiet.
    + frame. apply trace_refuse.
    + frame. apply setup_refuse.
  - apply bounded_after_quiet;
      [apply bounded_quiet;
         [apply trace_determine_run|apply setup_determine_run]|].
    intros [rid start].
    apply bounded_after_quiet; [apply bounded_quiet; frame|]. intros t.
    apply bounded_after_quiet;
      [apply bounded_quiet;
         [apply trace_create_context|apply setup_create_context]|].
    intros ctx.
    apply bounded_after_quiet;
      [apply bounded_quiet;
         [apply trace_start_logging|apply setup_start_logging]|].
    intros l.
    apply bounded_after_quiet;
      [apply bounded_quiet;
         [apply trace_create_record|apply setup_create_record]|].
    intros [e|].
    + apply bounded_more, bounded_ret.
    + apply bounded_after_quiet; [apply bounded_quiet; frame|]. intros eng.
      destruct (_validate_execution eng wf ctx) as [|e es].
      * apply bounded_then_quiet; [apply bounded_run_steps|]. intros r.
        apply bounded_ret.
      * apply bounded_more, bounded_quiet.
        -- frame. apply trace_fail_validation.
        -- frame. apply setup_fail_validation.
Qed.

(** X28. The cost of a run is bounded by the budgets of its steps: with
    the budget of a step the smaller of its [max_retries] and the
    policy's, [execute] calls the agent adapter and the tools at most
    [budget + 1] times per step, summed over the steps, and sleeps at
    most [budget] times per step; a negative budget counts as no attempt
    and no sleep. *)
Theorem run_cost_is_bounded (wf : Workflow.t)
    (inputs : option (gmap string value)) (agent resume : option string)
    (m : Machine W) :
  exists evs,
    trace (snd (execute wf inputs agent resume m)) = trace m ++ evs
    /\ (dispatches evs
        <= attempts_bound (retry_policy (engine m)) (Workflow.steps wf))%nat
    /\ (length (sleeps evs)
        <= waits_bound (retry_policy (engine m)) (Workflow.steps wf))%nat.
Proof.
  destruct (bounded_execute (retry_policy (engine m)) wf inputs agent resume
              m eq_refl) as (evs & Ht & _ & Hd & Hs & _).
  exists evs. auto.
Qed.

Lemma capped_sleeps p evs :
  Forall (is_capped p) evs -> Forall (fun d => (d <= max_delay p)%Q) (sleeps evs).
Proof.
  induction 1 as [|e evs He _ IH]; [constructor|].
  unfold sleeps. simpl. destruct e; simpl; try exact IH.
  constructor; [exact He|exact IH].
Qed.

(** X29. No sleep of a run is longer than the policy's [max_delay], and
    the policy is the same after the run: whatever the steps, their
    retries and the jitter, every delay that [execute] passes to
    [asyncio.sleep] is at most [max_delay]. *)
Theorem run_sleeps_are_capped (wf : Workflow.t)
    (inputs : option (gmap string value)) (agent resume : option string)
    (m : Machine W) :
  exists evs,
    trace (snd (execute wf inputs agent resume m)) = trace m ++ evs
    /\ Forall (fun d => (d <= max_delay (retry_policy (engine m)))%Q) (sleeps evs)
    /\ retry_policy (engine (snd (execute wf inputs agent resume m)))
       = retry_policy (engine m).
Proof.
  destruct (bounded_execute (retry_policy (engine m)) wf inputs agent resume
              m eq_refl) as (evs & Ht & Hp & _ & _ & Hf).
  exists evs. split; [exact Ht|]. split; [apply capped_sleeps, Hf|exact Hp].
Qed.

(** X30. [_execute_step], the deprecated entry point, is
    [_execute_step_with_retry] without a log: it retries in the same way
    and ends in the same way, with a result that carries the id of the
    step and both time stamps or with what [get_delay] raises for a
    retry within the budget; it writes no [step_retrying] entry, and it
    leaves the state store, the logger, the breaker and the set-up of the
    engine as they were. *)
Theorem execute_step_keeps_no_books (step : WorkflowStep.t)
    (context : ExecutionContext.t) (m : Machine W) :
  _execute_step step context m = _execute_step_with_retry step context None m
  /\ match fst (_execute_step step context m) with
     | inr r => attempted step r
     | inl e => delay_error (retry_policy (engine m)) step e
     end
  /\ the_logger (snd (_execute_step step context m)) = the_logger m
  /\ the_store (snd (_execute_step step context m)) = the_store m
  /\ the_core (snd (_execute_step step context m)) = the_core m.
Proof.
  unfold _execute_step. split; [reflexivity|].
  split; [apply retried_step_shape|].
  split; [|split].
  - apply (frame_execute_step_with_retry _ the_logger None); try reflexivity.
    + apply logger_set_running.
    + intros e. apply preserves_ret.
  - apply store_execute_step_with_retry.
  - apply core_execute_step_with_retry.
Qed.

End Bounds.
(** ** Conditions, run ids and resumed runs: the step loop as a whole *)

Section WholeRuns.

Context {W : Type} `{Host W}.

#[local] Existing Instance M_ret.
#[local] Existing Instance M_bind.



(** The run id of a refusal. *)
Lemma refuse_run_id wf agent resume (m : Machine W) :
  WorkflowResult.run_id (fst (refuse wf agent resume m))
  = match nonempty resume with
    | Some r => r
    | None => fst (_generate_run_id (Workflow.id wf) m)
    end.
Proof.
  unfold refuse, mbind, M_bind, mret, M_ret.
  destruct (nonempty resume) as [r|].
  - run_calls. reflexivity.
  - destruct (_generate_run_id (Workflow.id wf) m) as [rid m1].
    run_calls. reflexivity.
Qed.

(** The run id of a run that the gate admits. *)
Lemma execute_run_id wf inputs agent resume (m : Machine W) :
  fst (gate m) = true ->
  fresh_run wf resume (snd (gate m)) ->
  exists r,
    fst (execute wf inputs agent resume m) = inr r
    /\ WorkflowResult.run_id r
       = fst (fst (determine_run wf resume (snd (gate m)))).
Proof.
  intros Hg Hfresh.
  destruct (execute_admitted wf inputs agent resume m Hg Hfresh)
    as (rid & start & t & ctx & l & m5 & Hdet & _ & _ & _ & _ & Hex).
  rewrite Hex, Hdet. destruct (validation_errors _ _ _ _) as [|e es]; simpl.
  - eexists. split; [reflexivity|].
    destruct (run_steps_result wf rid start t ctx l m5)
      as (x & m' & t' & _ & ->). reflexivity.
  - eexists. split; [reflexivity|]. apply fail_validation_result.
Qed.

(** A run that resumes: [resume_from] is given, the gate admits the run
    and the engine has a state store. *)
Lemma execute_resumed wf inputs agent resume rid store (m : Machine W) :
  fst (gate m) = true ->
  nonempty resume = Some rid ->
  the_store m = Some store ->
  start_point wf resume m = StateStore.get_resume_point store rid
  /\ exists r evs,
       fst (execute wf inputs agent resume m) = inr r
       /\ WorkflowResult.run_id r = rid
       /\ trace (snd (execute wf inputs agent resume m)) = trace m ++ evs
       /\ Forall (fun e => StateStore.get_resume_point store rid <= event_index e)
            evs
       /\ (valid_run wf inputs m ->
           run_outcome (retry_policy (engine m)) (Workflow.error_handling wf)
             (pending (StateStore.get_resume_point store rid) 0
                (Workflow.steps wf))
             (WorkflowResult.step_results r) (WorkflowResult.status r)
             (WorkflowResult.error r)
           /\ exists vars,
                WorkflowResult.final_output r = Some vars
                /\ forall name,
                     is_Some (vars !! name) ->
                     exists (j : nat) step,
                       Workflow.steps wf !! j = Some step
                       /\ StateStore.get_resume_point store rid <= Z.of_nat j
                       /\ WorkflowStep.output_variable step = Some name).
Proof.
  intros Hg Hne Hstore.
  assert (Hfresh : fresh_run wf resume (snd (gate m))).
  { unfold fresh_run. rewrite Hne.
    destruct (the_store (snd (gate m))); exact I. }
  assert (Hrun : determine_run wf resume (snd (gate m))
                 = ((rid, StateStore.get_resume_point store rid), snd (gate m))).
  { apply determine_run_resumed; [exact Hne|rewrite store_gate; exact Hstore]. }
  split; [unfold start_point; rewrite Hrun; reflexivity|].
  destruct (execute_admitted wf inputs agent resume m Hg Hfresh)
    as (rid' & start & t & ctx & l & m5 & Hdet & Htr & Hsetup & Hvars & _ & Hex).
  rewrite Hrun in Hdet. simpl in Hdet. injection Hdet as <- <-.
  unfold valid_run. rewrite Hex.
  destruct (validation_errors _ _ _ _) as [|e es]; simpl.
  - destruct (run_steps_result wf rid (StateStore.get_resume_point store rid)
                t ctx l m5) as (x & m' & t' & Hloop & Hres).
    destruct (emits_run_steps wf rid (StateStore.get_resume_point store rid)
                t ctx l m5) as (evs & He & Hf).
    destruct (run_steps_outcome wf rid (StateStore.get_resume_point store rid)
                t ctx l m5) as (_ & Hout).
    rewrite (policy_of_the_setup m m5 Hsetup) in Hout.
    exists (fst (run_steps wf rid (StateStore.get_resume_point store rid)
                   t ctx l m5)), evs.
    split; [reflexivity|].
    split; [rewrite Hres; reflexivity|].
    split; [rewrite He, Htr; reflexivity|].
    split; [eapply Forall_impl; [exact Hf|]; simpl; intros ? [? ?]; assumption|].
    intros _. split; [exact Hout|].
    rewrite Hres. simpl.
    exists (ExecutionContext.variables (exit_context x)).
    split; [reflexivity|]. intros name Hn.
    replace x with (fst (step_loop wf rid (StateStore.get_resume_point store rid)
                           l 0 (Workflow.steps wf) ctx []
                           (snd (set_running true m5)))) in Hn
      by (rewrite Hloop; reflexivity).
    apply step_loop_bound in Hn.
    destruct Hn as [Hc|(j & s & Hj & Hs & Ho)].
    + rewrite Hvars, lookup_empty in Hc. destruct Hc as [? Hc]. discriminate.
    + exists j, s. split; [exact Hj|]. split; [lia|exact Ho].
  - exists (fst (fail_validation wf rid t ctx l (e :: es) m5)), [].
    split; [reflexivity|].
    split; [apply fail_validation_result|].
    split; [rewrite trace_fail_validation, Htr, app_nil_r; reflexivity|].
    split; [constructor|]. intros Hv. discriminate.
Qed.

(** C5, as the code has it. [execute] settles on a run id before it does
    anything else.  If [resume_from] is given and the circuit breaker
    refuses the run, the refusal carries [resume_from] as its run id, has
    no step result and nothing is dispatched.  If [resume_from] is given,
    the gate admits the run and the engine has a state store, [execute]
    reuses [resume_from] as the run id, whether or not the store has a
    record for it, and starts the step loop at the store's resume point:
    no step below it is dispatched, and on a run that passes validation
    the results are those of the steps from that index on, in order, as
    far as the run got.  In every other case (no [resume_from], or an
    admitted run on an engine without a state store) the run id is
    freshly generated, of the form
    [<workflow_id>-<YYYYMMDD>-<HHMMSS>-<8 hex chars>]. *)
Theorem run_id_choice wf inputs agent resume (m : Machine W) :
  fresh_run wf resume (snd (gate m)) ->
  (forall w, 1000 <= year (fst (datetime_now w)) <= 9999) ->
  exists r,
    fst (execute wf inputs agent resume m) = inr r
    /\ match nonempty resume, fst (gate m), the_store m with
       | Some rid, false, _ =>
           WorkflowResult.run_id r = rid
           /\ WorkflowResult.step_results r = []
           /\ trace (snd (execute wf inputs agent resume m)) = trace m
       | Some rid, true, Some store =>
           WorkflowResult.run_id r = rid
           /\ start_point wf resume m = StateStore.get_resume_point store rid
           /\ (exists evs,
                 trace (snd (execute wf inputs agent resume m)) = trace m ++ evs
                 /\ Forall (fun e => StateStore.get_resume_point store rid
                                     <= event_index e) evs)
           /\ (valid_run wf inputs m ->
               run_outcome (retry_policy (engine m)) (Workflow.error_handling wf)
                 (pending (StateStore.get_resume_point store rid) 0
                    (Workflow.steps wf))
                 (WorkflowResult.step_results r) (WorkflowResult.status r)
                 (WorkflowResult.error r))
       | _, _, _ => run_id_form (Workflow.id wf) (WorkflowResult.run_id r)
       end.
Proof.
  intros Hfresh Hclock.
  destruct (fst (gate m)) eqn:Hg.
  - destruct (nonempty resume) as [rid|] eqn:Hne.
    + destruct (the_store m) as [store|] eqn:Hs.
      * destruct (execute_resumed wf inputs agent resume rid store m Hg Hne Hs)
          as (Hstart & r & evs & Hr & Hid & Ht & Hf & Hv).
        exists r. split; [exact Hr|]. split; [exact Hid|].
        split; [exact Hstart|]. split; [eauto|].
        intros Hvalid. apply Hv, Hvalid.
      * destruct (execute_run_id wf inputs agent resume m Hg Hfresh)
          as (r & Hr & Hid).
        exists r. split; [exact Hr|]. rewrite Hid.
        rewrite determine_run_fresh by (right; rewrite store_gate; exact Hs).
        apply generate_run_id_form, Hclock.
    + destruct (execute_run_id wf inputs agent resume m Hg Hfresh)
        as (r & Hr & Hid).
      exists r. split; [exact Hr|].
      assert (Hform : run_id_form (Workflow.id wf) (WorkflowResult.run_id r)).
      { rewrite Hid. rewrite determine_run_fresh by (left; exact Hne).
        apply generate_run_id_form, Hclock. }
      destruct (the_store m); exact Hform.
  - rewrite (execute_refused wf inputs agent resume m Hg). simpl.
    eexists. split; [reflexivity|].
    rewrite refuse_run_id.
    destruct (nonempty resume) as [rid|].
    + split; [reflexivity|]. split; [apply refuse_result|].
      rewrite trace_refuse, trace_gate. reflexivity.
    + apply generate_run_id_form, Hclock.
Qed.

(** C1, as the code has it. [execute(W, inputs, resume_from = run_id)] on
    an engine with a state store, when the gate admits the run and
    validation passes, returns a result for the same run id.  It starts
    the step loop at the store's resume point: it dispatches no step
    below it, and its results are those of the steps from the resume
    point on, one per step and in order, as far as the run got, all of
    them when the run is completed.  It starts from a context without
    variables: the bindings of the earlier steps are not reloaded, so
    every final variable is the output variable of a step at or after the
    resume point.  The resume point is [k + 1] when the checkpoints of
    the indices [0..k] are completed and index [k + 1] has no completed
    checkpoint. *)
Theorem resume_restarts_without_reload wf inputs agent rid store (m : Machine W) :
  fst (gate m) = true ->
  rid <> ""%string ->
  the_store m = Some store ->
  valid_run wf inputs m ->
  exists r vars evs,
    fst (execute wf inputs agent (Some rid) m) = inr r
    /\ WorkflowResult.run_id r = rid
    /\ trace (snd (execute wf inputs agent (Some rid) m)) = trace m ++ evs
    /\ Forall (fun e => StateStore.get_resume_point store rid <= event_index e) evs
    /\ run_outcome (retry_policy (engine m)) (Workflow.error_handling wf)
         (pending (StateStore.get_resume_point store rid) 0 (Workflow.steps wf))
         (WorkflowResult.step_results r) (WorkflowResult.status r)
         (WorkflowResult.error r)
    /\ WorkflowResult.final_output r = Some vars
    /\ (forall name,
          is_Some (vars !! name) ->
          exists (j : nat) step,
            Workflow.steps wf !! j = Some step
            /\ StateStore.get_resume_point store rid <= Z.of_nat j
            /\ WorkflowStep.output_variable step = Some name)
    /\ (forall k : nat,
          (forall j, 0 <= j <= Z.of_nat k ->
                     StateStore.completed_at_index store rid j = true) ->
          StateStore.completed_at_index store rid (Z.of_nat k + 1) = false ->
          StateStore.get_resume_point store rid = Z.of_nat k + 1).
Proof.
  intros Hg Hrid Hstore Hvalid.
  assert (Hne : nonempty (Some rid) = Some rid).
  { destruct rid; [congruence|reflexivity]. }
  destruct (execute_resumed wf inputs agent (Some rid) rid store m Hg Hne Hstore)
    as (_ & r & evs & Hr & Hid & Ht & Hf & Hv).
  destruct (Hv Hvalid) as (Hout & vars & Hfo & Hbound).
  exists r, vars, evs.
  split; [exact Hr|]. split; [exact Hid|]. split; [exact Ht|].
  split; [exact Hf|]. split; [exact Hout|]. split; [exact Hfo|].
  split; [exact Hbound|].
  intros k. apply StoreFacts.resume_point_after.
Qed.

End WholeRuns.


(** The guarded step of the run above and a step that is skipped, run: the
    first is dispatched to its tool, the second is not. *)
Example conditions_decide_dispatch :
  trace (snd (loop_body Scenario.one_step "r" None 0
                (Demo.step "s0" "t.a" [] (Some "a"%string) ["2 >= 1.5"%string] 3)
                Scenario.blank_context [] Scenario.plain))
  = [EvToolCall 0 "t" "a" []]
  /\ trace (snd (loop_body Scenario.one_step "r" None 0 Scenario.never_step
                   Scenario.blank_context [] Scenario.plain))
     = [].
Proof. split; vm_compute; reflexivity. Qed.

Lemma run_id_choice_witness :
  fresh_run Scenario.two_steps (Some Scenario.crashed_id)
    (snd (gate Scenario.crashed))
  /\ exists r,
       fst (execute Scenario.two_steps None None (Some Scenario.crashed_id)
              Scenario.crashed) = inr r
       /\ match nonempty (Some Scenario.crashed_id), fst (gate Scenario.crashed),
                the_store Scenario.crashed with
          | Some rid, false, _ =>
              WorkflowResult.run_id r = rid
              /\ WorkflowResult.step_results r = []
              /\ trace (snd (execute Scenario.two_steps None None
                               (Some Scenario.crashed_id) Scenario.crashed))
                 = trace Scenario.crashed
          | Some rid, true, Some store =>
              WorkflowResult.run_id r = rid
              /\ start_point Scenario.two_steps (Some Scenario.crashed_id)
                   Scenario.crashed
                 = StateStore.get_resume_point store rid
              /\ (exists evs,
                    trace (snd (execute Scenario.two_steps None None
                                  (Some Scenario.crashed_id) Scenario.crashed))
                    = trace Scenario.crashed ++ evs
                    /\ Forall (fun e => StateStore.get_resume_point store rid
                                        <= event_index e) evs)
              /\ (valid_run Scenario.two_steps None Scenario.crashed ->
                  run_outcome (retry_policy (engine Scenario.crashed))
                    (Workflow.error_handling Scenario.two_steps)
                    (pending (StateStore.get_resume_point store rid) 0
                       (Workflow.steps Scenario.two_steps))
                    (WorkflowResult.step_results r) (WorkflowResult.status r)
                    (WorkflowResult.error r))
          | _, _, _ =>
              run_id_form (Workflow.id Scenario.two_steps) (WorkflowResult.run_id r)
          end.
Proof.
  split; [vm_compute; exact I|].
  apply (run_id_choice Scenario.two_steps None None (Some Scenario.crashed_id)
           Scenario.crashed).
  - vm_compute. exact I.
  - intros w. vm_compute. split; discriminate.
Defined.

(** The three ways of settling on a run id, run: a resumed run keeps its
    id and runs step 1 only; a refusal with [resume_from] keeps the id it
    was given, though nothing is resumed; a run without [resume_from] gets
    a fresh id. *)
Example run_ids_on_runs :
  (exists r,
     fst (execute Scenario.two_steps None None (Some Scenario.crashed_id)
            Scenario.crashed) = inr r
     /\ WorkflowResult.run_id r = Scenario.crashed_id
     /\ map StepResult.step_id (WorkflowResult.step_results r) = ["s1"%string])
  /\ (exists r,
        fst (execute Scenario.two_steps None None (Some "old"%string)
               Scenario.tripped) = inr r
        /\ WorkflowResult.run_id r = "old"%string
        /\ WorkflowResult.step_results r = []
        /\ WorkflowResult.error r
           = Some "Circuit breaker is open - too many recent failures"%string)
  /\ (exists r,
        fst (execute Scenario.two_steps None None None Scenario.xy) = inr r
        /\ WorkflowResult.run_id r = "wf-20240309-140507-01234abc"%string).
Proof.
  split; [|split].
  - eexists. split; [vm_compute; reflexivity|]. split; vm_compute; reflexivity.
  - eexists. split; [vm_compute; reflexivity|]. repeat split; reflexivity.
  - eexists. split; [vm_compute; reflexivity|]. reflexivity.
Qed.

Lemma resume_restarts_without_reload_witness :
  fst (gate Scenario.crashed) = true
  /\ Scenario.crashed_id <> ""%string
  /\ (exists store, the_store Scenario.crashed = Some store)
  /\ valid_run Scenario.two_steps None Scenario.crashed
  /\ exists r vars evs,
      fst (execute Scenario.two_steps None None (Some Scenario.crashed_id)
             Scenario.crashed) = inr r
      /\ WorkflowResult.run_id r = Scenario.crashed_id
      /\ trace (snd (execute Scenario.two_steps None None (Some Scenario.crashed_id)
                       Scenario.crashed))
         = trace Scenario.crashed ++ evs
      /\ Forall (fun e =>
                   StateStore.get_resume_point
                     (default StateStore.empty (the_store Scenario.crashed))
                     Scenario.crashed_id
                   <= event_index e) evs
      /\ run_outcome (retry_policy (engine Scenario.crashed))
           (Workflow.error_handling Scenario.two_steps)
           (pending
              (StateStore.get_resume_point
                 (default StateStore.empty (the_store Scenario.crashed))
                 Scenario.crashed_id) 0
              (Workflow.steps Scenario.two_steps))
           (WorkflowResult.step_results r) (WorkflowResult.status r)
           (WorkflowResult.error r)
      /\ WorkflowResult.final_output r = Some vars
      /\ (forall name,
            is_Some (vars !! name) ->
            exists (j : nat) step,
              Workflow.steps Scenario.two_steps !! j = Some step
              /\ StateStore.get_resume_point
                   (default StateStore.empty (the_store Scenario.crashed))
                   Scenario.crashed_id
                 <= Z.of_nat j
              /\ WorkflowStep.output_variable step = Some name)
      /\ (forall k : nat,
            (forall j, 0 <= j <= Z.of_nat k ->
                       StateStore.completed_at_index
                         (default StateStore.empty (the_store Scenario.crashed))
                         Scenario.crashed_id j = true) ->
            StateStore.completed_at_index
              (default StateStore.empty (the_store Scenario.crashed))
              Scenario.crashed_id (Z.of_nat k + 1) = false ->
            StateStore.get_resume_point
              (default StateStore.empty (the_store Scenario.crashed))
              Scenario.crashed_id = Z.of_nat k + 1).
Proof.
  split; [reflexivity|]. split; [vm_compute; discriminate|].
  split; [eexists; vm_compute; reflexivity|].
  split; [reflexivity|].
  apply (resume_restarts_without_reload Scenario.two_steps None None
           Scenario.crashed_id
           (default StateStore.empty (the_store Scenario.crashed))
           Scenario.crashed).
  - reflexivity.
  - vm_compute. discriminate.
  - vm_compute. reflexivity.
  - reflexivity.
Defined.

(** C1 as stated fails on the reload.  The run of [two_steps] crashes after
    step 0, whose checkpoint is completed and holds its output; the resume
    point is 1.  The resumed run dispatches step 1 only, and its final
    variables hold [b] but not [a], unlike those of the uninterrupted run. *)
Lemma resume_loses_prior_variables :
  (exists store,
     the_store Scenario.crashed = Some store
     /\ StateStore.completed_at_index store Scenario.crashed_id 0 = true
     /\ (StepCheckpoint.outputs
           <$> StateStore.checkpoints store !! (Scenario.crashed_id, 0))
        = Some (Some (VStr "x"))
     /\ StateStore.get_resume_point store Scenario.crashed_id = 1)
  /\ (exists r,
        fst (execute Scenario.two_steps None None None Scenario.xy) = inr r
        /\ WorkflowResult.status r = WorkflowStatus.COMPLETED
        /\ (WorkflowResult.final_output r ≫= (.!! "a"%string)) = Some (VStr "x")
        /\ (WorkflowResult.final_output r ≫= (.!! "b"%string)) = Some (VStr "y"))
  /\ (exists r,
        fst (execute Scenario.two_steps None None (Some Scenario.crashed_id)
               Scenario.crashed) = inr r
        /\ WorkflowResult.status r = WorkflowStatus.COMPLETED
        /\ (WorkflowResult.final_output r ≫= (.!! "a"%string)) = None
        /\ (WorkflowResult.final_output r ≫= (.!! "b"%string)) = Some (VStr "y"))
  /\ trace (snd (execute Scenario.two_steps None None (Some Scenario.crashed_id)
                   Scenario.crashed))
     = trace Scenario.crashed ++ [EvToolCall 1 "u" "b" []].
Proof.
  split; [|split; [|split]].
  - eexists. split; [vm_compute; reflexivity|].
    split; [vm_compute; reflexivity|]. split; vm_compute; reflexivity.
  - eexists. split; [vm_compute; reflexivity|].
    split; [reflexivity|]. split; vm_compute; reflexivity.
  - eexists. split; [vm_compute; reflexivity|].
    split; [reflexivity|]. split; vm_compute; reflexivity.
  - vm_compute. reflexivity.
Qed.
